(** * LenkoStudio: the translation pipeline

    A shallow embedding of the two scripts that keep the bilingual site in
    step, [scripts/sync_translations.py] (Extractor and Reconciler) and
    [scripts/generate_i18n_all.py] (Generator), with the properties of the
    specification stated over it.

    Conventions of the embedding:
    - a Python [str] is a [string]; an [ascii] stands for one code point
      below 256;
    - a Python [dict] whose iteration order is observed is a [PyDict.t], an
      association list that keeps the insertion order; a dict that is only
      looked up is a [gmap];
    - a value that is a [str] or Python's [None] is an [option string];
    - a Python exception is the value [None] of an [option] result. *)

From Stdlib Require Import ZArith String Ascii List Bool Lia.
From stdpp Require Import gmap strings list fin_maps.
Import ListNotations.

Local Open Scope string_scope.
Local Open Scope list_scope.

(** ** Python strings *)

Module PyStr.

(** [str.isspace] on one code point, which is also the class [\s] of [re]
    on a [str] pattern: TAB..CR, FS..US, space, NEL and NBSP. *)
Definition isspace (c : ascii) : bool :=
  let n := nat_of_ascii c in
  (Nat.leb 9 n && Nat.leb n 13) || (Nat.leb 28 n && Nat.leb n 32)
  || Nat.eqb n 133 || Nat.eqb n 160.

Fixpoint all_space (s : string) : bool :=
  match s with
  | EmptyString => true
  | String c t => isspace c && all_space t
  end.

Fixpoint lstrip (s : string) : string :=
  match s with
  | EmptyString => EmptyString
  | String c t => if isspace c then lstrip t else s
  end.

Fixpoint rstrip (s : string) : string :=
  match s with
  | EmptyString => EmptyString
  | String c t => if all_space s then EmptyString else String c (rstrip t)
  end.

(** [s.strip()] *)
Definition strip (s : string) : string := rstrip (lstrip s).

(** [re.sub(r'\s+', ' ', s)]: every maximal run of whitespace becomes one
    space. [in_run] tells that the previous character was whitespace. *)
Fixpoint sub_ws_go (in_run : bool) (s : string) : string :=
  match s with
  | EmptyString => EmptyString
  | String c t =>
      if isspace c
      then (if in_run then sub_ws_go true t else String " " (sub_ws_go true t))
      else String c (sub_ws_go false t)
  end.

Definition sub_ws (s : string) : string := sub_ws_go false s.

(** [re.sub(r'\s+', ' ', s).strip()] *)
Definition normalize_ws (s : string) : string := strip (sub_ws s).

(** [c in s] for a one-character [c] *)
Fixpoint contains (c : ascii) (s : string) : bool :=
  match s with
  | EmptyString => false
  | String c' t => if Ascii.eqb c c' then true else contains c t
  end.

(** [sep.join(l)] *)
Fixpoint join (sep : string) (l : list string) : string :=
  match l with
  | [] => EmptyString
  | [x] => x
  | x :: l' => x ++ sep ++ join sep l'
  end.

(** The text [s] with a double quote for every apostrophe: the way the
    double quotes of the source are written in this file. *)
Fixpoint q (s : string) : string :=
  match s with
  | EmptyString => EmptyString
  | String c t =>
      String (if Ascii.eqb c "'" then ascii_of_nat 34 else c) (q t)
  end.

(** [sub in s] *)
Fixpoint substring_in (sub s : string) : bool :=
  if String.prefix sub s then true
  else match s with
       | EmptyString => false
       | String _ t => substring_in sub t
       end.

(** A line feed, as a string. *)
Definition nl : string := String (ascii_of_nat 10) EmptyString.

(** Truth value of a [str]: the empty string is false. *)
Definition truthy (s : string) : bool := negb (String.eqb s EmptyString).

End PyStr.

(** ** Python dicts in insertion order *)

Module PyDict.
Section with_value.
Context {V : Type}.

Definition t := list (string * V).

(** [d.get(k)] *)
Fixpoint get (k : string) (d : t) : option V :=
  match d with
  | [] => None
  | (k', v) :: d' => if String.eqb k k' then Some v else get k d'
  end.

(** [d[k] = v]: an existing key keeps its place, a new key goes last. *)
Fixpoint set (k : string) (v : V) (d : t) : t :=
  match d with
  | [] => [(k, v)]
  | (k', v') :: d' =>
      if String.eqb k k' then (k, v) :: d' else (k', v') :: set k v d'
  end.

(** [dict(pairs)] *)
Definition of_pairs (l : list (string * V)) : t :=
  fold_left (fun d kv => set (fst kv) (snd kv) d) l [].

Definition keys (d : t) : list string := map fst d.
End with_value.
Arguments t : clear implicits.
End PyDict.

(** ** The Extractor: class [IDExtractor] *)

(** What [HTMLParser.feed] reports to the handlers. Attribute values are the
    reported strings, character references already decoded. *)
Inductive event :=
| StartTag (tag : string) (attrs : list (string * string))
| EndTag (tag : string)
| Data (data : string)
| StartEndTag (tag : string) (attrs : list (string * string)).

(** A value of [self.elements]: the list of chunks while an element is
    being captured, the cleaned-up string once it has been closed. *)
Inductive content :=
| Chunks (l : list string)
| Text (s : string).

Module IDExtractor.

Record t := mk {
  elements : PyDict.t content;
  tags : PyDict.t string;
  current_id : option string;
  current_tag : option string;
  capture_content : bool
}.

(** [__init__] *)
Definition init : t :=
  {| elements := []; tags := []; current_id := None; current_tag := None;
     capture_content := false |}.

Definition handle_starttag (self : t) (tag : string)
    (attrs : list (string * string)) : t :=
  let attrs_dict := PyDict.of_pairs attrs in
  match PyDict.get "id" attrs_dict with
  | Some element_id =>
      {| elements := PyDict.set element_id (Chunks []) (elements self);
         tags := PyDict.set element_id tag (tags self);
         current_id := Some element_id;
         current_tag := Some tag;
         capture_content := true |}
  | None => self
  end.

(** [''.join(x)] for a value of [self.elements]; joining a [str] gives the
    string back. *)
Definition join_content (c : content) : string :=
  match c with
  | Chunks l => PyStr.join "" l
  | Text s => s
  end.

Definition handle_endtag (self : t) (tag : string) : option t :=
  if capture_content self && bool_decide (current_tag self = Some tag) then
    match current_id self with
    | Some cid =>
        match PyDict.get cid (elements self) with
        | Some c =>
            let content := PyStr.normalize_ws (join_content c) in
            Some {| elements := PyDict.set cid (Text content) (elements self);
                    tags := tags self;
                    current_id := None;
                    current_tag := None;
                    capture_content := false |}
        | None => None
        end
    | None => None
    end
  else Some self.

Definition handle_data (self : t) (data : string) : option t :=
  match current_id self with
  | Some cid =>
      if capture_content self && PyStr.truthy cid then
        match PyDict.get cid (elements self) with
        | Some (Chunks l) =>
            Some {| elements := PyDict.set cid (Chunks (l ++ [data])) (elements self);
                    tags := tags self;
                    current_id := current_id self;
                    current_tag := current_tag self;
                    capture_content := capture_content self |}
        | Some (Text _) => None
        | None => None
        end
      else Some self
  | None => Some self
  end.

Definition handle_startendtag (self : t) (tag : string)
    (attrs : list (string * string)) : t :=
  let attrs_dict := PyDict.of_pairs attrs in
  match PyDict.get "id" attrs_dict with
  | Some element_id =>
      {| elements := PyDict.set element_id (Text "") (elements self);
         tags := PyDict.set element_id tag (tags self);
         current_id := current_id self;
         current_tag := current_tag self;
         capture_content := capture_content self |}
  | None => self
  end.

Definition handle (self : t) (e : event) : option t :=
  match e with
  | StartTag tag attrs => Some (handle_starttag self tag attrs)
  | EndTag tag => handle_endtag self tag
  | Data data => handle_data self data
  | StartEndTag tag attrs => Some (handle_startendtag self tag attrs)
  end.

(** [parser.feed(html)], on the events of the document *)
Fixpoint feed (self : t) (evs : list event) : option t :=
  match evs with
  | [] => Some self
  | e :: evs' =>
      match handle self e with
      | Some self' => feed self' evs'
      | None => None
      end
  end.

End IDExtractor.

(** [extract_ids_from_html] *)
Definition extract_ids_from_html (html_content : list event)
    : option (PyDict.t content) :=
  match IDExtractor.feed IDExtractor.init html_content with
  | Some parser => Some (IDExtractor.elements parser)
  | None => None
  end.


(** ** The translation Store: one row of [i18n/translations.csv] *)

Module Row.
Record t := mk {
  page : string;
  address : string;
  status : string;
  tag : string;
  id : string;
  en : string;
  es : string
}.

(** The values of a row in the order of
    [fieldnames = ['page', 'address', 'status', 'tag', 'id', 'en', 'es']]. *)
Definition values (r : t) : list string :=
  [page r; address r; status r; tag r; id r; en r; es r].
End Row.

Definition fieldnames : list string :=
  ["page"; "address"; "status"; "tag"; "id"; "en"; "es"].

(** ** The Reconciler *)

(** [get_page_address] *)
Definition get_page_address (page_name lang : string) : string :=
  if String.eqb lang "en" then "/" ++ page_name ++ ".html"
  else "/" ++ lang ++ "/" ++ page_name ++ ".html".

(** A row of the prior Store as [csv.DictReader] yields it: the values
    under the names of the header. A name without a value reads as absent:
    the Reconciler looks a row up with [get] and goes by the truth value of
    what it finds, which is the same for [None], the value of a column
    that a short row does not reach, and for a name that is not there. *)
Abbreviation csv_row := (gmap string string).

(** [row.get(key, '')], also [row.get(key)] where only the truth value and
    then the string are used. *)
Definition row_get (row : csv_row) (key : string) : string :=
  default "" (row !! key).

(** The conversion at the head of the loop of [create_updated_csv]:
    [' '.join(str(item) for item in c if item)] for a list, the string
    itself otherwise. *)
Definition content_str (c : content) : string :=
  match c with
  | Chunks l => PyStr.join " " (List.filter PyStr.truthy l)
  | Text s => s
  end.

(** [content_data.get(lang, '')], converted *)
Definition scanned (content_data : PyDict.t content) (lang : string) : string :=
  match PyDict.get lang content_data with
  | Some c => content_str c
  | None => ""
  end.

(** The state of the two nested loops of [create_updated_csv]. *)
Record merge_state := {
  rows : list Row.t;
  processed_ids : gset string
}.

(** The row that the inner loop of [create_updated_csv] appends for an
    identifier with the contents [en_content] and [es_content_from_html]
    scanned on [page]. *)
Definition candidate_row (tag_info : PyDict.t (PyDict.t string))
    (existing_data : gmap string csv_row) (page element_id : string)
    (en_content es_content_from_html : string) : Row.t :=
  let es_content :=
    match existing_data !! element_id with
    | Some row =>
        if PyStr.truthy (row_get row "es") then row_get row "es"
        else es_content_from_html
    | None => es_content_from_html
    end in
  let tag_type :=
    default "unknown" (PyDict.get element_id (default [] (PyDict.get page tag_info))) in
  let best_page :=
    match existing_data !! element_id with
    | Some row =>
        if PyStr.truthy (row_get row "page") then row_get row "page" else page
    | None => page
    end in
  let address := get_page_address best_page "en" in
  {| Row.page := best_page; Row.address := address;
     Row.status := "active"; Row.tag := tag_type;
     Row.id := element_id; Row.en := en_content;
     Row.es := es_content |}.

(** The body of the inner loop of [create_updated_csv]. *)
Definition merge_id (tag_info : PyDict.t (PyDict.t string))
    (existing_data : gmap string csv_row) (page : string)
    (st : merge_state) (item : string * PyDict.t content) : merge_state :=
  let '(element_id, content_data) := item in
  if bool_decide (element_id ∈ processed_ids st) then st
  else
    let processed := {[element_id]} ∪ processed_ids st in
    let en_content := scanned content_data "en" in
    let es_content_from_html := scanned content_data "es" in
    if negb (PyStr.truthy en_content) || negb (PyStr.truthy (PyStr.strip en_content))
    then {| rows := rows st; processed_ids := processed |}
    else
      {| rows := rows st ++
           [candidate_row tag_info existing_data page element_id
              en_content es_content_from_html];
         processed_ids := processed |}.

(** The body of the outer loop. *)
Definition merge_page (tag_info : PyDict.t (PyDict.t string))
    (existing_data : gmap string csv_row)
    (st : merge_state) (item : string * PyDict.t (PyDict.t content)) : merge_state :=
  fold_left (merge_id tag_info existing_data (fst item)) (snd item) st.

(** [create_updated_csv] *)
Definition create_updated_csv (page_ids : PyDict.t (PyDict.t (PyDict.t content)))
    (tag_info : PyDict.t (PyDict.t string))
    (existing_data : gmap string csv_row) : list Row.t :=
  rows (fold_left (merge_page tag_info existing_data) page_ids
          {| rows := []; processed_ids := ∅ |}).

(** [id_score], local to [write_csv] *)
Definition id_score (element_id : string) : Z :=
  let score := 0%Z in
  let score := if PyStr.contains "_" element_id then (score - 1000)%Z else score in
  let score := if PyStr.contains "-" element_id then (score + 100)%Z else score in
  let score :=
    if negb (PyStr.contains "-" element_id || PyStr.contains "_" element_id)
    then (score - 50)%Z else score in
  (score - Z.of_nat (String.length element_id))%Z.

(** The state of the loop of [write_csv]. *)
Record dedup_state := {
  seen_text : gmap string Row.t;
  deduplicated_rows : list Row.t
}.

(** The body of the loop of [write_csv]. *)
Definition dedup_step (st : dedup_state) (row : Row.t) : dedup_state :=
  let en_text := Row.en row in
  let element_id := Row.id row in
  match seen_text st !! en_text with
  | Some seen =>
      let existing_id := Row.id seen in
      let current_score := id_score element_id in
      let existing_score := id_score existing_id in
      if bool_decide (current_score > existing_score)%Z then
        {| seen_text := <[en_text := row]> (seen_text st);
           deduplicated_rows :=
             filter (λ r, Row.id r ≠ existing_id) (deduplicated_rows st) ++ [row] |}
      else st
  | None =>
      {| seen_text := <[en_text := row]> (seen_text st);
         deduplicated_rows := deduplicated_rows st ++ [row] |}
  end.

(** The rows [write_csv] hands to [writer.writerows]. *)
Definition deduplicate (rows : list Row.t) : list Row.t :=
  deduplicated_rows
    (fold_left dedup_step rows {| seen_text := ∅; deduplicated_rows := [] |}).

(** [active_rows] of [main] *)
Definition active_rows (updated_rows : list Row.t) : list Row.t :=
  filter (λ row, Row.status row = "active") updated_rows.

(** The rows of the Store that one run persists: [create_updated_csv], the
    selection of the active rows in [main], and the deduplication of
    [write_csv]. *)
Definition reconcile (page_ids : PyDict.t (PyDict.t (PyDict.t content)))
    (tag_info : PyDict.t (PyDict.t string))
    (existing_data : gmap string csv_row) : list Row.t :=
  deduplicate (active_rows (create_updated_csv page_ids tag_info existing_data)).


(** ** The Store file: [csv.DictWriter] and [csv.DictReader]

    The file is held as the text written to it; its bytes are the UTF-8
    encoding of that text, one-to-one. Dialect [excel]: delimiter comma,
    quote character [dq], doubled quotes, minimal quoting, line terminator
    CR LF. *)

Module Csv.

Definition dq : ascii := ascii_of_nat 34.
Definition cr : ascii := ascii_of_nat 13.
Definition lf : ascii := ascii_of_nat 10.
Definition comma : ascii := ascii_of_nat 44.

(** *** Writing *)

(** A field is quoted when it holds the delimiter, the quote character or
    a character of the line terminator. *)
Definition needs_quotes (field : string) : bool :=
  PyStr.contains comma field || PyStr.contains dq field
  || PyStr.contains cr field || PyStr.contains lf field.

Fixpoint double_quotes (field : string) : string :=
  match field with
  | EmptyString => EmptyString
  | String c t =>
      if Ascii.eqb c dq then String dq (String dq (double_quotes t))
      else String c (double_quotes t)
  end.

Definition write_field (field : string) : string :=
  if needs_quotes field
  then String dq (double_quotes field ++ String dq EmptyString)
  else field.

(** [writer.writerow] of a row of several fields *)
Definition write_record (fields : list string) : string :=
  PyStr.join (String comma EmptyString) (map write_field fields)
  ++ String cr (String lf EmptyString).

(** [writer.writeheader(); writer.writerows(rows)] for
    [DictWriter(f, fieldnames=fieldnames)], into a file opened with
    [newline='']: the text reaches the file as it is. *)
Definition DictWriter (rows : list Row.t) : string :=
  write_record fieldnames
  ++ PyStr.join "" (map (fun r => write_record (Row.values r)) rows).

(** *** Reading *)

(** The file is opened for reading without [newline='']: the text layer
    turns CR LF and a lone CR into LF. *)
Fixpoint universal_newlines (s : string) : string :=
  match s with
  | EmptyString => EmptyString
  | String c t =>
      if Ascii.eqb c cr then
        match t with
        | String c' t' =>
            if Ascii.eqb c' lf then String lf (universal_newlines t')
            else String lf (universal_newlines t)
        | EmptyString => String lf EmptyString
        end
      else String c (universal_newlines t)
  end.

(** The lines a text file yields when iterated, each with its LF. [cur]
    is the line being read, reversed. *)
Fixpoint lines_go (cur : list ascii) (s : string) : list (list ascii) :=
  match s with
  | EmptyString => match cur with [] => [] | _ => [rev cur] end
  | String c t =>
      if Ascii.eqb c lf then rev (c :: cur) :: lines_go [] t
      else lines_go (c :: cur) t
  end.

Definition lines (s : string) : list (list ascii) := lines_go [] s.

(** The states of the reader that this dialect reaches. *)
Inductive parser_state :=
| START_RECORD | START_FIELD | IN_FIELD | IN_QUOTED_FIELD
| QUOTE_IN_QUOTED_FIELD | EAT_CRNL.

(** [field] is the field being read, reversed; [fields] the fields of
    the record read so far, reversed. *)
Record reader := {
  state : parser_state;
  field : list ascii;
  fields : list string
}.

Definition parse_reset : reader :=
  {| state := START_RECORD; field := []; fields := [] |}.

(** [csv.field_size_limit()], as the module sets it. *)
Definition field_limit : N := 131072.

(** [parse_add_char], with the state the caller sets next; [None] is
    [csv.Error], for a field that has reached the limit. *)
Definition parse_add_char (self : reader) (c : ascii) (st : parser_state)
    : option reader :=
  if (field_limit <=? N.of_nat (length (field self)))%N then None
  else Some {| state := st; field := c :: field self; fields := fields self |}.

Definition parse_save_field (self : reader) (st : parser_state) : reader :=
  {| state := st; field := [];
     fields := string_of_list_ascii (rev (field self)) :: fields self |}.

Definition set_state (self : reader) (st : parser_state) : reader :=
  {| state := st; field := field self; fields := fields self |}.

Definition is_newline (c : ascii) : bool := Ascii.eqb c lf || Ascii.eqb c cr.

(** [parse_process_char]; [None] for the character is the end of a line,
    [None] for the result is [csv.Error]. *)
Definition parse_process_char (self : reader) (c : option ascii) : option reader :=
  let start_field (self : reader) :=
    match c with
    | None => Some (parse_save_field self START_RECORD)
    | Some ch =>
        if is_newline ch then Some (parse_save_field self EAT_CRNL)
        else if Ascii.eqb ch dq then Some (set_state self IN_QUOTED_FIELD)
        else if Ascii.eqb ch comma then Some (parse_save_field self START_FIELD)
        else parse_add_char self ch IN_FIELD
    end in
  match state self with
  | START_RECORD =>
      match c with
      | None => Some self
      | Some ch =>
          if is_newline ch then Some (set_state self EAT_CRNL)
          else start_field self
      end
  | START_FIELD => start_field self
  | IN_FIELD =>
      match c with
      | None => Some (parse_save_field self START_RECORD)
      | Some ch =>
          if is_newline ch then Some (parse_save_field self EAT_CRNL)
          else if Ascii.eqb ch comma then Some (parse_save_field self START_FIELD)
          else parse_add_char self ch IN_FIELD
      end
  | IN_QUOTED_FIELD =>
      match c with
      | None => Some self
      | Some ch =>
          if Ascii.eqb ch dq then Some (set_state self QUOTE_IN_QUOTED_FIELD)
          else parse_add_char self ch IN_QUOTED_FIELD
      end
  | QUOTE_IN_QUOTED_FIELD =>
      match c with
      | None => Some (parse_save_field self START_RECORD)
      | Some ch =>
          if Ascii.eqb ch dq then parse_add_char self ch IN_QUOTED_FIELD
          else if Ascii.eqb ch comma then Some (parse_save_field self START_FIELD)
          else if is_newline ch then Some (parse_save_field self EAT_CRNL)
          else parse_add_char self ch IN_FIELD
      end
  | EAT_CRNL =>
      match c with
      | None => Some (set_state self START_RECORD)
      | Some ch => if is_newline ch then Some self else None
      end
  end.

Fixpoint process_line (self : reader) (line : list ascii) : option reader :=
  match line with
  | [] => parse_process_char self None
  | c :: line' =>
      match parse_process_char self (Some c) with
      | Some self' => process_line self' line'
      | None => None
      end
  end.

(** All the records of the file: [list(csv.reader(f))]. A record ends
    when a line leaves the reader in [START_RECORD]; at the end of the
    input a record still open inside a quoted field is closed. *)
Fixpoint records_go (self : reader) (ls : list (list ascii))
    : option (list (list string)) :=
  match ls with
  | [] =>
      match state self with
      | START_RECORD => Some []
      | IN_QUOTED_FIELD =>
          Some [rev (fields (parse_save_field self START_RECORD))]
      | _ => if bool_decide (field self = []) then Some []
             else Some [rev (fields (parse_save_field self START_RECORD))]
      end
  | line :: ls' =>
      match process_line self line with
      | Some self' =>
          match state self' with
          | START_RECORD =>
              match records_go parse_reset ls' with
              | Some recs => Some (rev (fields self') :: recs)
              | None => None
              end
          | _ => records_go self' ls'
          end
      | None => None
      end
  end.

Definition reader_records (file : string) : option (list (list string)) :=
  records_go parse_reset (lines (universal_newlines file)).

(** [dict(zip(fieldnames, row))]: a later column of the same name wins *)
Fixpoint zip_dict (names row : list string) (d : csv_row) : csv_row :=
  match names, row with
  | n :: names', v :: row' => zip_dict names' row' (<[n := v]> d)
  | _, _ => d
  end.

(** [list(csv.DictReader(f))]: the first record names the columns, empty
    records are passed over. *)
Definition DictReader (file : string) : option (list csv_row) :=
  match reader_records file with
  | Some (names :: recs) =>
      Some (map (fun row => zip_dict names row ∅)
              (List.filter (fun row => negb (bool_decide (row = []))) recs))
  | Some [] => Some []
  | None => None
  end.

(** A row as [csv.DictReader] yields it, [None] standing for Python's
    [None]: the value of a column that a short row does not reach
    ([restval]). The fields of a long row beyond the header go under the
    key [None], which is no [str]: no lookup by a name finds them. *)
Abbreviation dict_row := (gmap string (option string)).

(** [dict(zip(fieldnames, row))], then [restval] for the names left *)
Fixpoint zip_restval (names row : list string) (d : dict_row) : dict_row :=
  match names with
  | [] => d
  | n :: names' =>
      match row with
      | v :: row' => zip_restval names' row' (<[n := Some v]> d)
      | [] => zip_restval names' [] (<[n := None]> d)
      end
  end.

(** [list(csv.DictReader(f))], the values that are [None] told apart. *)
Definition DictReader_restval (file : string) : option (list dict_row) :=
  match reader_records file with
  | Some (names :: recs) =>
      Some (map (fun row => zip_restval names row ∅)
              (List.filter (fun row => negb (bool_decide (row = []))) recs))
  | Some [] => Some []
  | None => None
  end.

End Csv.

(** ** The run of [sync_translations.py] *)

(** The files a run reads and writes: the pages, as the events
    [HTMLParser] reports for their text, under their paths, and the text of
    [i18n/translations.csv] when the file exists. *)
Record site := {
  html_files : gmap string (list event);
  translations_csv : option string
}.

Definition pages : list string :=
  ["index"; "about"; "contact"; "portfolio"; "project"].

(** The result of [scan_html_files] while it is built. *)
Record scan_state := {
  page_ids : PyDict.t (PyDict.t (PyDict.t content));
  tag_info : PyDict.t (PyDict.t string)
}.

(** The loop over [extractor.elements.items()] in [scan_html_files], for the
    language [lang]. The tag found in the English page is kept. *)
Definition record_elements (lang : string) (extractor : IDExtractor.t)
    (acc : PyDict.t (PyDict.t content) * PyDict.t string)
    : PyDict.t (PyDict.t content) * PyDict.t string :=
  fold_left
    (fun (acc : PyDict.t (PyDict.t content) * PyDict.t string)
         (item : string * content) =>
       let '(ids, tgs) := acc in
       let '(element_id, content) := item in
       let content_data := default [] (PyDict.get element_id ids) in
       let ids' := PyDict.set element_id (PyDict.set lang content content_data) ids in
       let tag_name := default "unknown" (PyDict.get element_id (IDExtractor.tags extractor)) in
       let tgs' :=
         if String.eqb lang "en" then PyDict.set element_id tag_name tgs
         else match PyDict.get element_id tgs with
              | Some _ => tgs
              | None => PyDict.set element_id tag_name tgs
              end in
       (ids', tgs'))
    (IDExtractor.elements extractor) acc.

(** One language version of one page: skipped when the file does not
    exist. *)
Definition scan_file (fs : site) (path lang : string)
    (acc : PyDict.t (PyDict.t content) * PyDict.t string)
    : option (PyDict.t (PyDict.t content) * PyDict.t string) :=
  match html_files fs !! path with
  | Some doc =>
      match IDExtractor.feed IDExtractor.init doc with
      | Some extractor => Some (record_elements lang extractor acc)
      | None => None
      end
  | None => Some acc
  end.

Definition scan_page (fs : site) (st : option scan_state) (page : string)
    : option scan_state :=
  match st with
  | None => None
  | Some st =>
      match scan_file fs (page ++ ".html") "en" ([], []) with
      | Some acc =>
          match scan_file fs ("es/" ++ page ++ ".html") "es" acc with
          | Some (ids, tgs) =>
              Some {| page_ids := PyDict.set page ids (page_ids st);
                      tag_info := PyDict.set page tgs (tag_info st) |}
          | None => None
          end
      | None => None
      end
  end.

(** [scan_html_files] *)
Definition scan_html_files (fs : site) : option scan_state :=
  fold_left (scan_page fs) pages (Some {| page_ids := []; tag_info := [] |}).

(** The loop of [load_existing_csv]: a later row of the same id replaces
    an earlier one, a row without id is passed over. *)
Definition index_rows (rows : list csv_row) : gmap string csv_row :=
  fold_left
    (fun existing row =>
       let element_id := row_get row "id" in
       if PyStr.truthy element_id then <[element_id := row]> existing else existing)
    rows ∅.

(** [load_existing_csv] *)
Definition load_existing_csv (fs : site) : option (gmap string csv_row) :=
  match translations_csv fs with
  | None => Some ∅
  | Some file =>
      match Csv.DictReader file with
      | Some rows => Some (index_rows rows)
      | None => None
      end
  end.

(** [write_csv] *)
Definition write_csv (rows : list Row.t) (fs : site) : site :=
  {| html_files := html_files fs;
     translations_csv := Some (Csv.DictWriter (deduplicate rows)) |}.

(** [main] of [sync_translations.py], without what it prints. The
    directory [i18n] is taken to exist. *)
Definition sync_main (fs : site) : option site :=
  match scan_html_files fs with
  | Some scan =>
      match load_existing_csv fs with
      | Some existing_data =>
          let updated_rows :=
            create_updated_csv (page_ids scan) (tag_info scan) existing_data in
          let final_rows := active_rows updated_rows in
          Some (write_csv final_rows fs)
      | None => None
      end
  | None => None
  end.


(** ** Regular expressions: the part of [re] that the Generator uses

    Patterns are matched by backtracking in the order of [re]: the leftmost
    match, the first alternative first, greedy repetition longest first. *)

Module Re.

Inductive regex :=
| Eps
| Chr (c : ascii)
| Cls (p : ascii -> bool)
| Seq (a b : regex)
| Alt (a b : regex)
| Star (a : regex)
| Lazy (a : regex)
| Grp (n : nat) (a : regex).

Definition groups := list (nat * list ascii).

Definition lower (c : ascii) : ascii :=
  let n := nat_of_ascii c in
  if (Nat.leb 65 n && Nat.leb n 90)
     || (Nat.leb 192 n && Nat.leb n 222 && negb (Nat.eqb n 215))
  then ascii_of_nat (n + 32) else c.

Definition chr_eq (ignorecase : bool) (c d : ascii) : bool :=
  if ignorecase then Ascii.eqb (lower c) (lower d) else Ascii.eqb c d.

Section matcher.
Context {A : Type} (ignorecase : bool).

(** Greedy repetition: as many rounds of [step] as succeed, then the
    continuation [k]; on failure one round less. A round that consumes
    nothing is not repeated; [n] bounds the number of rounds. *)
Fixpoint star_loop
    (step : list ascii -> groups -> (list ascii -> groups -> option A) -> option A)
    (k : list ascii -> groups -> option A)
    (n : nat) (s : list ascii) (g : groups) : option A :=
  match n with
  | O => k s g
  | S n' =>
      match step s g
              (fun s' g' =>
                 if Nat.ltb (length s') (length s)
                 then star_loop step k n' s' g' else None) with
      | Some x => Some x
      | None => k s g
      end
  end.

(** Lazy repetition: the continuation first, one more round on failure. *)
Fixpoint lazy_loop
    (step : list ascii -> groups -> (list ascii -> groups -> option A) -> option A)
    (k : list ascii -> groups -> option A)
    (n : nat) (s : list ascii) (g : groups) : option A :=
  match k s g with
  | Some x => Some x
  | None =>
      match n with
      | O => None
      | S n' =>
          step s g
            (fun s' g' =>
               if Nat.ltb (length s') (length s)
               then lazy_loop step k n' s' g' else None)
      end
  end.

(** [run r s g k]: match [r] at the head of [s] with the groups [g] bound
    so far, and hand what follows the match to [k]; when [k] fails the next
    way of matching [r] is tried. *)
Fixpoint run (r : regex) (s : list ascii) (g : groups)
    (k : list ascii -> groups -> option A) {struct r} : option A :=
  match r with
  | Eps => k s g
  | Chr c =>
      match s with
      | d :: s' => if chr_eq ignorecase c d then k s' g else None
      | [] => None
      end
  | Cls p =>
      match s with
      | d :: s' => if p d then k s' g else None
      | [] => None
      end
  | Seq a b => run a s g (fun s' g' => run b s' g' k)
  | Alt a b =>
      match run a s g k with
      | Some x => Some x
      | None => run b s g k
      end
  | Star a => star_loop (run a) k (length s) s g
  | Lazy a => lazy_loop (run a) k (length s) s g
  | Grp i a =>
      run a s g
        (fun s' g' => k s' ((i, take (length s - length s') s) :: g'))
  end.
End matcher.

(** A match of [r] at the head of [s]: what follows the match, and the
    groups. *)
Definition match_here (ignorecase : bool) (r : regex) (s : list ascii)
    : option (list ascii * groups) :=
  run ignorecase r s [] (fun s' g => Some (s', g)).

(** [re.search(r, s) is not None] *)
Fixpoint search (ignorecase : bool) (r : regex) (s : list ascii) : bool :=
  match match_here ignorecase r s with
  | Some _ => true
  | None =>
      match s with
      | [] => false
      | _ :: s' => search ignorecase r s'
      end
  end.

(** [m.group(i)]; a group that took no part in the match is empty. *)
Fixpoint group (i : nat) (g : groups) : list ascii :=
  match g with
  | [] => []
  | (j, v) :: g' => if Nat.eqb i j then v else group i g'
  end.

(** *** Replacement templates *)

Inductive part :=
| PLit (c : ascii)
| PGrp (i : nat).

Definition backslash : ascii := ascii_of_nat 92.

Definition digit (c : ascii) : option nat :=
  let n := nat_of_ascii c in
  if Nat.leb 48 n && Nat.leb n 57 then Some (n - 48) else None.

Definition octdigit (c : ascii) : option nat :=
  let n := nat_of_ascii c in
  if Nat.leb 48 n && Nat.leb n 55 then Some (n - 48) else None.

Definition ascii_letter (c : ascii) : bool :=
  let n := nat_of_ascii c in
  (Nat.leb 65 n && Nat.leb n 90) || (Nat.leb 97 n && Nat.leb n 122).

(** The escapes of one letter that stand for a character. *)
Definition escape (c : ascii) : option ascii :=
  let n := nat_of_ascii c in
  if Nat.eqb n 97 then Some (ascii_of_nat 7)
  else if Nat.eqb n 98 then Some (ascii_of_nat 8)
  else if Nat.eqb n 102 then Some (ascii_of_nat 12)
  else if Nat.eqb n 110 then Some (ascii_of_nat 10)
  else if Nat.eqb n 114 then Some (ascii_of_nat 13)
  else if Nat.eqb n 116 then Some (ascii_of_nat 9)
  else if Nat.eqb n 118 then Some (ascii_of_nat 11)
  else if Nat.eqb n 92 then Some backslash
  else None.

Definition addgroup (ngroups index : nat) (rest : option (list part))
    : option (list part) :=
  if Nat.ltb ngroups index then None
  else match rest with
       | Some ps => Some (PGrp index :: ps)
       | None => None
       end.

Definition addlit (c : ascii) (rest : option (list part)) : option (list part) :=
  match rest with
  | Some ps => Some (PLit c :: ps)
  | None => None
  end.

(** The whitespace that [int] passes over around a number: TAB to CR,
    the space, NEL and NBSP. *)
Definition int_space (c : ascii) : bool :=
  let n := nat_of_ascii c in
  (Nat.leb 9 n && Nat.leb n 13) || Nat.eqb n 32 || Nat.eqb n 133 || Nat.eqb n 160.

Fixpoint skip_space (s : list ascii) : list ascii :=
  match s with
  | c :: s' => if int_space c then skip_space s' else s
  | [] => []
  end.

(** The digits of a number after its first digit, with single underscores
    between digits: the value, the number of digits, and what follows.
    [None] when an underscore is not followed by a digit. *)
Fixpoint int_digits (value count : N) (s : list ascii)
    : option (N * N * list ascii) :=
  match s with
  | c :: s' =>
      match digit c with
      | Some d => int_digits (value * 10 + N.of_nat d) (count + 1) s'
      | None =>
          if Ascii.eqb c "_" then
            match s' with
            | c' :: s'' =>
                match digit c' with
                | Some d => int_digits (value * 10 + N.of_nat d) (count + 1) s''
                | None => None
                end
            | [] => None
            end
          else Some (value, count, s)
      end
  | [] => Some (value, count, [])
  end.

(** [int(name)] for a group name, when it is not negative: whitespace, a
    sign, digits, whitespace. [None] is [ValueError], which [int] also
    raises for more than 4300 digits, or a negative number. A name that is
    an identifier, for which [re] looks for a named group and raises as
    these patterns have none, is no number either. *)
Definition group_index (name : list ascii) : option N :=
  let s := skip_space name in
  let '(negative, s) :=
    match s with
    | c :: s' =>
        if Ascii.eqb c "+" then (false, s')
        else if Ascii.eqb c "-" then (true, s')
        else (false, s)
    | [] => (false, [])
    end in
  match s with
  | c :: s' =>
      match digit c with
      | Some d =>
          match int_digits (N.of_nat d) 1 s' with
          | Some (value, count, rest) =>
              match skip_space rest with
              | [] =>
                  if (4300 <? count)%N then None
                  else if negative && negb (value =? 0)%N then None
                  else Some value
              | _ :: _ => None
              end
          | None => None
          end
      | None => None
      end
  | [] => None
  end.

(** The reference [\g<name>], [name] read: the group of that number. *)
Definition addgroup_name (ngroups : nat) (name : list ascii)
    (rest : option (list part)) : option (list part) :=
  match group_index name with
  | Some index =>
      if (N.of_nat ngroups <? index)%N then None
      else addgroup ngroups (N.to_nat index) rest
  | None => None
  end.

(** [parse_template] for a pattern of [ngroups] groups, none of them
    named. [None] is the exception it raises. *)
Fixpoint parse_template (ngroups : nat) (s : list ascii) : option (list part) :=
  match s with
  | [] => Some []
  | c :: s1 =>
      if negb (Ascii.eqb c backslash) then addlit c (parse_template ngroups s1)
      else
        match s1 with
        | [] => None
        | e :: s2 =>
            if Nat.eqb (nat_of_ascii e) 103 then
              match s2 with
              | lt :: s3 =>
                  if Ascii.eqb lt "<" then
                    (fix getuntil (name l : list ascii) {struct l}
                         : option (list part) :=
                       match l with
                       | [] => None
                       | c' :: l' =>
                           if Ascii.eqb c' ">"
                           then addgroup_name ngroups (rev name)
                                  (parse_template ngroups l')
                           else getuntil (c' :: name) l'
                       end) [] s3
                  else None
              | [] => None
              end
            else if Nat.eqb (nat_of_ascii e) 48 then
              match s2 with
              | o1 :: s3 =>
                  match octdigit o1 with
                  | Some v1 =>
                      match s3 with
                      | o2 :: s4 =>
                          match octdigit o2 with
                          | Some v2 =>
                              addlit (ascii_of_nat ((v1 * 8 + v2) mod 256))
                                (parse_template ngroups s4)
                          | None =>
                              addlit (ascii_of_nat v1) (parse_template ngroups s3)
                          end
                      | [] => addlit (ascii_of_nat v1) (parse_template ngroups s3)
                      end
                  | None => addlit (ascii_of_nat 0) (parse_template ngroups s2)
                  end
              | [] => addlit (ascii_of_nat 0) (parse_template ngroups s2)
              end
            else
              match digit e with
              | Some d1 =>
                  match s2 with
                  | c2 :: s3 =>
                      match digit c2 with
                      | Some d2 =>
                          match s3 with
                          | c3 :: s4 =>
                              match octdigit e, octdigit c2, octdigit c3 with
                              | Some v1, Some v2, Some v3 =>
                                  let v := v1 * 64 + v2 * 8 + v3 in
                                  if Nat.ltb 255 v then None
                                  else addlit (ascii_of_nat v)
                                         (parse_template ngroups s4)
                              | _, _, _ =>
                                  addgroup ngroups (d1 * 10 + d2)
                                    (parse_template ngroups s3)
                              end
                          | [] =>
                              addgroup ngroups (d1 * 10 + d2)
                                (parse_template ngroups s3)
                          end
                      | None => addgroup ngroups d1 (parse_template ngroups s2)
                      end
                  | [] => addgroup ngroups d1 (parse_template ngroups s2)
                  end
              | None =>
                  match escape e with
                  | Some ch => addlit ch (parse_template ngroups s2)
                  | None =>
                      if ascii_letter e then None
                      else addlit c (addlit e (parse_template ngroups s2))
                  end
              end
        end
  end.

(** [expand_template]; group 0 is the whole match. *)
Fixpoint expand (ps : list part) (g : groups) : list ascii :=
  match ps with
  | [] => []
  | PLit c :: ps' => c :: expand ps' g
  | PGrp i :: ps' => group i g ++ expand ps' g
  end.

(** *** Substitution *)

(** The loop of [re.sub] over the text, with the replacement as a
    function of the groups of the match, the match itself as group 0,
    which may raise; [fuel] bounds the number of steps, one more than the
    length of the text is enough. *)
Fixpoint sub_go (fuel : nat) (ignorecase : bool) (r : regex)
    (repl : groups -> option (list ascii)) (s : list ascii)
    : option (list ascii) :=
  match fuel with
  | O => Some s
  | S fuel' =>
      match match_here ignorecase r s with
      | Some (rest, g) =>
          match repl ((0, take (length s - length rest) s) :: g) with
          | Some new =>
              if Nat.ltb (length rest) (length s)
              then match sub_go fuel' ignorecase r repl rest with
                   | Some out => Some (new ++ out)
                   | None => None
                   end
              else match s with
                   | [] => Some new
                   | c :: s' =>
                       match sub_go fuel' ignorecase r repl s' with
                       | Some out => Some (new ++ c :: out)
                       | None => None
                       end
                   end
          | None => None
          end
      | None =>
          match s with
          | [] => Some []
          | c :: s' =>
              match sub_go fuel' ignorecase r repl s' with
              | Some out => Some (c :: out)
              | None => None
              end
          end
      end
  end.

(** [re.sub(r, f, s)] for a function [f] of the match *)
Definition sub_with (ignorecase : bool) (r : regex)
    (repl : groups -> option (list ascii)) (s : string) : option string :=
  let l := list_ascii_of_string s in
  match sub_go (S (length l)) ignorecase r repl l with
  | Some out => Some (string_of_list_ascii out)
  | None => None
  end.

(** [re.sub(r, template, s)] for a pattern [r] of [ngroups] groups; the
    template is parsed before the text is looked at. *)
Definition sub (ignorecase : bool) (r : regex) (ngroups : nat)
    (template s : string) : option string :=
  match parse_template ngroups (list_ascii_of_string template) with
  | Some ps => sub_with ignorecase r (fun g => Some (expand ps g)) s
  | None => None
  end.

(** *** Building patterns *)

(** [re.escape(s)] inside a pattern, and any text of a pattern without
    special characters: the characters of [s] in sequence. *)
Fixpoint lit (s : string) : regex :=
  match s with
  | EmptyString => Eps
  | String c t => Seq (Chr c) (lit t)
  end.

Definition plus (a : regex) : regex := Seq a (Star a).
Definition space : regex := Cls PyStr.isspace.
Definition any : regex := Cls (fun _ => true).
Definition none_of (c : ascii) : regex := Cls (fun d => negb (Ascii.eqb c d)).

Fixpoint seq (l : list regex) : regex :=
  match l with
  | [] => Eps
  | [r] => r
  | r :: l' => Seq r (seq l')
  end.

End Re.

(** ** The Generator: [generate_i18n_all.py] *)

Module Generate.
Import PyStr.
Local Open Scope string_scope.

(** A metadata table [i18n/<lang>.json], as [json.load] returns it: the
    sections and their entries. *)
Abbreviation json := (gmap string (gmap string string)).

(** [t[section][key]], [None] for [KeyError] *)
Definition entry (t : json) (section key : string) : option string :=
  match t !! section with
  | Some sec => sec !! key
  | None => None
  end.

(** The files of a run: the pages as text under their paths, the text of
    [i18n/translations.csv] and the metadata tables by language, each
    when the file exists. *)
Record site := {
  documents : gmap string string;
  translations_csv : option string;
  metadata : gmap string json
}.

(** A value of a row of the Store as the Generator holds it: a [str], or
    Python's [None] for a column that the row is too short to reach. *)
Abbreviation cell := (option string).

(** The dicts [translations['en']] and [translations['es']], from cell to
    cell, in insertion order. *)
Abbreviation table := (list (cell * cell)).

(** [d.get(k)]: [None] for a key that is absent, as for one whose value
    is [None]. *)
Fixpoint table_get (k : cell) (d : table) : cell :=
  match d with
  | [] => None
  | (k', v) :: d' => if bool_decide (k = k') then v else table_get k d'
  end.

(** [d[k] = v] *)
Fixpoint table_set (k v : cell) (d : table) : table :=
  match d with
  | [] => [(k, v)]
  | (k', v') :: d' =>
      if bool_decide (k = k') then (k, v) :: d' else (k', v') :: table_set k v d'
  end.

(** A cell in a formatted string: [None] prints as its name. *)
Definition format (v : cell) : string := default "None" v.

(** The loop of [load_translations_csv] over the rows; [None] is the
    [KeyError] of a Store whose header lacks a column. *)
Definition load_row (translations : option (table * table))
    (row : Csv.dict_row) : option (table * table) :=
  match translations with
  | None => None
  | Some (tr_en, tr_es) =>
      let status := default (Some "active") (row !! "status") in
      if bool_decide (status = Some "deleted") then Some (tr_en, tr_es)
      else
        match row !! "id", row !! "en", row !! "es" with
        | Some element_id, Some en, Some es =>
            Some (table_set element_id en tr_en, table_set element_id es tr_es)
        | _, _, _ => None
        end
  end.

(** [load_translations_csv]: [{'en': {...}, 'es': {...}}]; [None] when
    it raises, first of all when the file does not exist. *)
Definition load_translations_csv (fs : site) : option (PyDict.t table) :=
  match translations_csv fs with
  | None => None
  | Some file =>
      match Csv.DictReader_restval file with
      | Some rows =>
          match fold_left load_row rows (Some ([], [])) with
          | Some (tr_en, tr_es) => Some [("en", tr_en); ("es", tr_es)]
          | None => None
          end
      | None => None
      end
  end.

(** [load_translations]: [None] when the file does not exist. *)
Definition load_translations (fs : site) (lang : string) : option json :=
  metadata fs !! lang.

(** U+2014, in UTF-8; it is only ever copied to the output. *)
Definition em_dash : string :=
  String (ascii_of_nat 226) (String (ascii_of_nat 128)
    (String (ascii_of_nat 148) EmptyString)).

(** [title_map.get(page_name, t['site']['title'])]; the whole table is
    built before the lookup. *)
Definition page_title (t : json) (page_name : string) : option string :=
  match entry t "site" "title", entry t "about" "title",
        entry t "contact" "title", entry t "portfolio" "title",
        entry t "meta" "project_title" with
  | Some site, Some about, Some contact, Some portfolio, Some project =>
      Some (if String.eqb page_name "index" then site
            else if String.eqb page_name "about" then about
            else if String.eqb page_name "contact" then contact
            else if String.eqb page_name "portfolio" then portfolio
            else if String.eqb page_name "project"
                 then (site ++ " " ++ em_dash ++ " " ++ project)%string
            else site)
  | _, _, _, _, _ => None
  end.

(** [desc_map.get(page_name, t['meta']['description'])] *)
Definition page_description (t : json) (page_name : string) : option string :=
  match entry t "meta" "description", entry t "meta" "about_description",
        entry t "meta" "contact_description",
        entry t "meta" "portfolio_description" with
  | Some description, Some about, Some contact, Some portfolio =>
      Some (if String.eqb page_name "index" then description
            else if String.eqb page_name "about" then about
            else if String.eqb page_name "contact" then contact
            else if String.eqb page_name "portfolio" then portfolio
            else description)
  | _, _, _, _ => None
  end.

Definition translate_html_attributes (html lang : string) (t : json)
    (page_name : string) : option string :=
  html ← Re.sub false (Re.lit (q "<html lang='en'>")) 0
           (q "<html lang='" ++ lang ++ q "'>") html;
  title ← page_title t page_name;
  html ← Re.sub false
           (Re.seq [Re.lit "<title>"; Re.Lazy Re.any; Re.lit "</title>"]) 0
           ("<title>" ++ title ++ "</title>") html;
  description ← page_description t page_name;
  Re.sub false
    (Re.seq [Re.lit "<meta"; Re.plus Re.space; Re.lit (q "name='description'");
             Re.plus Re.space; Re.lit (q "content='");
             Re.Star (Re.none_of (ascii_of_nat 34)); Re.lit (q "'")]) 0
    (q "<meta name='description' content='" ++ description ++ q "'") html.

Definition link_alternate : Re.regex :=
  Re.seq [Re.lit (q "<link rel='alternate'"); Re.Star (Re.none_of ">");
          Re.Chr ">"].

Definition add_hreflang_tags (html page_name : string) (is_default : bool)
    : option string :=
  let en_href := page_name ++ ".html" in
  let es_href := "es/" ++ page_name ++ ".html" in
  let hreflang_tags := q (
    nl ++ "    <!-- Alternate language versions for SEO -->" ++ nl
    ++ "    <link rel='alternate' hreflang='en' href='" ++ en_href ++ "' />" ++ nl
    ++ "    <link rel='alternate' hreflang='es' href='" ++ es_href ++ "' />" ++ nl
    ++ "    <link rel='alternate' hreflang='x-default' href='" ++ en_href ++ "' />"
    ++ nl) in
  html ← Re.sub false
           (Re.seq [Re.lit "<!--"; Re.Star Re.space;
                    Re.lit "Alternate language versions"; Re.Lazy Re.any;
                    Re.lit "-->"; Re.Star Re.space; link_alternate;
                    Re.Star Re.space; link_alternate;
                    Re.Star Re.space; link_alternate]) 0
           "" html;
  Re.sub false
    (Re.Grp 1 (Re.seq [Re.lit "<meta"; Re.plus Re.space;
                       Re.lit (q "name='viewport'");
                       Re.Star (Re.none_of ">"); Re.Chr ">"])) 1
    (String Re.backslash "1" ++ hreflang_tags) html.

Definition not_quote : Re.regex := Re.none_of (ascii_of_nat 34).

Definition update_asset_paths (html : string) (is_default : bool)
    : option string :=
  if is_default then Some html
  else
    html ← Re.sub false
             (Re.seq [Re.lit (q "href='");
                      Re.Grp 1 (Re.Alt
                        (Re.Seq (Re.lit "style.css") (Re.Star not_quote))
                        (Re.Seq (Re.lit "css/") (Re.Star not_quote)));
                      Re.lit (q "'")]) 1
             (q "href='../" ++ String Re.backslash "1" ++ q "'") html;
    html ← Re.sub false
             (Re.seq [Re.lit (q "src='");
                      Re.Grp 1 (Re.Alt
                        (Re.Seq (Re.lit "js/") (Re.plus not_quote))
                        (Re.Seq (Re.lit "app.js") (Re.Star not_quote)));
                      Re.lit (q "'")]) 1
             (q "src='../" ++ String Re.backslash "1" ++ q "'") html;
    html ← Re.sub false
             (Re.seq [Re.Grp 1 (Re.Alt (Re.lit "href") (Re.lit "src"));
                      Re.lit (q "='");
                      Re.Grp 2 (Re.Seq (Re.lit "media/") (Re.plus not_quote));
                      Re.lit (q "'")]) 2
             (String Re.backslash "1" ++ q "='../" ++ String Re.backslash "2"
              ++ q "'") html;
    Re.sub false
      (Re.seq [Re.lit (q "src='");
               Re.Grp 1 (Re.Seq (Re.lit "data/") (Re.plus not_quote));
               Re.lit (q "'")]) 1
      (q "src='../" ++ String Re.backslash "1" ++ q "'") html.

(** The function given to [re.sub] for a component tag: [None] when the
    inner [re.sub] raises. *)
Definition set_lang (lang : string) (g : Re.groups) : option (list ascii) :=
  let g1 := string_of_list_ascii (Re.group 1 g) in
  if negb (substring_in "lang=" g1)
  then Some (list_ascii_of_string (g1 ++ q " lang='" ++ lang ++ q "'"))
  else
    match Re.sub false
            (Re.seq [Re.lit (q "lang='"); Re.Star not_quote; Re.lit (q "'")]) 0
            (q "lang='" ++ lang ++ q "'") g1 with
    | Some out => Some (list_ascii_of_string out)
    | None => None
    end.

(** The pattern of a component tag: the opening of the tag and what
    follows up to the first [>], as group 1. *)
Definition component_pattern (name : string) : Re.regex :=
  Re.Grp 1 (Re.Seq (Re.lit name) (Re.Star (Re.none_of ">"))).

Definition update_component_lang_attributes (html lang page_name : string)
    : option string :=
  html ← Re.sub_with false (component_pattern "<site-header") (set_lang lang) html;
  Re.sub_with false (component_pattern "<site-footer") (set_lang lang) html.

(** The pattern of strategy 1: the attribute [id] with the escaped
    identifier as its value, group 1 for what follows up to the first
    [>], that [>], whitespace, the escaped text, whitespace, and [<]. *)
Definition id_pattern (element_id en_text : string) : Re.regex :=
  Re.seq [Re.lit (q "id='"); Re.lit element_id; Re.lit (q "'");
          Re.Grp 1 (Re.Star (Re.none_of ">")); Re.Chr ">";
          Re.Star Re.space; Re.lit en_text; Re.Star Re.space; Re.Chr "<"].

(** The patterns of strategy 2: the escaped text with whitespace around
    it, between [>] (group 1) and [<] (group 2); and the same as the
    quoted value of [placeholder], [title] or [aria-label] (group 1),
    without regard to case. *)
Definition text_pattern (en_text : string) : Re.regex :=
  Re.seq [Re.Grp 1 (Re.Chr ">"); Re.Star Re.space; Re.lit en_text;
          Re.Star Re.space; Re.Grp 2 (Re.Chr "<")].

Definition attr_pattern (en_text : string) : Re.regex :=
  Re.seq [Re.Grp 1 (Re.Alt (Re.lit "placeholder")
                      (Re.Alt (Re.lit "title") (Re.lit "aria-label")));
          Re.lit (q "='"); Re.Star Re.space; Re.lit en_text;
          Re.Star Re.space; Re.lit (q "'")].

(** The two strategies of [translate_content] for an entry that is not
    passed over, the target text as the formatted strings hold it. *)
Definition substitute (en_text html element_id target_text : string)
    : option string :=
  if Re.search false (id_pattern element_id en_text) (list_ascii_of_string html)
  then Re.sub false (id_pattern element_id en_text) 1
         (q "id='" ++ element_id ++ q "'" ++ String Re.backslash "1" ++ ">"
          ++ target_text ++ "<") html
  else
    html ← Re.sub false (text_pattern en_text) 2
             (String Re.backslash "1" ++ target_text
              ++ String Re.backslash "2") html;
    Re.sub true (attr_pattern en_text) 1
      (String Re.backslash "1" ++ q "='" ++ target_text ++ q "'") html.

(** The body of the loop of [translate_content] for one entry of
    [translations], with [en_text = csv_translations['en'].get(element_id)].
    For an identifier that is [None], [re.escape] raises [TypeError]. *)
Definition translate_entry (en_text : cell) (html : string)
    (element_id target_text : cell) : option string :=
  match en_text with
  | None => Some html
  | Some en_text =>
      if negb (truthy en_text) || bool_decide (Some en_text = target_text)
      then Some html
      else
        match element_id with
        | Some element_id => substitute en_text html element_id (format target_text)
        | None => None
        end
  end.

(** [translate_content] *)
Definition translate_content (html lang : string)
    (csv_translations : PyDict.t table) : option string :=
  if String.eqb lang "en" then Some html
  else
    let translations := default [] (PyDict.get lang csv_translations) in
    fold_left
      (fun (html : option string) (item : cell * cell) =>
         html ← html;
         tr_en ← PyDict.get "en" csv_translations;
         translate_entry (table_get (fst item) tr_en) html (fst item) (snd item))
      translations (Some html).

(** What [generate_page] does with the text of the source file. *)
Definition transform (html page_name lang : string) (translations : json)
    (csv_translations : PyDict.t table) (is_default : bool)
    : option string :=
  html ← translate_html_attributes html lang translations page_name;
  html ← add_hreflang_tags html page_name is_default;
  html ← update_asset_paths html is_default;
  html ← update_component_lang_attributes html lang page_name;
  translate_content html lang csv_translations.

(** The progress of a run: the files, and the paths written so far. *)
Record progress := {
  files : site;
  written : list string
}.

(** How a run, or a part of it, ends. *)
Inductive outcome :=
| Returned (p : progress)
| Raised (p : progress).

Definition write_file (path text : string) (p : progress) : progress :=
  {| files := {| documents := <[path := text]> (documents (files p));
                 translations_csv := translations_csv (files p);
                 metadata := metadata (files p) |};
     written := (written p ++ [path])%list |}.

(** The body of the loop over the pages in [main]: [generate_page], which
    passes over a page without source file, and the writing of its
    result. *)
Definition generate_one (lang : string) (translations : json)
    (csv_translations : PyDict.t table) (is_default : bool)
    (o : outcome) (page_name : string) : outcome :=
  match o with
  | Raised p => Raised p
  | Returned p =>
      match documents (files p) !! (page_name ++ ".html") with
      | None => Returned p
      | Some html =>
          match transform html page_name lang translations csv_translations
                  is_default with
          | None => Raised p
          | Some html =>
              let output_file :=
                if is_default then page_name ++ ".html"
                else lang ++ "/" ++ page_name ++ ".html" in
              Returned (write_file output_file html p)
          end
      end
  end.

Definition pages : list string :=
  ["index"; "about"; "contact"; "portfolio"; "project"].

Definition languages : list string := ["en"; "es"].
Definition default_lang : string := "en".

(** The body of the loop over the languages in [main]. *)
Definition generate_lang (csv_translations : PyDict.t table)
    (o : outcome) (lang : string) : outcome :=
  match o with
  | Raised p => Raised p
  | Returned p =>
      match load_translations (files p) lang with
      | None => Raised p
      | Some translations =>
          let is_default := String.eqb lang default_lang in
          fold_left (generate_one lang translations csv_translations is_default)
            pages (Returned p)
      end
  end.

(** [main], without what it prints and the creation of the directory of
    the language. *)
Definition main (fs : site) : outcome :=
  let p := {| files := fs; written := [] |} in
  match load_translations_csv fs with
  | None => Raised p
  | Some csv_translations =>
      fold_left (generate_lang csv_translations) languages (Returned p)
  end.

End Generate.

(** ** Vocabulary of the statements *)

(** The identifier an event declares: the [id] attribute of a start tag or
    of a self-closing tag. *)
Definition declared_id (e : event) : option string :=
  match e with
  | StartTag _ attrs | StartEndTag _ attrs => PyDict.get "id" (PyDict.of_pairs attrs)
  | _ => None
  end.

(** An event inside the capture window of the element [tag] of the
    identifier [i]: not a start tag with an identifier, which opens a
    window of its own, not a self-closing tag of [i], which overwrites what
    is recorded for [i], and not the end tag the window waits for. *)
Definition inside (i tag : string) (e : event) : Prop :=
  match e with
  | StartTag _ attrs => PyDict.get "id" (PyDict.of_pairs attrs) = None
  | EndTag t => t ≠ tag
  | Data _ => True
  | StartEndTag _ attrs => PyDict.get "id" (PyDict.of_pairs attrs) ≠ Some i
  end.

(** The text chunks of a run of events, in order. *)
Fixpoint data_of (w : list event) : list string :=
  match w with
  | [] => []
  | Data d :: w' => d :: data_of w'
  | _ :: w' => data_of w'
  end.

(** A row is well formed when it is active and its English text is not
    empty, also after stripping. *)
Definition well_formed (r : Row.t) : Prop :=
  Row.status r = "active" ∧ Row.en r ≠ "" ∧ PyStr.strip (Row.en r) ≠ "".

(** A row comes from the scan when some page holds its identifier with a
    content from which its English text is read, and its Spanish text is
    the one the existing row holds, when it holds one, and else the
    scanned one. *)
Definition from_scan (page_ids : PyDict.t (PyDict.t (PyDict.t content)))
    (existing_data : gmap string csv_row) (r : Row.t) : Prop :=
  ∃ page ids content_data,
    (page, ids) ∈ page_ids ∧ (Row.id r, content_data) ∈ ids
    ∧ Row.en r = scanned content_data "en"
    ∧ (∀ row, existing_data !! Row.id r = Some row → row_get row "es" ≠ "" →
         Row.es r = row_get row "es")
    ∧ ((∀ row, existing_data !! Row.id r = Some row → row_get row "es" = "") →
         Row.es r = scanned content_data "es").

(** What holds of the state of the loops of [create_updated_csv]. *)
Definition merge_inv (page_ids : PyDict.t (PyDict.t (PyDict.t content)))
    (existing_data : gmap string csv_row) (st : merge_state) : Prop :=
  (∀ r, r ∈ rows st → Row.id r ∈ processed_ids st)
  ∧ NoDup (Row.id <$> rows st)
  ∧ Forall (λ r, well_formed r ∧ from_scan page_ids existing_data r) (rows st).

(** What holds of the state of the loop of [write_csv] once the rows [l]
    have been seen. *)
Definition dedup_inv (l : list Row.t) (st : dedup_state) : Prop :=
  (∀ r, r ∈ deduplicated_rows st → r ∈ l)
  ∧ NoDup (Row.id <$> deduplicated_rows st)
  ∧ (∀ t r, seen_text st !! t = Some r →
       r ∈ deduplicated_rows st ∧ Row.en r = t
       ∧ ∀ r', r' ∈ l → Row.en r' = t →
           (id_score (Row.id r') ≤ id_score (Row.id r))%Z)
  ∧ (∀ r, r ∈ deduplicated_rows st → seen_text st !! Row.en r = Some r)
  ∧ (∀ r, r ∈ l → is_Some (seen_text st !! Row.en r)).

(** The progress an outcome carries. *)
Definition progress_of (o : Generate.outcome) : Generate.progress :=
  match o with
  | Generate.Returned p | Generate.Raised p => p
  end.

(** The path of a default-language document. *)
Definition default_document (path : string) : Prop :=
  ∃ page_name, page_name ∈ Generate.pages ∧ path = (page_name ++ ".html")%string.

(** The step of a character class in a repetition. *)
Definition cls_step {A : Type} (p : ascii → bool) (s : list ascii)
    (g : Re.groups) (k : list ascii → Re.groups → option A) : option A :=
  match s with
  | d :: s' => if p d then k s' g else None
  | [] => None
  end.

(** The example of the specification: the heading [hero-title], its texts,
    the pattern of strategy 1 for it and the replacement, as lists of
    characters; [hero_source] is the element in the template and
    [hero_target] the element expected in the generated page. *)
Definition chr_gt : ascii := ">".
Definition chr_lt : ascii := "<".
Definition hero_attr : list ascii := list_ascii_of_string (PyStr.q "id='hero-title'").
Definition hero_en : list ascii := list_ascii_of_string "Capture the Moment".
Definition hero_es : list ascii := list_ascii_of_string "Captura el Momento".
Definition hero_open : list ascii := list_ascii_of_string "h1 ".
Definition hero_close : list ascii := list_ascii_of_string "/h1>".
Definition hero_pattern : Re.regex :=
  Generate.id_pattern "hero-title" "Capture the Moment".
Definition hero_repl (g : Re.groups) : option (list ascii) :=
  Some (hero_attr ++ Re.group 1 g ++ chr_gt :: hero_es ++ [chr_lt]).
Definition hero_source : list ascii :=
  chr_lt :: hero_open ++ hero_attr ++ chr_gt :: hero_en ++ chr_lt :: hero_close.
Definition hero_target : list ascii :=
  chr_lt :: hero_open ++ hero_attr ++ chr_gt :: hero_es ++ chr_lt :: hero_close.
Definition hero_row : Generate.cell * Generate.cell :=
  (Some "hero-title", Some "Captura el Momento").

(** The document that [translate_content] makes of [html] with the rows
    [rows] of the language [lang], the source texts looked up in [tr_en]. *)
Definition after_rows (html lang : string) (tr_en rows : Generate.table)
    : option string :=
  Generate.translate_content html lang [("en", tr_en); (lang, rows)].

(** A row that [translate_content] passes over: its identifier has no
    source text, or an empty one, or one equal to the target text. *)
Definition passed_over (tr_en : Generate.table)
    (item : Generate.cell * Generate.cell) : Prop :=
  Generate.table_get (fst item) tr_en = None
  ∨ Generate.table_get (fst item) tr_en = Some ""
  ∨ Generate.table_get (fst item) tr_en = snd item.

(** The identifiers of a page whose scanned content holds an English text
    all satisfy [K]. *)
Definition english_ids (K : string → Prop) (ids : PyDict.t (PyDict.t content)) : Prop :=
  ∀ i content_data, (i, content_data) ∈ ids →
    is_Some (PyDict.get "en" content_data) → K i.

(** An identifier that some event of a document declares. *)
Definition declared_in (doc : list event) (i : string) : Prop :=
  Exists (λ e, declared_id e = Some i) doc.

(** What holds of the result of [scan_html_files]: the pages are those of
    [pages], and an identifier with an English content is declared in the
    English file of its page. *)
Definition scan_inv (fs : site) (st : scan_state) : Prop :=
  ∀ page ids, (page, ids) ∈ page_ids st →
    page ∈ pages
    ∧ english_ids
        (λ i, ∃ doc, html_files fs !! (page ++ ".html")%string = Some doc
                     ∧ declared_in doc i) ids.

(** The metadata tables of a site in English. *)
Definition sample_metadata : Generate.json :=
  {[ "site" := {[ "title" := "Lenko Studio" ]};
     "about" := {[ "title" := "About" ]};
     "contact" := {[ "title" := "Contact" ]};
     "portfolio" := {[ "title" := "Portfolio" ]};
     "meta" := {[ "project_title" := "Project"; "description" := "Photography";
                  "about_description" := "Who we are";
                  "contact_description" := "Write to us";
                  "portfolio_description" := "Our work" ]} ]}.

(** *** The Store read back *)

(** A row as [csv.DictReader] yields it from a file that holds its values
    under the header of [fieldnames]. *)
Definition row_dict (r : Row.t) : csv_row :=
  Csv.zip_dict fieldnames (Row.values r) ∅.

(** The same row with its values as cells, as the Generator reads it. *)
Definition row_cells (r : Row.t) : Csv.dict_row :=
  Csv.zip_restval fieldnames (Row.values r) ∅.

(** The body of the loop of [load_existing_csv], by name. *)
Definition index_step (existing : gmap string csv_row) (row : csv_row)
    : gmap string csv_row :=
  let element_id := row_get row "id" in
  if PyStr.truthy element_id then <[element_id := row]> existing else existing.

(** Rows of one identifier and one source text. *)
Definition same_key (r r' : Row.t) : Prop :=
  Row.id r = Row.id r' ∧ Row.en r = Row.en r'.

(** Rows built for one scanned identifier over two prior Stores. *)
Definition same_candidate (tag_info : PyDict.t (PyDict.t string))
    (E E' : gmap string csv_row) (r r' : Row.t) : Prop :=
  ∃ page element_id en_content es_content,
    r = candidate_row tag_info E page element_id en_content es_content
    ∧ r' = candidate_row tag_info E' page element_id en_content es_content.

(** The loops of [create_updated_csv] over two prior Stores, side by side. *)
Definition merge_rel (tag_info : PyDict.t (PyDict.t string))
    (E E' : gmap string csv_row) (st st' : merge_state) : Prop :=
  processed_ids st = processed_ids st'
  ∧ Forall2 (same_candidate tag_info E E') (rows st) (rows st').

(** The loop of [write_csv] over two lists of rows, side by side. *)
Definition dedup_rel (st st' : dedup_state) : Prop :=
  Forall2 same_key (deduplicated_rows st) (deduplicated_rows st')
  ∧ ∀ t, option_Forall2 same_key (seen_text st !! t) (seen_text st' !! t).

(** [csv.field_size_limit()], as the module sets it; the reader of this
    embedding is the reader of [csv] for fields within it. *)
Definition field_size_limit : N := 131072.

(** A text without carriage return. *)
Definition cr_free (s : string) : Prop := PyStr.contains Csv.cr s = false.

(** A value that comes back from the Store file as it went in: it holds
    no carriage return, which the text layer would rewrite on reading, and
    it is within what the reader takes, that is no longer than the limit and
    free of NUL, which older readers refuse. *)
Definition storable (value : string) : Prop :=
  cr_free value
  ∧ PyStr.contains (ascii_of_nat 0) value = false
  ∧ (N.of_nat (String.length value) ≤ field_size_limit)%N.

Definition storable_row (r : Row.t) : Prop := Forall storable (Row.values r).

(** A text that the reader takes as one field: without carriage return
    and no longer than the limit. *)
Definition readable (value : string) : Prop :=
  cr_free value ∧ (N.of_nat (String.length value) ≤ Csv.field_limit)%N.

(** A record as the text layer hands it to the reader: the written
    fields, and a line feed for the line terminator. *)
Definition nl_record (fields : list string) : string :=
  PyStr.join (String Csv.comma EmptyString) (map Csv.write_field fields) ++ PyStr.nl.

(** The records read from the text [s] when the reader was in [self0] at
    the start of the line being read and [cur] holds the characters of that
    line before [s], reversed. *)
Definition resume (self0 : Csv.reader) (cur : list ascii) (s : string)
    : option (list (list string)) :=
  Csv.records_go self0 (Csv.lines_go cur s).

(** The reader is in [self] after the characters [cur] of a line that it
    started in [self0]. *)
Definition at_line (self0 : Csv.reader) (cur : list ascii) (self : Csv.reader) : Prop :=
  ∀ rest, Csv.process_line self0 (rev cur ++ rest) = Csv.process_line self rest.

(** Reading [text] takes the reader from [self] to [self'] and yields no
    record. *)
Definition reads (self : Csv.reader) (text : string) (self' : Csv.reader) : Prop :=
  ∀ self0 cur, at_line self0 cur self →
    ∃ self0' cur', at_line self0' cur' self'
      ∧ ∀ s, resume self0 cur (text ++ s)%string = resume self0' cur' s.

(** One more record in front of those that follow. *)
Definition yield (fields : list string) (recs : option (list (list string)))
    : option (list (list string)) :=
  match recs with Some recs => Some (fields :: recs) | None => None end.

(** The states in which a field starts. *)
Definition starting (st : Csv.parser_state) : Prop :=
  st = Csv.START_RECORD ∨ st = Csv.START_FIELD.

(** The reader once the written text of the field [f] has been read. *)
Definition after_field (st : Csv.parser_state) (f : string) (fs : list string)
    : Csv.reader :=
  if Csv.needs_quotes f then
    {| Csv.state := Csv.QUOTE_IN_QUOTED_FIELD;
       Csv.field := rev (list_ascii_of_string f); Csv.fields := fs |}
  else if bool_decide (f = "") then
    {| Csv.state := st; Csv.field := []; Csv.fields := fs |}
  else
    {| Csv.state := Csv.IN_FIELD;
       Csv.field := rev (list_ascii_of_string f); Csv.fields := fs |}.

(** The rows that a run of [sync_translations.py] persists, when it
    returns. *)
Definition store_rows (fs : site) : option (list Row.t) :=
  match scan_html_files fs, load_existing_csv fs with
  | Some scan, Some existing_data =>
      Some (reconcile (page_ids scan) (tag_info scan) existing_data)
  | _, _ => None
  end.

(** *** Which page decides a row *)

(** The first page, in the order of the scan, that lists the identifier
    [i], with the content found there. *)
Fixpoint first_listing (page_ids : PyDict.t (PyDict.t (PyDict.t content)))
    (i : string) : option (string * PyDict.t content) :=
  match page_ids with
  | [] => None
  | (page, ids) :: rest =>
      match PyDict.get i ids with
      | Some content_data => Some (page, content_data)
      | None => first_listing rest i
      end
  end.

(** The test of [create_updated_csv] on the English content: the content
    is kept when it is not empty, also after stripping. *)
Definition has_text (content_data : PyDict.t content) : bool :=
  PyStr.truthy (scanned content_data "en")
  && PyStr.truthy (PyStr.strip (scanned content_data "en")).

(** The row of the identifier [i] built on [page] from [content_data]. *)
Definition row_of (tag_info : PyDict.t (PyDict.t string))
    (existing_data : gmap string csv_row) (page i : string)
    (content_data : PyDict.t content) : Row.t :=
  candidate_row tag_info existing_data page i
    (scanned content_data "en") (scanned content_data "es").

(** *** The scan of the pages *)

(** The identifiers that the events of a document declare, in order. *)
Definition declared_ids (doc : list event) : list string := omap declared_id doc.

(** What holds of the parser after the events [seen] of a document whose
    identifiers are distinct: the identifiers recorded are those declared,
    in order, and while a capture is open its identifier is one of them and
    holds the list of its chunks. *)
Definition capture_inv (seen : list event) (self : IDExtractor.t) : Prop :=
  PyDict.keys (IDExtractor.elements self) = declared_ids seen
  ∧ (IDExtractor.capture_content self = true →
       ∃ cid l, IDExtractor.current_id self = Some cid
                ∧ PyDict.get cid (IDExtractor.elements self) = Some (Chunks l)).

(** The Extractor recorded the content [c] for the identifier [i] in the
    document at [path]. *)
Definition recorded (fs : site) (path i : string) (c : content) : Prop :=
  ∃ doc elements,
    html_files fs !! path = Some doc
    ∧ extract_ids_from_html doc = Some elements ∧ (i, c) ∈ elements.

(** The content that the Extractor records for the identifier [i] in the
    file [path]; none when the file does not exist, when the Extractor
    raises on it, or when it holds no element of [i]. *)
Definition recorded_at (fs : site) (path i : string) : option content :=
  match html_files fs !! path with
  | Some doc =>
      match extract_ids_from_html doc with
      | Some elements => PyDict.get i elements
      | None => None
      end
  | None => None
  end.

(** That content as the text [create_updated_csv] makes of it, empty when
    there is none. *)
Definition page_text (fs : site) (path i : string) : string :=
  match recorded_at fs path i with
  | Some c => content_str c
  | None => ""
  end.

(** The contents of the identifiers of a page satisfy [Ken] for English and
    [Kes] for Spanish. *)
Definition content_inv (Ken Kes : string → content → Prop)
    (ids : PyDict.t (PyDict.t content)) : Prop :=
  ∀ i cd, (i, cd) ∈ ids →
    (∀ c, PyDict.get "en" cd = Some c → Ken i c)
    ∧ (∀ c, PyDict.get "es" cd = Some c → Kes i c).

(** What holds of the result of [scan_html_files]: the contents listed
    under a page were recorded in the two files of that page. *)
Definition scan_content_inv (fs : site) (st : scan_state) : Prop :=
  ∀ page ids, (page, ids) ∈ page_ids st →
    page ∈ pages
    ∧ content_inv (recorded fs (page ++ ".html")%string)
        (recorded fs ("es/" ++ page ++ ".html")%string) ids.

(** *** The Generator *)

(** A text without backslash, which a replacement template copies as it
    is. *)
Definition plain (s : string) : bool := negb (PyStr.contains Re.backslash s).

(** The text begins with a decimal digit. *)
Definition leading_digit (s : string) : bool :=
  match s with
  | String c _ => bool_decide (is_Some (Re.digit c))
  | EmptyString => false
  end.

(** The parts of a template that copies [s]. *)
Definition literal (s : list ascii) : list Re.part := Re.PLit <$> s.

(** An entry of the translations that the substitution can take: its
    identifier and its text are without backslash, and the text does not
    begin with a digit. *)
Definition substitutable (item : Generate.cell * Generate.cell) : Prop :=
  (∃ element_id, fst item = Some element_id ∧ plain element_id = true)
  ∧ plain (Generate.format (snd item)) = true
  ∧ leading_digit (Generate.format (snd item)) = false.

(** The text begins with two octal digits. *)
Definition octal_pair (s : string) : bool :=
  match s with
  | String a (String b _) =>
      bool_decide (is_Some (Re.octdigit a)) && bool_decide (is_Some (Re.octdigit b))
  | _ => false
  end.

(** The path that [main] writes for a page in a language. *)
Definition output_file (lang page_name : string) : string :=
  if String.eqb lang Generate.default_lang then page_name ++ ".html"
  else lang ++ "/" ++ page_name ++ ".html".

(** A path that a run may write: that of a page whose English file
    exists, in one of the languages. *)
Definition page_output (fs : Generate.site) (path : string) : Prop :=
  ∃ lang page_name,
    lang ∈ Generate.languages ∧ page_name ∈ Generate.pages
    ∧ is_Some (Generate.documents fs !! (page_name ++ ".html")%string)
    ∧ path = output_file lang page_name.

(** What holds of the progress of a run on the files [fs]: the Store and
    the metadata tables are as they were, what has been written are outputs
    of pages, every other document is as it was, and the pages that have an
    English file are the same. *)
Definition run_inv (fs : Generate.site) (p : Generate.progress) : Prop :=
  Generate.translations_csv (Generate.files p) = Generate.translations_csv fs
  ∧ Generate.metadata (Generate.files p) = Generate.metadata fs
  ∧ Forall (page_output fs) (Generate.written p)
  ∧ (∀ path, ¬ (path ∈ Generate.written p) →
       Generate.documents (Generate.files p) !! path = Generate.documents fs !! path)
  ∧ (∀ q, q ∈ Generate.pages →
       is_Some (Generate.documents (Generate.files p) !! (q ++ ".html")%string)
       ↔ is_Some (Generate.documents fs !! (q ++ ".html")%string)).

(** A metadata table with which every page can be generated: the title
    and the description of each page are there, and are without
    backslash. *)
Definition usable_metadata (t : Generate.json) : Prop :=
  ∀ page_name, page_name ∈ Generate.pages →
    ∃ title description,
      Generate.page_title t page_name = Some title ∧ plain title = true
      ∧ Generate.page_description t page_name = Some description
      ∧ plain description = true.

(** The pages that have an English file. *)
Definition sources (fs : Generate.site) : list string :=
  filter (λ page_name,
            is_Some (Generate.documents fs !! (page_name ++ ".html")%string))
    Generate.pages.

(** The two maps that [load_translations_csv] builds from rows with
    distinct identifiers: the source text and the translation of each row
    under its identifier, in the order of the rows. *)
Definition translations_of (rows : list Row.t) : PyDict.t Generate.table :=
  [("en", (λ r, (Some (Row.id r), Some (Row.en r))) <$> rows);
   ("es", (λ r, (Some (Row.id r), Some (Row.es r))) <$> rows)].

(** * Properties *)

(** ** Facts on dicts and strings *)

Section PyDict_facts.
Context {V : Type}.
Implicit Types (d : PyDict.t V) (k : string) (v : V).

Lemma get_set_eq k v d : PyDict.get k (PyDict.set k v d) = Some v.
Proof.
  induction d as [|[k' v'] d IH]; simpl.
  - by rewrite String.eqb_refl.
  - destruct (String.eqb_spec k k') as [->|Hne]; simpl.
    + by rewrite String.eqb_refl.
    + destruct (String.eqb_spec k k'); [done|]. exact IH.
Qed.

Lemma get_set_ne k k' v d :
  k ≠ k' → PyDict.get k' (PyDict.set k v d) = PyDict.get k' d.
Proof.
  intros Hne. induction d as [|[k0 v0] d IH]; simpl.
  - destruct (String.eqb_spec k' k); [congruence|done].
  - destruct (String.eqb_spec k k0) as [->|Hk]; simpl.
    + destruct (String.eqb_spec k' k0); [congruence|done].
    + destruct (String.eqb_spec k' k0); [done|]. exact IH.
Qed.
End PyDict_facts.

Lemma append_cons (c : ascii) (s t : string) :
  (String c s ++ t)%string = String c (s ++ t)%string.
Proof. reflexivity. Qed.

Lemma append_nil_l (s : string) : ("" ++ s)%string = s.
Proof. reflexivity. Qed.

Lemma append_nil_r (s : string) : (s ++ "")%string = s.
Proof. induction s as [|c s IH]; [done|by rewrite append_cons, IH]. Qed.

Lemma append_assoc (a b c : string) :
  ((a ++ b) ++ c)%string = (a ++ (b ++ c))%string.
Proof.
  induction a as [|x a IH]; [done|]. by rewrite !append_cons, IH.
Qed.

Lemma join_empty_cons (x : string) (l : list string) :
  PyStr.join "" (x :: l) = (x ++ PyStr.join "" l)%string.
Proof.
  destruct l; [|done].
  change (PyStr.join "" [x]) with x. change (PyStr.join "" []) with "".
  by rewrite append_nil_r.
Qed.

Lemma join_empty_snoc (l : list string) (x : string) :
  PyStr.join "" (l ++ [x]) = (PyStr.join "" l ++ x)%string.
Proof.
  induction l as [|y l IH].
  - simpl. done.
  - change ((y :: l) ++ [x]) with (y :: (l ++ [x])).
    rewrite !join_empty_cons, IH, append_assoc. done.
Qed.

(** ** The Extractor *)

Section Extractor.
Import IDExtractor.

Lemma feed_app (self : IDExtractor.t) (a b : list event) :
  feed self (a ++ b) =
  match feed self a with Some self' => feed self' b | None => None end.
Proof.
  revert self. induction a as [|e a IH]; intros self; simpl; [done|].
  destruct (handle self e); [apply IH|done].
Qed.

(** Inside a capture window the parser goes on capturing for the same
    identifier, does not raise, and appends the text chunks. *)
Lemma feed_window (i tag : string) (w : list event) :
  i ≠ "" → Forall (inside i tag) w →
  ∀ (self : IDExtractor.t) (acc : list string),
    current_id self = Some i → current_tag self = Some tag →
    capture_content self = true →
    PyDict.get i (elements self) = Some (Chunks acc) →
    ∃ self', feed self w = Some self'
      ∧ current_id self' = Some i ∧ current_tag self' = Some tag
      ∧ capture_content self' = true
      ∧ PyDict.get i (elements self') = Some (Chunks (acc ++ data_of w)).
Proof.
  intros Hi Hw. induction Hw as [|e w He _ IH]; intros self acc Hid Htag Hcap Hget.
  - exists self. simpl. rewrite app_nil_r. done.
  - destruct e as [t a|t|d|t a]; simpl in *.
    + unfold handle_starttag. rewrite He. by apply IH.
    + unfold handle_endtag. rewrite Hcap, Htag. simpl.
      rewrite bool_decide_eq_false_2 by congruence. by apply IH.
    + unfold handle_data. rewrite Hid, Hcap. simpl.
      assert (PyStr.truthy i = true) as ->.
      { unfold PyStr.truthy. by destruct (String.eqb_spec i ""). }
      rewrite Hget.
      match goal with
      | |- ∃ _, feed ?s w = _ ∧ _ =>
          destruct (IH s (acc ++ [d])) as (self' & ? & ? & ? & ? & Hg);
            [done|done|done|apply get_set_eq|]
      end.
      exists self'. repeat split; try done.
      by rewrite Hg, <- app_assoc.
    + unfold handle_startendtag.
      destruct (PyDict.get "id" (PyDict.of_pairs a)) as [j|] eqn:Hj; [|by apply IH].
      apply IH; simpl; [done|done|done|]. rewrite get_set_ne; [done|congruence].
Qed.

(** An event that does not declare [i], met while [i] is not the
    identifier being captured, leaves the content recorded for [i] alone
    and does not make [i] the identifier being captured. *)
Lemma handle_other (i : string) (e : event) (self self' : IDExtractor.t) :
  declared_id e ≠ Some i → current_id self ≠ Some i →
  handle self e = Some self' →
  PyDict.get i (elements self') = PyDict.get i (elements self)
  ∧ current_id self' ≠ Some i.
Proof.
  intros He Hcur Hh. destruct e as [t a|t|d|t a]; simpl in *.
  - inversion Hh; subst self'. unfold handle_starttag.
    destruct (PyDict.get "id" (PyDict.of_pairs a)) as [j|]; [|done].
    simpl. split; [apply get_set_ne|]; congruence.
  - unfold handle_endtag in Hh.
    destruct (capture_content self && bool_decide (current_tag self = Some t)).
    + destruct (current_id self) as [c|]; [|done].
      destruct (PyDict.get c (elements self)); [|done].
      inversion Hh; subst self'. simpl. split; [apply get_set_ne; congruence|done].
    + inversion Hh; subst self'. done.
  - unfold handle_data in Hh.
    destruct (current_id self) as [c|] eqn:Hc.
    + destruct (capture_content self && PyStr.truthy c).
      * destruct (PyDict.get c (elements self)) as [[l|]|]; [|done|done].
        inversion Hh; subst self'. simpl.
        split; [apply get_set_ne; congruence|done].
      * inversion Hh; subst self'. by rewrite Hc.
    + inversion Hh; subst self'. by rewrite Hc.
  - inversion Hh; subst self'. unfold handle_startendtag.
    destruct (PyDict.get "id" (PyDict.of_pairs a)) as [j|]; [|done].
    simpl. split; [apply get_set_ne; congruence|done].
Qed.

Lemma feed_other (i : string) (post : list event) :
  Forall (λ e, declared_id e ≠ Some i) post →
  ∀ self self', current_id self ≠ Some i → feed self post = Some self' →
    PyDict.get i (elements self') = PyDict.get i (elements self).
Proof.
  intros Hpost. induction Hpost as [|e post He _ IH]; intros self self' Hcur Hfeed.
  - simpl in Hfeed. by inversion Hfeed.
  - simpl in Hfeed. destruct (handle self e) as [self1|] eqn:Hh; [|done].
    destruct (handle_other i e self self1 He Hcur Hh) as [Hget Hcur1].
    rewrite (IH self1 self' Hcur1 Hfeed). exact Hget.
Qed.

(** C9, as the code has it. Take an element that declares a non-empty
    identifier [i], a capture window [w] after its start tag that holds no
    start tag with an identifier and no self-closing tag of [i], and a rest
    of the document that does not declare [i] again. When the window ends
    with the end tag of the element, [i] is recorded with its captured text
    joined, every run of whitespace collapsed to one space, and trimmed.
    When the window ends with a start tag that bears another identifier,
    [i] is recorded with the list of its raw chunks. *)
Theorem extractor_normalizes_closed_capture
    (pre w post : list event) (tag i : string)
    (attrs : list (string * string)) :
  PyDict.get "id" (PyDict.of_pairs attrs) = Some i →
  i ≠ "" →
  Forall (inside i tag) w →
  Forall (λ e, declared_id e ≠ Some i) post →
  (∀ elements,
     extract_ids_from_html (pre ++ StartTag tag attrs :: w ++ EndTag tag :: post)
     = Some elements →
     PyDict.get i elements
     = Some (Text (PyStr.normalize_ws (PyStr.join "" (data_of w)))))
  ∧ (∀ tag' attrs' j elements,
       PyDict.get "id" (PyDict.of_pairs attrs') = Some j → j ≠ i →
       extract_ids_from_html
         (pre ++ StartTag tag attrs :: w ++ StartTag tag' attrs' :: post)
       = Some elements →
       PyDict.get i elements = Some (Chunks (data_of w))).
Proof.
  intros Hattr Hi Hw Hpost.
  assert (∀ (closing : event) (parser : IDExtractor.t),
            feed init (pre ++ StartTag tag attrs :: w ++ closing :: post) = Some parser →
            ∃ s1 s2, current_id s1 = Some i ∧ current_tag s1 = Some tag
                     ∧ capture_content s1 = true
                     ∧ PyDict.get i (elements s1) = Some (Chunks (data_of w))
                     ∧ handle s1 closing = Some s2
                     ∧ feed s2 post = Some parser) as Hsplit.
  { intros closing parser Hfeed. rewrite feed_app in Hfeed.
    destruct (feed init pre) as [s0|]; [|done].
    simpl in Hfeed. unfold handle_starttag in Hfeed. rewrite Hattr in Hfeed.
    rewrite feed_app in Hfeed.
    edestruct (feed_window i tag w Hi Hw) as (s1 & Hs1 & Hid & Htag & Hcap & Hget);
      [..|rewrite Hs1 in Hfeed]; simpl; try done.
    { apply get_set_eq. }
    simpl in Hfeed, Hget.
    destruct (handle s1 closing) as [s2|] eqn:Hclosing; [|done].
    by exists s1, s2. }
  unfold extract_ids_from_html. split.
  - intros els Hels.
    destruct (feed init _) as [parser|] eqn:Hfeed; [|done]. injection Hels as <-.
    destruct (Hsplit _ _ Hfeed) as (s1 & s2 & Hid & Htag & Hcap & Hget & Hh & Hpost').
    simpl in Hh. unfold handle_endtag in Hh.
    rewrite Hcap, Htag, Hid, Hget in Hh. simpl in Hh.
    rewrite bool_decide_eq_true_2 in Hh by done. injection Hh as <-.
    etrans; [eapply (feed_other i post Hpost); [|exact Hpost']; simpl; congruence|].
    apply get_set_eq.
  - intros tag' attrs' j els Hj Hne Hels.
    destruct (feed init _) as [parser|] eqn:Hfeed; [|done]. injection Hels as <-.
    destruct (Hsplit _ _ Hfeed) as (s1 & s2 & Hid & Htag & Hcap & Hget & Hh & Hpost').
    simpl in Hh. unfold handle_starttag in Hh. rewrite Hj in Hh. injection Hh as <-.
    etrans; [eapply (feed_other i post Hpost); [|exact Hpost']; simpl; congruence|].
    simpl. rewrite get_set_ne; [done|congruence].
Qed.

(** A page in which the element of [hero-title] holds an element without
    identifier and a self-closing tag with another identifier; and the same
    page with the capture interrupted by a paragraph with an identifier. *)
Lemma extractor_normalizes_closed_capture_witness :
  let pre := [StartTag "body" []] in
  let attrs := [("class", "big"); ("id", "hero-title")] in
  let w := [Data "  Capture "; StartTag "em" []; Data "the"; EndTag "em";
            StartEndTag "img" [("id", "logo")];
            Data (PyStr.nl ++ "  Moment ")%string] in
  let post := [StartTag "p" [("id", "other")]; Data "x"; EndTag "p"] in
  (∃ elements,
     extract_ids_from_html (pre ++ StartTag "h1" attrs :: w ++ EndTag "h1" :: post)
     = Some elements
     ∧ PyDict.get "hero-title" elements = Some (Text "Capture the Moment"))
  ∧ (∃ elements,
       extract_ids_from_html
         (pre ++ StartTag "h1" attrs :: w ++ StartTag "p" [("id", "lead")] :: post)
       = Some elements
       ∧ PyDict.get "hero-title" elements
         = Some (Chunks ["  Capture "; "the"; (PyStr.nl ++ "  Moment ")%string])).
Proof.
  intros pre attrs w post.
  destruct (extractor_normalizes_closed_capture pre w post "h1" "hero-title" attrs)
    as [Hclosed Hopen].
  - vm_compute; reflexivity.
  - discriminate.
  - repeat constructor; discriminate.
  - repeat constructor; discriminate.
  - split.
    + eexists. split; [vm_compute; reflexivity|].
      apply Hclosed. vm_compute; reflexivity.
    + eexists. split; [vm_compute; reflexivity|].
      apply (Hopen "p" [("id", "lead")] "lead"); [reflexivity|discriminate|].
      vm_compute; reflexivity.
Defined.

(** C9, as stated, fails on a capture that a later start tag with an
    identifier interrupts: in [<div id="a">  x  <span id="b">y</span></div>]
    the content recorded for [a] stays the list of the raw chunks. *)
Lemma extractor_interrupted_capture_stays_raw :
  let doc := [StartTag "div" [("id", "a")]; Data "  x  ";
              StartTag "span" [("id", "b")]; Data "y"; EndTag "span";
              EndTag "div"] in
  ∃ elements,
    extract_ids_from_html doc = Some elements
    ∧ PyDict.get "a" elements = Some (Chunks ["  x  "])
    ∧ PyDict.get "a" elements ≠ Some (Text (PyStr.normalize_ws "  x  ")).
Proof.
  eexists. split; [vm_compute; reflexivity|]. split; [reflexivity|discriminate].
Qed.

End Extractor.

(** ** Whitespace *)

Lemma truthy_spec (s : string) : PyStr.truthy s = true ↔ s ≠ "".
Proof.
  unfold PyStr.truthy. destruct (String.eqb_spec s ""); simpl; split; congruence.
Qed.

Lemma all_space_lstrip (s : string) :
  PyStr.all_space (PyStr.lstrip s) = PyStr.all_space s.
Proof.
  induction s as [|c s IH]; simpl; [done|].
  destruct (PyStr.isspace c) eqn:Hc; simpl; [done|by rewrite Hc].
Qed.

Lemma rstrip_empty (s : string) :
  PyStr.rstrip s = "" ↔ PyStr.all_space s = true.
Proof.
  destruct s as [|c s]; [done|].
  unfold PyStr.rstrip; fold PyStr.rstrip.
  destruct (PyStr.all_space (String c s)); split; congruence.
Qed.

Lemma strip_empty (s : string) :
  PyStr.strip s = "" ↔ PyStr.all_space s = true.
Proof. unfold PyStr.strip. by rewrite rstrip_empty, all_space_lstrip. Qed.

Lemma all_space_sub_ws_go (b : bool) (s : string) :
  PyStr.all_space (PyStr.sub_ws_go b s) = PyStr.all_space s.
Proof.
  revert b. induction s as [|c s IH]; intros b; simpl; [done|].
  destruct (PyStr.isspace c) eqn:Hc; simpl.
  - destruct b; simpl; apply IH.
  - by rewrite Hc.
Qed.

Lemma normalize_ws_empty (s : string) :
  PyStr.normalize_ws s = "" ↔ PyStr.all_space s = true.
Proof.
  unfold PyStr.normalize_ws, PyStr.sub_ws.
  by rewrite strip_empty, all_space_sub_ws_go.
Qed.

(** ** Loops *)

Lemma fold_left_inv {A B : Type} (f : A → B → A) (I : A → Prop) (l : list B) :
  (∀ a b, b ∈ l → I a → I (f a b)) → ∀ a, I a → I (fold_left f l a).
Proof.
  induction l as [|b l IH]; intros Hf a Ha; simpl; [done|].
  apply IH.
  - intros a' b' Hb'. apply Hf. by right.
  - apply Hf; [by left|done].
Qed.

Lemma NoDup_fmap_filter {A B : Type} (f : A → B) (P : A → Prop)
    `{∀ x, Decision (P x)} (l : list A) :
  NoDup (f <$> l) → NoDup (f <$> filter P l).
Proof.
  induction l as [|x l IH]; [done|].
  rewrite fmap_cons, NoDup_cons. intros [Hx Hl].
  rewrite filter_cons. destruct (decide (P x)); [|by apply IH].
  rewrite fmap_cons, NoDup_cons. split; [|by apply IH].
  intros (y & Hy & Hin%list_elem_of_filter)%list_elem_of_fmap.
  apply Hx, list_elem_of_fmap. exists y. tauto.
Qed.

Lemma NoDup_fmap_eq {A B : Type} (f : A → B) (l : list A) (x y : A) :
  NoDup (f <$> l) → x ∈ l → y ∈ l → f x = f y → x = y.
Proof.
  induction l as [|z l IH]; [by intros _ ?%elem_of_nil|].
  rewrite fmap_cons, NoDup_cons. intros [Hz Hl] Hx Hy Hf.
  apply elem_of_cons in Hx as [->|Hx]; apply elem_of_cons in Hy as [->|Hy].
  - done.
  - exfalso. apply Hz. rewrite Hf. by apply list_elem_of_fmap_2.
  - exfalso. apply Hz. rewrite <- Hf. by apply list_elem_of_fmap_2.
  - by apply IH.
Qed.

(** ** The Reconciler: [create_updated_csv] *)

Section Merge.
Context (page_ids : PyDict.t (PyDict.t (PyDict.t content))).
Context (tag_info : PyDict.t (PyDict.t string)).
Context (existing_data : gmap string csv_row).

Lemma merge_id_inv (page : string) (ids : PyDict.t (PyDict.t content))
    (st : merge_state) (item : string * PyDict.t content) :
  (page, ids) ∈ page_ids → item ∈ ids →
  merge_inv page_ids existing_data st →
  merge_inv page_ids existing_data (merge_id tag_info existing_data page st item).
Proof.
  intros Hpage Hitem (Hproc & Hnodup & Hrows).
  destruct item as [element_id content_data]. unfold merge_id.
  case_bool_decide as Hseen; [done|].
  destruct (negb (PyStr.truthy (scanned content_data "en"))
            || negb (PyStr.truthy (PyStr.strip (scanned content_data "en"))))
    eqn:Hempty.
  - split_and!; simpl; [|done|done].
    intros r Hr. apply elem_of_union_r. by apply Hproc.
  - apply orb_false_elim in Hempty as [Hen Hstrip].
    apply negb_false_iff, truthy_spec in Hen.
    apply negb_false_iff, truthy_spec in Hstrip.
    split_and!; simpl.
    + intros r [Hr| ->%list_elem_of_singleton]%elem_of_app.
      * apply elem_of_union_r. by apply Hproc.
      * simpl. apply elem_of_union_l. by apply elem_of_singleton.
    + rewrite fmap_app. apply NoDup_app. split_and!; [done| |apply NoDup_singleton].
      intros x (r & -> & Hr)%list_elem_of_fmap Hx%list_elem_of_singleton.
      simpl in Hx. apply Hseen. rewrite <- Hx. by apply Hproc.
    + apply Forall_app. split; [done|]. apply Forall_singleton. split.
      * done.
      * exists page, ids, content_data. simpl. split_and!; try done.
        -- intros row Hrow Hes. rewrite Hrow.
           by apply truthy_spec in Hes as ->.
        -- intros Hnone. destruct (existing_data !! element_id) as [row|] eqn:Hrow; [|done].
           rewrite (Hnone row eq_refl). done.
Qed.

Lemma merge_page_inv (st : merge_state)
    (item : string * PyDict.t (PyDict.t content)) :
  item ∈ page_ids →
  merge_inv page_ids existing_data st →
  merge_inv page_ids existing_data (merge_page tag_info existing_data st item).
Proof.
  intros Hitem Hst. destruct item as [page ids]. unfold merge_page. simpl.
  apply (fold_left_inv _ (merge_inv page_ids existing_data)); [|done].
  intros a b Hb Ha. by apply (merge_id_inv page ids).
Qed.

Lemma create_updated_csv_inv :
  NoDup (Row.id <$> create_updated_csv page_ids tag_info existing_data)
  ∧ Forall (λ r, well_formed r ∧ from_scan page_ids existing_data r)
      (create_updated_csv page_ids tag_info existing_data).
Proof.
  unfold create_updated_csv.
  assert (merge_inv page_ids existing_data
            (fold_left (merge_page tag_info existing_data) page_ids
               {| rows := []; processed_ids := ∅ |})) as (_ & ? & ?); [|done].
  apply (fold_left_inv _ (merge_inv page_ids existing_data)).
  - intros a b Hb Ha. by apply merge_page_inv.
  - split_and!; simpl; [by intros r ?%elem_of_nil|apply NoDup_nil_2|done].
Qed.

End Merge.

(** ** The Reconciler: the deduplication of [write_csv] *)

Lemma dedup_step_inv (l : list Row.t) (st : dedup_state) (row : Row.t) :
  NoDup (Row.id <$> l ++ [row]) →
  dedup_inv l st → dedup_inv (l ++ [row]) (dedup_step st row).
Proof.
  rewrite fmap_app, NoDup_app. intros (_ & Hfresh & _).
  intros (Hsub & Hnodup & Hseen & Hkept & Hall).
  assert (∀ r, r ∈ deduplicated_rows st → Row.id r ≠ Row.id row) as Hnew.
  { intros r Hr Heq. apply (Hfresh (Row.id r)).
    - apply list_elem_of_fmap_2. by apply Hsub.
    - rewrite Heq. apply list_elem_of_fmap_2. by apply list_elem_of_singleton. }
  unfold dedup_step.
  destruct (seen_text st !! Row.en row) as [old|] eqn:Hold.
  - destruct (Hseen _ _ Hold) as (Hold_in & Hold_en & Hold_max).
    case_bool_decide as Hbetter.
    + split_and!; simpl.
      * intros r [[_ Hr]%list_elem_of_filter| ->%list_elem_of_singleton]%elem_of_app;
          apply elem_of_app; [left; by apply Hsub|right; by apply list_elem_of_singleton].
      * rewrite fmap_app. apply NoDup_app.
        split_and!; [by apply NoDup_fmap_filter| |apply NoDup_singleton].
        intros x (r & -> & [_ Hr]%list_elem_of_filter)%list_elem_of_fmap
          Hx%list_elem_of_singleton.
        by apply (Hnew r).
      * intros t r Ht. destruct (decide (Row.en row = t)) as [<-|Hne].
        -- rewrite lookup_insert_eq in Ht. inversion Ht; subst r.
           split_and!; [apply elem_of_app; right; by apply list_elem_of_singleton|done|].
           intros r' [Hr'| ->%list_elem_of_singleton]%elem_of_app Hen; [|lia].
           specialize (Hold_max r' Hr' Hen). lia.
        -- rewrite lookup_insert_ne in Ht by done.
           destruct (Hseen _ _ Ht) as (Hr & Hen & Hmax).
           split_and!; [|done|].
           ++ apply elem_of_app; left. apply list_elem_of_filter. split; [|done].
              intros Hid. apply Hne. rewrite <- Hen, <- Hold_en.
              f_equal. symmetry. by apply (NoDup_fmap_eq Row.id (deduplicated_rows st)).
           ++ intros r' [Hr'| ->%list_elem_of_singleton]%elem_of_app Hen';
                [by apply Hmax|done].
      * intros r [[Hid Hr]%list_elem_of_filter| ->%list_elem_of_singleton]%elem_of_app.
        -- rewrite lookup_insert_ne; [by apply Hkept|].
           intros Heq. apply Hid. specialize (Hkept r Hr).
           rewrite <- Heq, Hold in Hkept. by inversion Hkept.
        -- apply lookup_insert_eq.
      * intros r [Hr| ->%list_elem_of_singleton]%elem_of_app.
        -- destruct (decide (Row.en row = Row.en r)) as [<-|Hne].
           ++ rewrite lookup_insert_eq. by eexists.
           ++ rewrite lookup_insert_ne by done. by apply Hall.
        -- rewrite lookup_insert_eq. by eexists.
    + split_and!.
      * intros r Hr. apply elem_of_app; left. by apply Hsub.
      * done.
      * intros t r Ht. destruct (Hseen _ _ Ht) as (Hr & Hen & Hmax).
        split_and!; [done|done|].
        intros r' [Hr'| ->%list_elem_of_singleton]%elem_of_app Hen'; [by apply Hmax|].
        rewrite <- Hen', Hold in Ht. inversion Ht; subst r. lia.
      * done.
      * intros r [Hr| ->%list_elem_of_singleton]%elem_of_app; [by apply Hall|].
        rewrite Hold. by eexists.
  - split_and!; simpl.
    + intros r [Hr| ->%list_elem_of_singleton]%elem_of_app;
        apply elem_of_app; [left; by apply Hsub|right; by apply list_elem_of_singleton].
    + rewrite fmap_app. apply NoDup_app. split_and!; [done| |apply NoDup_singleton].
      intros x (r & -> & Hr)%list_elem_of_fmap Hx%list_elem_of_singleton.
      by apply (Hnew r).
    + intros t r Ht. destruct (decide (Row.en row = t)) as [<-|Hne].
      * rewrite lookup_insert_eq in Ht. inversion Ht; subst r.
        split_and!; [apply elem_of_app; right; by apply list_elem_of_singleton|done|].
        intros r' [Hr'| ->%list_elem_of_singleton]%elem_of_app Hen; [|lia].
        destruct (Hall r' Hr') as [x Hx]. rewrite Hen, Hold in Hx. done.
      * rewrite lookup_insert_ne in Ht by done.
        destruct (Hseen _ _ Ht) as (Hr & Hen & Hmax).
        split_and!; [apply elem_of_app; by left|done|].
        intros r' [Hr'| ->%list_elem_of_singleton]%elem_of_app Hen';
          [by apply Hmax|done].
    + intros r [Hr| ->%list_elem_of_singleton]%elem_of_app.
      * rewrite lookup_insert_ne; [by apply Hkept|].
        intros Heq. specialize (Hkept r Hr). rewrite <- Heq, Hold in Hkept. done.
      * apply lookup_insert_eq.
    + intros r [Hr| ->%list_elem_of_singleton]%elem_of_app.
      * destruct (decide (Row.en row = Row.en r)) as [<-|Hne].
        -- rewrite lookup_insert_eq. by eexists.
        -- rewrite lookup_insert_ne by done. by apply Hall.
      * rewrite lookup_insert_eq. by eexists.
Qed.

Lemma dedup_fold_inv (rows l : list Row.t) (st : dedup_state) :
  NoDup (Row.id <$> l ++ rows) →
  dedup_inv l st → dedup_inv (l ++ rows) (fold_left dedup_step rows st).
Proof.
  revert l st. induction rows as [|row rows IH]; intros l st Hnodup Hst; simpl.
  - by rewrite app_nil_r.
  - replace (l ++ row :: rows) with ((l ++ [row]) ++ rows) in *
      by (by rewrite <- app_assoc).
    apply IH; [done|]. apply dedup_step_inv; [|done].
    rewrite fmap_app in Hnodup. by apply NoDup_app in Hnodup as [? _].
Qed.

Lemma deduplicate_inv (rows : list Row.t) :
  NoDup (Row.id <$> rows) →
  dedup_inv rows
    (fold_left dedup_step rows {| seen_text := ∅; deduplicated_rows := [] |}).
Proof.
  intros Hnodup. apply (dedup_fold_inv rows []); [done|].
  split_and!; simpl.
  - done.
  - apply NoDup_nil_2.
  - intros t r Ht. by rewrite lookup_empty in Ht.
  - by intros r ?%elem_of_nil.
  - by intros r ?%elem_of_nil.
Qed.

(** ** The Reconciler: the Store of one run *)

(** C2. The Store file that [write_csv] writes holds, of the rows that
    carry one source text, exactly one, and no row of that text has a higher
    score than the one kept: with the score of [id_score], 100 for a hyphen,
    less 1000 for an underscore, less 50 for neither, less the length. For
    [nav_logo] and [nav-logo] around the text [Home] the file holds the row
    of [nav-logo] alone, in whichever order the two come. The rows carry
    distinct identifiers, as those of [create_updated_csv] do. *)
Theorem write_csv_keeps_best_identifier (rows : list Row.t) (fs : site) :
  NoDup (Row.id <$> rows) →
  (∃ kept,
     translations_csv (write_csv rows fs) = Some (Csv.DictWriter kept)
     ∧ (∀ k, k ∈ kept → k ∈ rows)
     ∧ ∀ r, r ∈ rows →
         ∃ k, k ∈ kept ∧ Row.en k = Row.en r
              ∧ (∀ r', r' ∈ rows → Row.en r' = Row.en r →
                   (id_score (Row.id r') ≤ id_score (Row.id k))%Z)
              ∧ (∀ k', k' ∈ kept → Row.en k' = Row.en r → k' = k))
  ∧ (id_score "nav_logo" = -1008 ∧ id_score "nav-logo" = 92
     ∧ id_score "navLogo" = -57)%Z
  ∧ (∀ r1 r2, Row.id r1 = "nav_logo" → Row.id r2 = "nav-logo" →
       Row.en r1 = "Home" → Row.en r2 = "Home" →
       translations_csv (write_csv [r1; r2] fs) = Some (Csv.DictWriter [r2])
       ∧ translations_csv (write_csv [r2; r1] fs) = Some (Csv.DictWriter [r2])).
Proof.
  intros Hnodup. split_and!; [|done..|].
  - exists (deduplicate rows). split; [done|].
    destruct (deduplicate_inv rows Hnodup) as (Hsub & _ & Hseen & Hkept & Hall).
    split; [exact Hsub|]. intros r Hr.
    destruct (Hall r Hr) as [k Hk].
    destruct (Hseen _ _ Hk) as (Hin & Hen & Hmax).
    exists k. split_and!; [done..|].
    intros k' Hk' Hen'. specialize (Hkept k' Hk').
    rewrite Hen', Hk in Hkept. by inversion Hkept.
  - intros [p1 a1 s1 t1 i1 e1 x1] [p2 a2 s2 t2 i2 e2 x2]; simpl.
    intros -> -> -> ->. split; reflexivity.
Qed.

(** Two links to the home page, the legacy identifier first, written over
    a Store that held another row. *)
Lemma write_csv_keeps_best_identifier_witness :
  let legacy := {| Row.page := "index"; Row.address := "/index.html";
                   Row.status := "active"; Row.tag := "a";
                   Row.id := "nav_logo"; Row.en := "Home"; Row.es := "Inicio" |} in
  let modern := {| Row.page := "about"; Row.address := "/about.html";
                   Row.status := "active"; Row.tag := "a";
                   Row.id := "nav-logo"; Row.en := "Home"; Row.es := "" |} in
  let fs := {| html_files := ∅;
               translations_csv := Some (Csv.DictWriter [legacy]) |} in
  let crlf := String Csv.cr (String Csv.lf "") in
  NoDup (Row.id <$> [legacy; modern])
  ∧ translations_csv (write_csv [legacy; modern] fs) = Some (Csv.DictWriter [modern])
  ∧ translations_csv (write_csv [modern; legacy] fs) = Some (Csv.DictWriter [modern])
  ∧ Csv.DictWriter [modern]
    = ("page,address,status,tag,id,en,es" ++ crlf
       ++ "about,/about.html,active,a,nav-logo,Home," ++ crlf)%string.
Proof.
  intros legacy modern fs crlf.
  assert (NoDup (Row.id <$> [legacy; modern])) as Hnodup.
  { apply (bool_decide_unpack (NoDup (Row.id <$> [legacy; modern]))).
    vm_compute. exact I. }
  destruct (write_csv_keeps_best_identifier [legacy; modern] fs Hnodup)
    as (_ & _ & Hnav).
  destruct (Hnav legacy modern) as [H1 H2]; [reflexivity..|].
  split_and!; [exact Hnodup|exact H1|exact H2|reflexivity].
Defined.

(** C3. The identifiers of the rows that a run persists are pairwise
    distinct, whatever the scanned maps and the prior Store. *)
Theorem store_ids_distinct
    (page_ids : PyDict.t (PyDict.t (PyDict.t content)))
    (tag_info : PyDict.t (PyDict.t string))
    (existing_data : gmap string csv_row) :
  NoDup (Row.id <$> reconcile page_ids tag_info existing_data).
Proof.
  unfold reconcile, deduplicate.
  destruct (create_updated_csv_inv page_ids tag_info existing_data) as [Hnodup _].
  apply (NoDup_fmap_filter Row.id (λ row, Row.status row = "active")) in Hnodup.
  by destruct (deduplicate_inv _ Hnodup) as (_ & ? & _).
Qed.

Lemma reconcile_created
    (page_ids : PyDict.t (PyDict.t (PyDict.t content)))
    (tag_info : PyDict.t (PyDict.t string))
    (existing_data : gmap string csv_row) (r : Row.t) :
  r ∈ reconcile page_ids tag_info existing_data →
  r ∈ create_updated_csv page_ids tag_info existing_data.
Proof.
  unfold reconcile, deduplicate. intros Hr.
  destruct (create_updated_csv_inv page_ids tag_info existing_data) as [Hnodup _].
  apply (NoDup_fmap_filter Row.id (λ row, Row.status row = "active")) in Hnodup.
  destruct (deduplicate_inv _ Hnodup) as (Hsub & _).
  apply Hsub in Hr. unfold active_rows in Hr.
  by apply list_elem_of_filter in Hr as [_ ?].
Qed.

(** C4. Every row that a run persists has a source text that is not
    empty, nor empty once stripped or normalized: a candidate whose English
    content is empty or whitespace is passed over, whatever the prior Store
    holds for its identifier. *)
Theorem store_source_text_not_empty
    (page_ids : PyDict.t (PyDict.t (PyDict.t content)))
    (tag_info : PyDict.t (PyDict.t string))
    (existing_data : gmap string csv_row) (r : Row.t) :
  r ∈ reconcile page_ids tag_info existing_data →
  Row.en r ≠ "" ∧ PyStr.strip (Row.en r) ≠ ""
  ∧ PyStr.normalize_ws (Row.en r) ≠ "".
Proof.
  intros Hr%reconcile_created.
  destruct (create_updated_csv_inv page_ids tag_info existing_data) as [_ Hall].
  rewrite Forall_forall in Hall.
  destruct (Hall r Hr) as [(_ & Hen & Hstrip) _].
  split_and!; [done..|].
  rewrite normalize_ws_empty. by rewrite strip_empty in Hstrip.
Qed.

(** The page [index] holds a heading and an empty container that the prior
    Store knows. *)
Lemma store_source_text_not_empty_witness :
  let page_ids := [("index", [("box", [("en", Text "  ")]);
                              ("hero-title", [("en", Text "Capture the Moment")])])] in
  let existing_data : gmap string csv_row :=
    {[ "box" := {[ "id" := "box"; "en" := "old"; "es" := "viejo" ]} ]} in
  (Row.id <$> reconcile page_ids [] existing_data) = ["hero-title"]
  ∧ Forall (λ r, PyStr.normalize_ws (Row.en r) ≠ "")
      (reconcile page_ids [] existing_data).
Proof.
  intros page_ids existing_data. split; [reflexivity|].
  apply Forall_forall. intros r Hr.
  by apply (store_source_text_not_empty page_ids [] existing_data r).
Defined.

(** C6. The Spanish text of every candidate row is the one of the existing
    Store row of its identifier whenever that row holds one, and only
    otherwise the text scanned from the Spanish page. *)
Theorem stored_translation_wins
    (page_ids : PyDict.t (PyDict.t (PyDict.t content)))
    (tag_info : PyDict.t (PyDict.t string))
    (existing_data : gmap string csv_row) (r : Row.t) :
  r ∈ create_updated_csv page_ids tag_info existing_data →
  ∃ page ids content_data,
    (page, ids) ∈ page_ids ∧ (Row.id r, content_data) ∈ ids
    ∧ Row.en r = scanned content_data "en"
    ∧ (∀ row, existing_data !! Row.id r = Some row → row_get row "es" ≠ "" →
         Row.es r = row_get row "es")
    ∧ ((∀ row, existing_data !! Row.id r = Some row → row_get row "es" = "") →
         Row.es r = scanned content_data "es").
Proof.
  intros Hr.
  destruct (create_updated_csv_inv page_ids tag_info existing_data) as [_ Hall].
  rewrite Forall_forall in Hall. by destruct (Hall r Hr) as [_ ?].
Qed.

(** A heading with a stored translation and a Spanish page that says
    otherwise. *)
Lemma stored_translation_wins_witness :
  let page_ids := [("index", [("hero-title",
                     [("en", Text "Capture the Moment");
                      ("es", Text "Captura")])])] in
  let existing_data : gmap string csv_row :=
    {[ "hero-title" := {[ "id" := "hero-title"; "es" := "Captura el Momento" ]} ]} in
  (Row.id <$> create_updated_csv page_ids [] existing_data) = ["hero-title"]
  ∧ Forall (λ r, Row.es r = "Captura el Momento")
      (create_updated_csv page_ids [] existing_data).
Proof.
  intros page_ids existing_data. split; [reflexivity|].
  apply Forall_forall. intros r Hr.
  destruct (stored_translation_wins page_ids [] existing_data r Hr)
    as (page & ids & content_data & _ & _ & _ & Hes & _).
  assert (Row.id r = "hero-title") as Hid.
  { vm_compute in Hr. by apply list_elem_of_singleton in Hr as ->. }
  rewrite Hid in Hes.
  rewrite (Hes {[ "id" := "hero-title"; "es" := "Captura el Momento" ]});
    [reflexivity|reflexivity|discriminate].
Defined.

(** ** The scan of the pages *)

Section PyDict_members.
Context {V : Type}.
Implicit Types (d : PyDict.t V) (k : string) (v : V).

Lemma elem_of_set k v d (x : string * V) :
  x ∈ PyDict.set k v d → x = (k, v) ∨ x ∈ d.
Proof.
  induction d as [|[k' v'] d IH]; simpl.
  - intros ->%list_elem_of_singleton. by left.
  - destruct (String.eqb_spec k k') as [->|Hne].
    + intros [->|Hx]%elem_of_cons; [by left|right; by right].
    + intros [->|Hx]%elem_of_cons; [right; by left|].
      destruct (IH Hx) as [->|?]; [by left|right; by right].
Qed.

Lemma get_Some_elem k v d : PyDict.get k d = Some v → (k, v) ∈ d.
Proof.
  induction d as [|[k' v'] d IH]; simpl; [done|].
  destruct (String.eqb_spec k k') as [->|Hne].
  - intros [= ->]. by left.
  - intros Hget. right. by apply IH.
Qed.
End PyDict_members.

(** An identifier recorded by the parser was declared by an event. *)
Lemma handle_keys (self self' : IDExtractor.t) (e : event) (i : string) (c : content) :
  IDExtractor.handle self e = Some self' →
  (i, c) ∈ IDExtractor.elements self' →
  (∃ c', (i, c') ∈ IDExtractor.elements self) ∨ declared_id e = Some i.
Proof.
  intros Hh Hin. destruct e as [t a|t|d|t a]; simpl in *.
  - inversion Hh; subst self'. unfold IDExtractor.handle_starttag in Hin.
    destruct (PyDict.get "id" (PyDict.of_pairs a)) as [j|]; [|left; by eexists].
    simpl in Hin. apply elem_of_set in Hin as [[= -> ->]|Hin]; [by right|left; by eexists].
  - unfold IDExtractor.handle_endtag in Hh.
    destruct (IDExtractor.capture_content self
              && bool_decide (IDExtractor.current_tag self = Some t)).
    + destruct (IDExtractor.current_id self) as [cid|]; [|done].
      destruct (PyDict.get cid (IDExtractor.elements self)) as [c0|] eqn:Hc0; [|done].
      inversion Hh; subst self'. simpl in Hin. left.
      apply elem_of_set in Hin as [[= -> ->]|Hin]; [|by eexists].
      exists c0. by apply get_Some_elem.
    + inversion Hh; subst self'. left; by eexists.
  - unfold IDExtractor.handle_data in Hh.
    destruct (IDExtractor.current_id self) as [cid|];
      [|inversion Hh; subst self'; left; by eexists].
    destruct (IDExtractor.capture_content self && PyStr.truthy cid);
      [|inversion Hh; subst self'; left; by eexists].
    destruct (PyDict.get cid (IDExtractor.elements self)) as [[l|]|] eqn:Hc0; [|done|done].
    inversion Hh; subst self'. simpl in Hin. left.
    apply elem_of_set in Hin as [[= -> ->]|Hin]; [|by eexists].
    exists (Chunks l). by apply get_Some_elem.
  - inversion Hh; subst self'. unfold IDExtractor.handle_startendtag in Hin.
    destruct (PyDict.get "id" (PyDict.of_pairs a)) as [j|]; [|left; by eexists].
    simpl in Hin. apply elem_of_set in Hin as [[= -> ->]|Hin]; [by right|left; by eexists].
Qed.

Lemma feed_keys (doc : list event) (self self' : IDExtractor.t) (i : string) (c : content) :
  IDExtractor.feed self doc = Some self' →
  (i, c) ∈ IDExtractor.elements self' →
  (∃ c', (i, c') ∈ IDExtractor.elements self)
  ∨ Exists (λ e, declared_id e = Some i) doc.
Proof.
  revert self. induction doc as [|e doc IH]; intros self Hfeed Hin; simpl in Hfeed.
  - inversion Hfeed; subst self'. left; by eexists.
  - destruct (IDExtractor.handle self e) as [self1|] eqn:Hh; [|done].
    destruct (IH self1 Hfeed Hin) as [[c' Hc']|Hex]; [|right; by right].
    destruct (handle_keys _ _ _ _ _ Hh Hc') as [?|?]; [by left|right; by left].
Qed.

Lemma record_elements_english (K : string → Prop) (lang : string)
    (extractor : IDExtractor.t)
    (acc : PyDict.t (PyDict.t content) * PyDict.t string) :
  (lang = "en" → ∀ i c, (i, c) ∈ IDExtractor.elements extractor → K i) →
  english_ids K (fst acc) →
  english_ids K (fst (record_elements lang extractor acc)).
Proof.
  intros Hen. unfold record_elements.
  apply (fold_left_inv _ (λ acc, english_ids K (fst acc))).
  intros [ids tgs] [element_id content] Hitem Hids. simpl in *.
  intros i content_data [[= -> ->]|Hin]%elem_of_set Hsome; [|by apply (Hids i content_data)].
  destruct (decide (lang = "en")) as [Hlang|Hlang]; [by apply (Hen Hlang _ content)|].
  rewrite get_set_ne in Hsome by done.
  destruct (PyDict.get element_id ids) as [cd0|] eqn:Hcd0; simpl in Hsome.
  - apply (Hids element_id cd0); [by apply get_Some_elem|done].
  - by destruct Hsome.
Qed.

Lemma scan_file_english (fs : site) (page lang : string) (K : string → Prop)
    (acc acc' : PyDict.t (PyDict.t content) * PyDict.t string) (path : string) :
  (lang = "en" → ∀ doc, html_files fs !! path = Some doc → ∀ i, declared_in doc i → K i) →
  scan_file fs path lang acc = Some acc' →
  english_ids K (fst acc) → english_ids K (fst acc').
Proof.
  intros Hen Hscan Hacc. unfold scan_file in Hscan.
  destruct (html_files fs !! path) as [doc|] eqn:Hdoc; [|by inversion Hscan; subst].
  destruct (IDExtractor.feed IDExtractor.init doc) as [extractor|] eqn:Hfeed; [|done].
  inversion Hscan; subst acc'. apply record_elements_english; [|done].
  intros Hlang i c Hin. apply (Hen Hlang doc eq_refl).
  destruct (feed_keys _ _ _ _ _ Hfeed Hin) as [[c' Hc']|?]; [|done].
  simpl in Hc'. by apply elem_of_nil in Hc'.
Qed.

Lemma scan_html_files_inv (fs : site) (scan : scan_state) :
  scan_html_files fs = Some scan → scan_inv fs scan.
Proof.
  unfold scan_html_files.
  assert (∀ o, (∀ st, o = Some st → scan_inv fs st) →
            ∀ st, fold_left (scan_page fs) pages o = Some st → scan_inv fs st) as H.
  { intros o Ho.
    apply (fold_left_inv (scan_page fs) (λ o, ∀ st, o = Some st → scan_inv fs st));
      [|done].
    clear. intros o page Hpage Ho st' Hst'. unfold scan_page in Hst'.
    destruct o as [st|]; [|done]. specialize (Ho st eq_refl).
    destruct (scan_file fs (page ++ ".html") "en" ([], [])) as [acc|] eqn:Hen; [|done].
    destruct (scan_file fs ("es/" ++ page ++ ".html") "es" acc) as [[ids tgs]|] eqn:Hes;
      [|done].
    inversion Hst'; subst st'. intros page' ids'. simpl.
    intros [[= -> ->]|Hin]%elem_of_set; [|by apply Ho].
    split; [done|].
    apply (scan_file_english fs page "es" _ acc (ids, tgs) _ (λ H, ltac:(discriminate H)) Hes).
    apply (scan_file_english fs page "en" _ ([], []) acc _ (λ _ doc Hdoc i Hi,
             ex_intro _ doc (conj Hdoc Hi)) Hen).
    intros i cd Hin. simpl in Hin. by apply elem_of_nil in Hin. }
  apply H. intros st [= <-] page ids Hin. simpl in Hin. by apply elem_of_nil in Hin.
Qed.

(** C5. An identifier that no English page declares any more has no row in
    the Store the run writes, whatever the prior Store holds: neither an
    active row nor one marked as deleted. *)
Theorem removed_identifier_dropped (fs fs' : site) (i : string) :
  (∀ page doc, page ∈ pages →
     html_files fs !! (page ++ ".html")%string = Some doc →
     Forall (λ e, declared_id e ≠ Some i) doc) →
  sync_main fs = Some fs' →
  ∃ rows, translations_csv fs' = Some (Csv.DictWriter rows)
          ∧ Forall (λ r, Row.id r ≠ i ∧ Row.status r = "active") rows.
Proof.
  intros Hgone Hmain. unfold sync_main in Hmain.
  destruct (scan_html_files fs) as [scan|] eqn:Hscan; [|done].
  destruct (load_existing_csv fs) as [existing_data|]; [|done].
  inversion Hmain; subst fs'. simpl.
  exists (reconcile (page_ids scan) (tag_info scan) existing_data).
  split; [done|].
  destruct (create_updated_csv_inv (page_ids scan) (tag_info scan) existing_data)
    as [_ Hall].
  rewrite Forall_forall in Hall.
  apply Forall_forall. intros r Hr%reconcile_created.
  destruct (Hall r Hr)
    as [(Hactive & Hen & _) (page & ids & cd & Hpage & Hid & Hscanned & _)].
  split; [|done]. intros <-.
  destruct (scan_html_files_inv fs scan Hscan page ids Hpage) as [Hp Henglish].
  destruct (Henglish (Row.id r) cd Hid) as (doc & Hdoc & Hdecl).
  - unfold scanned in Hscanned.
    destruct (PyDict.get "en" cd); [by eexists|congruence].
  - specialize (Hgone page doc Hp Hdoc).
    unfold declared_in in Hdecl. rewrite Exists_exists in Hdecl.
    destruct Hdecl as (e & He & Hdecl). rewrite Forall_forall in Hgone.
    by apply (Hgone e He).
Qed.

(** The prior Store holds [old-banner] and [hero-title]; the only page
    declares [hero-title] alone. *)
Lemma removed_identifier_dropped_witness :
  let prior :=
    [ {| Row.page := "index"; Row.address := "/index.html"; Row.status := "active";
         Row.tag := "div"; Row.id := "old-banner"; Row.en := "Sale";
         Row.es := "Rebajas" |};
      {| Row.page := "index"; Row.address := "/index.html"; Row.status := "active";
         Row.tag := "h1"; Row.id := "hero-title"; Row.en := "Capture the Moment";
         Row.es := "Captura el Momento" |} ] in
  let fs :=
    {| html_files :=
         {[ "index.html" := [StartTag "h1" [("id", "hero-title")];
                             Data "Capture the Moment"; EndTag "h1"] ]};
       translations_csv := Some (Csv.DictWriter prior) |} in
  ∃ fs',
    sync_main fs = Some fs'
    ∧ translations_csv fs'
      = Some (Csv.DictWriter
                [ {| Row.page := "index"; Row.address := "/index.html";
                     Row.status := "active"; Row.tag := "h1";
                     Row.id := "hero-title"; Row.en := "Capture the Moment";
                     Row.es := "Captura el Momento" |} ])
    ∧ ∃ rows, translations_csv fs' = Some (Csv.DictWriter rows)
        ∧ Forall (λ r, Row.id r ≠ "old-banner" ∧ Row.status r = "active") rows.
Proof.
  intros prior fs.
  destruct (sync_main fs) as [fs'|] eqn:Hmain;
    [|vm_compute in Hmain; discriminate Hmain].
  exists fs'. split; [done|]. split.
  - vm_compute in Hmain. inversion Hmain. reflexivity.
  - apply (removed_identifier_dropped fs fs' "old-banner"); [|exact Hmain].
    clear Hmain. intros page doc Hp Hdoc.
    repeat (apply elem_of_cons in Hp as [->|Hp]);
      [..|by apply elem_of_nil in Hp]; vm_compute in Hdoc; try discriminate Hdoc.
    inversion Hdoc; subst doc. repeat constructor; discriminate.
Defined.


(** ** Two runs of [sync_translations.py] *)

(** C1 fails on the code. The English page is [<p id="x">Hello</p>]; the
    Spanish page is [<div id="x">Hola&#13;mundo<span id="y">c</span></div>],
    where the capture of [x] is interrupted and its raw text, with the
    carriage return of the character reference, becomes the Spanish text of
    the row. The first run writes that text; the second run reads the Store
    back with the carriage return turned into a line feed, since
    [load_existing_csv] opens the file without [newline=''], and writes a
    Store that differs from the first, although no page has changed. *)
Theorem sync_twice_changes_store :
  let dq := String Csv.dq "" in
  let cr := String Csv.cr "" in
  let lf := String Csv.lf "" in
  let header := ("page,address,status,tag,id,en,es" ++ cr ++ lf)%string in
  let fs :=
    {| html_files :=
         {[ "index.html" := [StartTag "p" [("id", "x")]; Data "Hello"; EndTag "p"];
            "es/index.html" :=
              [StartTag "div" [("id", "x")]; Data ("Hola" ++ cr ++ "mundo")%string;
               StartTag "span" [("id", "y")]; Data "c"; EndTag "span";
               EndTag "div"] ]};
       translations_csv := None |} in
  ∃ fs1 fs2,
    sync_main fs = Some fs1 ∧ sync_main fs1 = Some fs2
    ∧ html_files fs1 = html_files fs
    ∧ translations_csv fs1
      = Some (header ++ "index,/index.html,active,p,x,Hello,"
              ++ dq ++ "Hola" ++ cr ++ "mundo" ++ dq ++ cr ++ lf)%string
    ∧ translations_csv fs2
      = Some (header ++ "index,/index.html,active,p,x,Hello,"
              ++ dq ++ "Hola" ++ lf ++ "mundo" ++ dq ++ cr ++ lf)%string
    ∧ translations_csv fs2 ≠ translations_csv fs1.
Proof.
  intros dq cr lf header fs.
  eexists _, _. split; [vm_compute; reflexivity|].
  split; [vm_compute; reflexivity|].
  split; [reflexivity|]. split; [reflexivity|]. split; [reflexivity|].
  simpl. discriminate.
Qed.

(** ** The Generator: the substitution step *)

Section Substitution.
Import Generate.

Lemma bind_Some {A B : Type} (f : A → option B) (x : A) : (Some x ≫= f) = f x.
Proof. reflexivity. Qed.

Lemma fold_left_pointwise {A B : Type} (f g : A → B → A) (l : list B) (x : A) :
  (∀ a b, f a b = g a b) → fold_left f l x = fold_left g l x.
Proof.
  intros Hfg. revert x. induction l as [|b l IH]; intros x; [done|].
  simpl. by rewrite Hfg, IH.
Qed.

(** [translate_content] on a Store depends on the map of the source texts
    and on the rows of the language alone. *)
Lemma translate_content_rows (html lang : string) (csv_translations : PyDict.t table)
    (tr_en rows : table) :
  PyDict.get "en" csv_translations = Some tr_en →
  default [] (PyDict.get lang csv_translations) = rows →
  translate_content html lang csv_translations
  = if String.eqb lang "en" then Some html
    else fold_left
           (λ (html : option string) (item : cell * cell),
              html ← html;
              translate_entry (table_get (fst item) tr_en) html (fst item) (snd item))
           rows (Some html).
Proof.
  intros Hen Hrows. unfold translate_content. rewrite Hrows.
  destruct (String.eqb lang "en"); [done|].
  apply fold_left_pointwise. intros [h|] item; [|done]. simpl. by rewrite Hen.
Qed.

Lemma after_rows_fold (html lang : string) (tr_en rows : table) :
  lang ≠ "en" →
  after_rows html lang tr_en rows
  = fold_left
      (λ (html : option string) (item : cell * cell),
         html ← html;
         translate_entry (table_get (fst item) tr_en) html (fst item) (snd item))
      rows (Some html).
Proof.
  intros Hlang. unfold after_rows.
  rewrite (translate_content_rows html lang _ tr_en rows).
  - apply String.eqb_neq in Hlang. by rewrite Hlang.
  - reflexivity.
  - cbn [PyDict.get]. apply String.eqb_neq in Hlang.
    by rewrite Hlang, String.eqb_refl.
Qed.

Lemma translate_rows_raised (tr_en rows : table) :
  fold_left
    (λ (html : option string) (item : cell * cell),
       html ← html;
       translate_entry (table_get (fst item) tr_en) html (fst item) (snd item))
    rows None = None.
Proof. induction rows as [|item rows IH]; [done|exact IH]. Qed.

Lemma after_rows_app (html lang : string) (tr_en a b : table) :
  lang ≠ "en" →
  after_rows html lang tr_en (a ++ b)
  = html1 ← after_rows html lang tr_en a; after_rows html1 lang tr_en b.
Proof.
  intros Hlang. rewrite (after_rows_fold html lang tr_en (a ++ b)) by done.
  rewrite fold_left_app.
  rewrite <- (after_rows_fold html lang tr_en a) by done.
  destruct (after_rows html lang tr_en a) as [html1|].
  - by rewrite <- (after_rows_fold html1 lang tr_en b).
  - apply translate_rows_raised.
Qed.

Lemma after_rows_one (html lang : string) (tr_en : table) (item : cell * cell) :
  lang ≠ "en" →
  after_rows html lang tr_en [item]
  = translate_entry (table_get (fst item) tr_en) html (fst item) (snd item).
Proof. intros Hlang. by rewrite after_rows_fold. Qed.

Lemma translate_entry_passed_over (tr_en : table) (item : cell * cell) (html : string) :
  passed_over tr_en item →
  translate_entry (table_get (fst item) tr_en) html (fst item) (snd item) = Some html.
Proof.
  unfold translate_entry. intros [->|[->| ->]]; [done|done|].
  destruct (snd item) as [t|]; [|done].
  rewrite bool_decide_eq_true_2 by done. by rewrite orb_true_r.
Qed.

(** C7, as the code has it. The rows of the language are taken in order,
    each on the document that the rows before it have made. A row is
    passed over, and leaves that document as it is, when its identifier has
    no source text, or an empty one, or one equal to its target text; for
    every other row the substitution is made on that document, and raises
    for a row whose identifier is [None]. The rows after a row work on the
    document it leaves. *)
Theorem translate_content_skips (html lang : string) (tr_en before after : table)
    (element_id target_text : cell) :
  lang ≠ "en" →
  (passed_over tr_en (element_id, target_text) →
     after_rows html lang tr_en (before ++ [(element_id, target_text)])
     = after_rows html lang tr_en before)
  ∧ (∀ en_text, table_get element_id tr_en = Some en_text →
       en_text ≠ "" → Some en_text ≠ target_text →
       after_rows html lang tr_en (before ++ [(element_id, target_text)])
       = (html1 ← after_rows html lang tr_en before;
          match element_id with
          | Some i => substitute en_text html1 i (format target_text)
          | None => None
          end))
  ∧ after_rows html lang tr_en (before ++ (element_id, target_text) :: after)
    = (html1 ← after_rows html lang tr_en (before ++ [(element_id, target_text)]);
       after_rows html1 lang tr_en after)
  ∧ (∀ csv_translations,
       PyDict.get "en" csv_translations = Some tr_en →
       PyDict.get lang csv_translations
       = Some (before ++ (element_id, target_text) :: after) →
       translate_content html lang csv_translations
       = after_rows html lang tr_en (before ++ (element_id, target_text) :: after)).
Proof.
  intros Hlang. split_and!.
  - intros Hskip. rewrite after_rows_app by done.
    destruct (after_rows html lang tr_en before) as [html1|]; [|done].
    rewrite bind_Some, after_rows_one by done.
    by apply (translate_entry_passed_over tr_en (element_id, target_text)).
  - intros en_text Hen Hne Hdiff. rewrite after_rows_app by done.
    destruct (after_rows html lang tr_en before) as [html1|]; [|done].
    rewrite !bind_Some, after_rows_one by done. cbn [fst snd].
    rewrite Hen. unfold translate_entry.
    apply truthy_spec in Hne. rewrite Hne.
    by rewrite bool_decide_eq_false_2.
  - replace (before ++ (element_id, target_text) :: after)
      with ((before ++ [(element_id, target_text)]) ++ after)
      by (by rewrite <- app_assoc).
    by apply after_rows_app.
  - intros csv_translations Hen Hrows.
    rewrite (translate_content_rows html lang csv_translations tr_en
               (before ++ (element_id, target_text) :: after));
      [|done|by rewrite Hrows].
    rewrite after_rows_fold by done.
    apply String.eqb_neq in Hlang. by rewrite Hlang.
Qed.

(** A Store of four rows on a page of two elements: the first row has no
    source text, the second an empty one, the third is translated, the
    fourth has its two texts equal. *)
Lemma translate_content_skips_witness :
  let html := PyStr.q "<h1 id='a'>Lenko</h1><p id='c'>Hello</p>" in
  let tr_en := [(Some "b", Some ""); (Some "c", Some "Hello"); (Some "d", Some "OK")] in
  let rows := [(Some "a", Some "Estudio"); (Some "b", Some "Vale");
               (Some "c", Some "Hola"); (Some "d", Some "OK")] in
  after_rows html "es" tr_en [(Some "a", Some "Estudio"); (Some "b", Some "Vale")]
  = Some html
  ∧ after_rows html "es" tr_en
      [(Some "a", Some "Estudio"); (Some "b", Some "Vale"); (Some "c", Some "Hola")]
    = Some (PyStr.q "<h1 id='a'>Lenko</h1><p id='c'>Hola</p>")
  ∧ translate_content html "es" [("en", tr_en); ("es", rows)]
    = Some (PyStr.q "<h1 id='a'>Lenko</h1><p id='c'>Hola</p>").
Proof.
  intros html tr_en rows.
  assert ("es" ≠ "en") as Hlang by discriminate.
  destruct (translate_content_skips html "es" tr_en [(Some "a", Some "Estudio")]
              [(Some "c", Some "Hola"); (Some "d", Some "OK")]
              (Some "b") (Some "Vale") Hlang) as (Hskip & _ & _ & _).
  destruct (translate_content_skips html "es" tr_en
              [(Some "a", Some "Estudio"); (Some "b", Some "Vale")]
              [(Some "d", Some "OK")]
              (Some "c") (Some "Hola") Hlang) as (_ & Hsub & _ & Hrun).
  split_and!.
  - etrans; [apply Hskip; right; by left|]. reflexivity.
  - etrans; [apply (Hsub "Hello"); [reflexivity|discriminate|discriminate]|].
    vm_compute. reflexivity.
  - etrans; [apply Hrun; reflexivity|]. vm_compute. reflexivity.
Defined.

(** C7, as stated, fails on an entry whose target text is empty and whose
    source text is not: the text of the element is replaced by nothing. *)
Lemma translate_content_blanks_on_empty_target :
  translate_content (PyStr.q "<p id='t'>Hello</p>") "es"
    [("en", [(Some "t", Some "Hello")]); ("es", [(Some "t", Some "")])]
  = Some (PyStr.q "<p id='t'></p>")
  ∧ PyStr.q "<p id='t'></p>" ≠ PyStr.q "<p id='t'>Hello</p>".
Proof. split; [vm_compute; reflexivity|discriminate]. Qed.

End Substitution.

(** ** The Generator: matching by identifier *)

Section Re_facts.
Context {A : Type}.
Implicit Types (s : list ascii) (g : Re.groups) (k : list ascii → Re.groups → option A).

Lemma run_lit_inv (x : string) s g k (v : A) :
  Re.run false (Re.lit x) s g k = Some v →
  ∃ s', s = list_ascii_of_string x ++ s' ∧ k s' g = Some v.
Proof.
  revert s. induction x as [|c x IH]; intros s; simpl.
  - intros Hk. by exists s.
  - destruct s as [|d s]; [done|]. unfold Re.chr_eq.
    destruct (Ascii.eqb_spec c d) as [->|]; [|done].
    intros (s' & -> & Hk)%IH. by exists s'.
Qed.

Lemma run_lit_app (x : string) s g k :
  Re.run false (Re.lit x) (list_ascii_of_string x ++ s) g k = k s g.
Proof.
  induction x as [|c x IH]; simpl; [done|].
  unfold Re.chr_eq. by rewrite Ascii.eqb_refl.
Qed.


Lemma star_loop_cls_inv (p : ascii → bool) k (v : A) (n : nat) :
  ∀ s g, Re.star_loop (cls_step p) k n s g = Some v →
    ∃ a s', s = a ++ s' ∧ Forall (λ c, p c = true) a ∧ k s' g = Some v.
Proof.
  induction n as [|n IH]; intros s g; simpl.
  - intros Hk. by exists [], s.
  - destruct s as [|d s]; simpl.
    + intros Hk. by exists [], [].
    + destruct (p d) eqn:Hd.
      * rewrite (proj2 (Nat.ltb_lt _ _)) by (simpl; lia).
        destruct (Re.star_loop (cls_step p) k n s g) as [x|] eqn:Hloop.
        -- intros [= ->]. destruct (IH _ _ Hloop) as (a & s' & -> & Ha & Hk).
           exists (d :: a), s'. split_and!; [done|by constructor|done].
        -- intros Hk. by exists [], (d :: s).
      * intros Hk. by exists [], (d :: s).
Qed.

Lemma run_star_cls_inv (ic : bool) (p : ascii → bool) s g k (v : A) :
  Re.run ic (Re.Star (Re.Cls p)) s g k = Some v →
  ∃ a s', s = a ++ s' ∧ Forall (λ c, p c = true) a ∧ k s' g = Some v.
Proof. apply star_loop_cls_inv. Qed.

Lemma star_cls_stop (ic : bool) (p : ascii → bool) k s g :
  match s with [] => True | d :: _ => p d = false end →
  Re.run ic (Re.Star (Re.Cls p)) s g k = k s g.
Proof.
  simpl. destruct s as [|d s]; simpl; [done|]. by intros ->.
Qed.
End Re_facts.



Section Hero.
Import Generate.

Lemma space_not_lt (W : list ascii) :
  Forall (λ c, PyStr.isspace c = true) W → ¬ (chr_lt ∈ W).
Proof.
  intros Hall Hin. rewrite Forall_forall in Hall. by specialize (Hall _ Hin).
Qed.

Lemma match_shape (s rest : list ascii) (g : Re.groups) :
  Re.match_here false hero_pattern s = Some (rest, g) →
  ∃ gt W, s = hero_attr ++ gt ++ chr_gt :: W ++ chr_lt :: rest
          ∧ ¬ (chr_gt ∈ gt) ∧ ¬ (chr_lt ∈ W) ∧ g = [(1, gt)].
Proof.
  unfold Re.match_here, hero_pattern, id_pattern. cbn [Re.seq Re.run].
  intros (s1 & -> & H)%run_lit_inv.
  apply run_lit_inv in H as (s2 & -> & H).
  apply run_lit_inv in H as (s3 & -> & H).
  apply (star_loop_cls_inv (λ d, negb (Ascii.eqb ">" d))) in H
    as (gt & s4 & -> & Hgt & H).
  destruct s4 as [|c s4]; [done|]. unfold Re.chr_eq in H.
  destruct (Ascii.eqb_spec ">" c) as [<-|]; [|done].
  apply (star_loop_cls_inv PyStr.isspace) in H as (ws1 & s5 & -> & Hws1 & H).
  apply run_lit_inv in H as (s6 & -> & H).
  apply (star_loop_cls_inv PyStr.isspace) in H as (ws2 & s7 & -> & Hws2 & H).
  destruct s7 as [|c s7]; [done|].
  destruct (Ascii.eqb_spec "<" c) as [<-|]; [|done].
  injection H as <- <-.
  exists gt, (ws1 ++ list_ascii_of_string "Capture the Moment" ++ ws2).
  split_and!.
  - change hero_attr with (list_ascii_of_string (PyStr.q "id='")
                    ++ list_ascii_of_string "hero-title"
                    ++ list_ascii_of_string (PyStr.q "'")).
    by rewrite <- !app_assoc.
  - intros Hin. rewrite Forall_forall in Hgt. specialize (Hgt _ Hin). done.
  - rewrite !elem_of_app. intros [Hin|[Hin|Hin]].
    + by apply (space_not_lt ws1).
    + revert Hin. apply (bool_decide_unpack (¬ (chr_lt ∈ hero_en))). by vm_compute.
    + by apply (space_not_lt ws2).
  - f_equal. f_equal.
    rewrite length_app, Nat.add_sub. apply take_app_length.
Qed.

Lemma star_loop_stop {A : Type} (p : ascii → bool)
    (k : list ascii → Re.groups → option A) (n : nat) (s : list ascii)
    (g : Re.groups) :
  match s with [] => True | d :: _ => p d = false end →
  Re.star_loop (cls_step p) k n s g = k s g.
Proof.
  destruct n as [|n]; [done|]. simpl. destruct s as [|d s]; simpl; [done|].
  by intros ->.
Qed.

Lemma match_snip (rest : list ascii) :
  Re.match_here false hero_pattern (hero_attr ++ chr_gt :: hero_en ++ chr_lt :: rest) = Some (rest, [(1, [])]).
Proof.
  unfold Re.match_here, hero_pattern, id_pattern, Re.none_of, Re.space.
  cbn [Re.seq Re.run].
  change hero_attr with (list_ascii_of_string (PyStr.q "id='")
                  ++ list_ascii_of_string "hero-title"
                  ++ list_ascii_of_string (PyStr.q "'")).
  rewrite <- !app_assoc, !run_lit_app.
  etrans; [by apply (star_loop_stop (λ d, negb (Ascii.eqb ">" d)))|]; cbv beta.
  rewrite Nat.sub_diag. cbn [take].
  unfold chr_gt, Re.chr_eq. rewrite Ascii.eqb_refl.
  etrans; [by apply (star_loop_stop PyStr.isspace)|]; cbv beta.
  unfold hero_en. rewrite run_lit_app.
  etrans; [by apply (star_loop_stop PyStr.isspace)|]; cbv beta.
  unfold chr_lt. by rewrite Ascii.eqb_refl.
Qed.

Lemma search_app (ic : bool) (r : Re.regex) (pre s : list ascii) :
  is_Some (Re.match_here ic r s) → Re.search ic r (pre ++ s) = true.
Proof.
  intros [v Hv]. induction pre as [|c pre IH]; simpl.
  - destruct s; simpl; by rewrite Hv.
  - by destruct (Re.match_here ic r (c :: pre ++ s)).
Qed.

Lemma sub_go_total (ic : bool) (r : Re.regex) (repl : Re.groups → list ascii)
    (fuel : nat) (s : list ascii) :
  is_Some (Re.sub_go fuel ic r (λ g, Some (repl g)) s).
Proof.
  revert s. induction fuel as [|fuel IH]; intros s; simpl; [by eexists|].
  destruct (Re.match_here ic r s) as [[rest g]|].
  - destruct (Nat.ltb (length rest) (length s)).
    + destruct (IH rest) as [out ->]. by eexists.
    + destruct s as [|c s]; [by eexists|]. destruct (IH s) as [out ->]. by eexists.
  - destruct s as [|c s]; [by eexists|]. destruct (IH s) as [out ->]. by eexists.
Qed.

Ltac list_eq :=
  repeat (rewrite <- ?app_assoc; simpl); rewrite <- ?app_assoc;
  first [reflexivity | repeat f_equal; repeat (rewrite <- ?app_assoc; simpl); reflexivity].

Lemma first_split {B : Type} (c : B) (l1 r1 l2 r2 : list B) :
  ¬ (c ∈ l1) → ¬ (c ∈ l2) → l1 ++ c :: r1 = l2 ++ c :: r2 → l1 = l2 ∧ r1 = r2.
Proof.
  revert l2. induction l1 as [|x l1 IH]; intros [|y l2] H1 H2 Heq; simpl in Heq.
  - by injection Heq as ->.
  - injection Heq as -> _. exfalso. apply H2. by left.
  - injection Heq as -> _. exfalso. apply H1. by left.
  - injection Heq as -> Heq. destruct (IH l2) as [-> ->]; [| |done|done].
    + intros ?. apply H1. by right.
    + intros ?. apply H2. by right.
Qed.


Lemma no_match_head (c : ascii) (s : list ascii) :
  c ≠ "i"%char → Re.match_here false hero_pattern (c :: s) = None.
Proof.
  intros Hc. unfold Re.match_here, hero_pattern, id_pattern. cbn [Re.seq Re.run].
  change (PyStr.q "id='") with (String "i" (PyStr.q "d='")).
  cbn [Re.lit Re.run]. unfold Re.chr_eq.
  destruct (Ascii.eqb_spec "i" c) as [Heq|]; [by subst|done].
Qed.

Lemma sub_go_none (fuel : nat) (c : ascii) (s : list ascii) :
  c ≠ "i"%char →
  Re.sub_go (S fuel) false hero_pattern hero_repl (c :: s)
  = match Re.sub_go fuel false hero_pattern hero_repl s with
    | Some out => Some (c :: out)
    | None => None
    end.
Proof. intros Hc. cbn [Re.sub_go]. by rewrite no_match_head. Qed.

(** After the closing tag nothing of the element is left to match. *)
Lemma sub_go_close (fuel : nat) (suf : list ascii) :
  (4 ≤ fuel)%nat → ∃ Y, Re.sub_go fuel false hero_pattern hero_repl (hero_close ++ suf) = Some (hero_close ++ Y).
Proof.
  intros Hfuel.
  do 4 (destruct fuel as [|fuel]; [lia|]). clear Hfuel.
  destruct (sub_go_total false hero_pattern (λ g, hero_attr ++ Re.group 1 g ++ chr_gt :: hero_es ++ [chr_lt])
              fuel suf) as [Y HY].
  exists Y. unfold hero_close. cbn [list_ascii_of_string app].
  rewrite !sub_go_none by done. fold hero_repl in HY. unfold hero_repl in *. by rewrite HY.
Qed.

(** One step of the loop at a match. *)
Lemma sub_go_match (fuel : nat) (s rest gt W : list ascii) :
  Re.match_here false hero_pattern s = Some (rest, [(1, gt)]) →
  s = hero_attr ++ gt ++ chr_gt :: W ++ chr_lt :: rest →
  Re.sub_go (S fuel) false hero_pattern hero_repl s
  = match Re.sub_go fuel false hero_pattern hero_repl rest with
    | Some out => Some ((hero_attr ++ gt ++ chr_gt :: hero_es ++ [chr_lt]) ++ out)
    | None => None
    end.
Proof.
  intros Hm Hs. cbn [Re.sub_go]. rewrite Hm. unfold hero_repl at 1. cbn [Re.group].
  rewrite Nat.eqb_refl.
  rewrite (proj2 (Nat.ltb_lt _ _)); [done|].
  rewrite Hs, !length_app. simpl. rewrite !length_app. simpl. lia.
Qed.

(** From the tag name of the element on: the element is translated. *)
Lemma sub_go_h1 (fuel : nat) (suf : list ascii) :
  (8 ≤ fuel)%nat →
  ∃ Y, Re.sub_go fuel false hero_pattern hero_repl (hero_open ++ hero_attr ++ chr_gt :: hero_en ++ chr_lt :: hero_close ++ suf)
       = Some (hero_open ++ hero_attr ++ chr_gt :: hero_es ++ chr_lt :: hero_close ++ Y).
Proof.
  intros Hfuel. do 4 (destruct fuel as [|fuel]; [lia|]).
  destruct (sub_go_close fuel suf) as [Y HY]; [lia|].
  exists Y. unfold hero_open. cbn [list_ascii_of_string app].
  rewrite !sub_go_none by done.
  rewrite (sub_go_match fuel _ (hero_close ++ suf) [] hero_en).
  - rewrite HY. list_eq.
  - apply match_snip.
  - done.
Qed.


Lemma sub_go_snip (fuel : nat) :
  ∀ pre suf, (length (pre ++ hero_source ++ suf) < fuel)%nat →
    ∃ X Y, Re.sub_go fuel false hero_pattern hero_repl (pre ++ hero_source ++ suf)
           = Some (X ++ hero_target ++ Y).
Proof.
  induction fuel as [|fuel IH]; intros pre suf Hlen; [lia|].
  assert (8 ≤ fuel)%nat as Hfuel.
  { rewrite !length_app in Hlen. unfold hero_source in Hlen. simpl in Hlen. lia. }
  destruct (Re.match_here false hero_pattern (pre ++ hero_source ++ suf)) as [[rest g]|] eqn:Hm.
  - destruct (match_shape _ _ _ Hm) as (gt & W & Hs & Hgt & HW & ->).
    rewrite (sub_go_match fuel _ rest gt W Hm Hs).
    assert (length rest < length (pre ++ hero_source ++ suf))%nat as Hrest.
    { rewrite Hs, !length_app. simpl. rewrite !length_app. simpl. lia. }
    destruct (decide (chr_gt ∈ pre)) as [Hin|Hout].
    + apply list_elem_of_split_l in Hin as (p1 & p2 & -> & Hp1).
      assert (p1 ++ chr_gt :: (p2 ++ hero_source ++ suf)
              = (hero_attr ++ gt) ++ chr_gt :: (W ++ chr_lt :: rest)) as Hs'.
      { rewrite <- (app_assoc hero_attr gt), <- Hs. by rewrite <- app_assoc. }
      apply first_split in Hs' as [-> Hs']; [|done|].
      2: { rewrite elem_of_app. intros [Hin|Hin]; [|done].
           revert Hin. apply (bool_decide_unpack (¬ (chr_gt ∈ hero_attr))). by vm_compute. }
      destruct (decide (chr_lt ∈ p2)) as [Hin|Hout].
      * apply list_elem_of_split_l in Hin as (q1 & q2 & -> & Hq1).
        assert (q1 ++ chr_lt :: (q2 ++ hero_source ++ suf) = W ++ chr_lt :: rest) as Hs''.
        { rewrite <- Hs'. by rewrite <- app_assoc. }
        apply first_split in Hs'' as [-> <-]; [|done|done].
        destruct (IH q2 suf) as (X & Y & ->).
        { lia. }
        exists ((hero_attr ++ gt ++ chr_gt :: hero_es ++ [chr_lt]) ++ X), Y.
        f_equal. apply app_assoc.
      * assert (p2 ++ chr_lt :: (hero_open ++ hero_attr ++ chr_gt :: hero_en ++ chr_lt :: hero_close ++ suf)
                = W ++ chr_lt :: rest) as Hs''.
        { rewrite <- Hs'. unfold hero_source. list_eq. }
        apply first_split in Hs'' as [-> <-]; [|done|done].
        destruct (sub_go_h1 fuel suf Hfuel) as [Y HY]. rewrite HY.
        exists (hero_attr ++ gt ++ chr_gt :: hero_es), Y. unfold hero_target. list_eq.
    + assert ((pre ++ chr_lt :: hero_open ++ hero_attr) ++ chr_gt :: (hero_en ++ chr_lt :: hero_close ++ suf)
              = (hero_attr ++ gt) ++ chr_gt :: (W ++ chr_lt :: rest)) as Hs'.
      { rewrite <- (app_assoc hero_attr gt), <- Hs. unfold hero_source. list_eq. }
      apply first_split in Hs' as [Hpre Hs'].
      2: { rewrite elem_of_app. intros [Hin|Hin]; [done|].
           revert Hin.
           apply (bool_decide_unpack (¬ (chr_gt ∈ chr_lt :: hero_open ++ hero_attr))). by vm_compute. }
      2: { rewrite elem_of_app. intros [Hin|Hin]; [|done].
           revert Hin. apply (bool_decide_unpack (¬ (chr_gt ∈ hero_attr))). by vm_compute. }
      apply first_split in Hs' as [<- <-]; [| |done].
      2: { apply (bool_decide_unpack (¬ (chr_lt ∈ hero_en))). by vm_compute. }
      destruct (sub_go_close fuel suf) as [Y HY]; [lia|]. rewrite HY.
      exists pre, Y. unfold hero_target.
      rewrite (app_assoc hero_attr gt), <- Hpre. list_eq.
  - destruct pre as [|c pre].
    + assert ([] ++ hero_source ++ suf
              = chr_lt :: (hero_open ++ hero_attr ++ chr_gt :: hero_en ++ chr_lt :: hero_close ++ suf)) as ->.
      { unfold hero_source. list_eq. }
      rewrite sub_go_none by done.
      destruct (sub_go_h1 fuel suf Hfuel) as [Y HY]. rewrite HY.
      exists [], Y. unfold hero_target. list_eq.
    + simpl app in *. cbn [Re.sub_go]. rewrite Hm.
      destruct (IH pre suf) as (X & Y & ->); [simpl in Hlen; lia|].
      by exists (c :: X), Y.
Qed.

Lemma list_ascii_of_string_app (a b : string) :
  list_ascii_of_string (a ++ b)%string
  = list_ascii_of_string a ++ list_ascii_of_string b.
Proof. induction a as [|c a IH]; [done|]. rewrite append_cons. simpl. by rewrite IH. Qed.

Lemma string_of_list_ascii_app (a b : list ascii) :
  string_of_list_ascii (a ++ b)
  = (string_of_list_ascii a ++ string_of_list_ascii b)%string.
Proof. induction a as [|c a IH]; [done|]. simpl. by rewrite append_cons, IH. Qed.


(** The row of [hero-title] on a document that holds the heading. *)
Lemma substitute_hero (pre suf : string) :
  ∃ before after,
    substitute "Capture the Moment"
      (pre ++ PyStr.q "<h1 id='hero-title'>Capture the Moment</h1>" ++ suf)
      "hero-title" "Captura el Momento"
    = Some (before ++ PyStr.q "<h1 id='hero-title'>Captura el Momento</h1>"
            ++ after)%string.
Proof.
  set (html := (pre ++ PyStr.q "<h1 id='hero-title'>Capture the Moment</h1>" ++ suf)%string).
  assert (list_ascii_of_string html
          = list_ascii_of_string pre ++ hero_source ++ list_ascii_of_string suf) as Hlist.
  { subst html. by rewrite !list_ascii_of_string_app. }
  unfold substitute.
  change (id_pattern "hero-title" "Capture the Moment") with hero_pattern.
  assert (Re.search false hero_pattern (list_ascii_of_string html) = true) as ->.
  { rewrite Hlist. unfold hero_source.
    replace (list_ascii_of_string pre
             ++ (chr_lt :: hero_open ++ hero_attr ++ chr_gt :: hero_en ++ chr_lt :: hero_close)
             ++ list_ascii_of_string suf)
      with ((list_ascii_of_string pre ++ chr_lt :: hero_open)
            ++ hero_attr ++ chr_gt :: hero_en ++ chr_lt :: (hero_close ++ list_ascii_of_string suf))
      by list_eq.
    apply search_app. rewrite match_snip. by eexists. }
  unfold Re.sub.
  destruct (Re.parse_template 1 _) as [ps|] eqn:Hps; [|by vm_compute in Hps].
  vm_compute in Hps. injection Hps as <-.
  change (λ g, Some (Re.expand _ g)) with hero_repl.
  unfold Re.sub_with. rewrite Hlist.
  destruct (sub_go_snip (S (length (list_ascii_of_string pre ++ hero_source
                                    ++ list_ascii_of_string suf)))
              (list_ascii_of_string pre) (list_ascii_of_string suf))
    as (X & Y & ->); [lia|].
  exists (string_of_list_ascii X), (string_of_list_ascii Y).
  by rewrite !string_of_list_ascii_app.
Qed.

Lemma after_rows_passed_over (html lang : string) (tr_en rows : table) :
  lang ≠ "en" → Forall (passed_over tr_en) rows →
  after_rows html lang tr_en rows = Some html.
Proof.
  intros Hlang Hall. induction Hall as [|item rows Hitem _ IH].
  - by rewrite after_rows_fold.
  - change (item :: rows) with ([item] ++ rows).
    rewrite (after_rows_app html lang tr_en [item] rows) by done.
    rewrite after_rows_one by done.
    by rewrite (translate_entry_passed_over tr_en item html Hitem).
Qed.

(** C8, as the code has it. A row that is not passed over is handled in
    two passes on the document that the rows before it have made: when the
    pattern anchored on the identifier matches somewhere, that pattern
    alone is replaced; when it matches nowhere, the text between two tags
    is replaced and then the text in the three attributes. For the row of
    [hero-title]: when the document that the row finds holds
    [<h1 id="hero-title">Capture the Moment</h1>], whatever stands before
    and after it, the document that the row leaves holds
    [<h1 id="hero-title">Captura el Momento</h1>], and so does the
    generated document when the rows after it are passed over. *)
Theorem substitution_by_identifier (html pre suf : string)
    (tr_en before after : table) :
  table_get (Some "hero-title") tr_en = Some "Capture the Moment" →
  after_rows html "es" tr_en before
  = Some (pre ++ PyStr.q "<h1 id='hero-title'>Capture the Moment</h1>" ++ suf)%string →
  Forall (passed_over tr_en) after →
  (∃ b a,
     after_rows html "es" tr_en (before ++ [hero_row])
     = Some (b ++ PyStr.q "<h1 id='hero-title'>Captura el Momento</h1>" ++ a)%string)
  ∧ (∃ b a,
       translate_content html "es"
         [("en", tr_en); ("es", before ++ hero_row :: after)]
       = Some (b ++ PyStr.q "<h1 id='hero-title'>Captura el Momento</h1>" ++ a)%string)
  ∧ (∀ (rows : table) (element_id en_text target_text : string),
       table_get (Some element_id) tr_en = Some en_text →
       en_text ≠ "" → en_text ≠ target_text →
       after_rows html "es" tr_en (rows ++ [(Some element_id, Some target_text)])
       = (doc ← after_rows html "es" tr_en rows;
          if Re.search false (id_pattern element_id en_text) (list_ascii_of_string doc)
          then Re.sub false (id_pattern element_id en_text) 1
                 (PyStr.q "id='" ++ element_id ++ PyStr.q "'"
                  ++ String Re.backslash "1" ++ ">" ++ target_text ++ "<") doc
          else
            doc ← Re.sub false (text_pattern en_text) 2
                    (String Re.backslash "1" ++ target_text
                     ++ String Re.backslash "2") doc;
            Re.sub true (attr_pattern en_text) 1
              (String Re.backslash "1" ++ PyStr.q "='" ++ target_text
               ++ PyStr.q "'") doc)).
Proof.
  intros Hen Hbefore Hafter.
  assert ("es" ≠ "en") as Hlang by discriminate.
  assert (∃ b a,
            after_rows html "es" tr_en (before ++ [hero_row])
            = Some (b ++ PyStr.q "<h1 id='hero-title'>Captura el Momento</h1>" ++ a)%string)
    as (b & a & Hrow).
  { rewrite after_rows_app, Hbefore, bind_Some, after_rows_one by done.
    unfold hero_row. cbn [fst snd]. rewrite Hen. apply substitute_hero. }
  split_and!.
  - by exists b, a.
  - exists b, a. fold (after_rows html "es" tr_en (before ++ hero_row :: after)).
    replace (before ++ hero_row :: after) with ((before ++ [hero_row]) ++ after)
      by (by rewrite <- app_assoc).
    rewrite after_rows_app, Hrow, bind_Some by done.
    by apply after_rows_passed_over.
  - intros rows element_id en_text target_text Hget Hne Hdiff.
    rewrite after_rows_app by done.
    destruct (after_rows html "es" tr_en rows) as [doc|]; [|done].
    rewrite !bind_Some, after_rows_one by done. cbn [fst snd]. rewrite Hget.
    unfold translate_entry. apply truthy_spec in Hne. rewrite Hne.
    rewrite bool_decide_eq_false_2 by congruence. reflexivity.
Qed.

(** The heading in a page, after a row that is passed over and one that
    translates a paragraph, and before a row without source text. *)
Lemma substitution_by_identifier_witness :
  let html :=
    PyStr.q "<body><p id='lead'>Hello</p><h1 id='hero-title'>Capture the Moment</h1></body>" in
  let tr_en := [(Some "lead", Some "Hello"); (Some "hero-title", Some "Capture the Moment");
                (Some "brand", Some "Lenko")] in
  let before := [(Some "brand", Some "Lenko"); (Some "lead", Some "Hola")] in
  let after := [(Some "footer", Some "Pie")] in
  ∃ b a,
    translate_content html "es" [("en", tr_en); ("es", before ++ hero_row :: after)]
    = Some (b ++ PyStr.q "<h1 id='hero-title'>Captura el Momento</h1>" ++ a)%string.
Proof.
  intros html tr_en before after.
  destruct (substitution_by_identifier html (PyStr.q "<body><p id='lead'>Hola</p>")
              "</body>" tr_en before after) as (_ & Hdoc & _).
  - reflexivity.
  - vm_compute. reflexivity.
  - repeat constructor.
  - exact Hdoc.
Defined.

(** C8, as stated, fails on a Store in which another row rewrites the
    text: here the source text of a later row is the target text of
    [hero-title], and the heading ends up with the target text of that
    row. *)
Lemma substitution_rewritten_by_another_row :
  translate_content (PyStr.q "<h1 id='hero-title'>Capture the Moment</h1>") "es"
    [("en", [(Some "hero-title", Some "Capture the Moment");
             (Some "tagline", Some "Captura el Momento")]);
     ("es", [hero_row; (Some "tagline", Some "Lema")])]
  = Some (PyStr.q "<h1 id='hero-title'>Lema</h1>")
  ∧ PyStr.substring_in (PyStr.q "<h1 id='hero-title'>Captura el Momento</h1>")
      (PyStr.q "<h1 id='hero-title'>Lema</h1>") = false.
Proof. split; vm_compute; reflexivity. Qed.

(** The two passes on small documents, and the whole of [transform] on a
    page. *)
Lemma substitution_examples :
  translate_content (PyStr.q "<h1 id='t'>Hi</h1><p>Hi</p>") "es"
    [("en", [(Some "t", Some "Hi")]); ("es", [(Some "t", Some "Hola")])]
  = Some (PyStr.q "<h1 id='t'>Hola</h1><p>Hi</p>")
  ∧ translate_content
      (PyStr.q "<a href='contact.html'>Book a Shoot</a><input placeholder='Book a Shoot'>")
      "es" [("en", [(Some "book_a_shoot", Some "Book a Shoot")]);
            ("es", [(Some "book_a_shoot", Some "Reserva")])]
    = Some (PyStr.q "<a href='contact.html'>Reserva</a><input placeholder='Reserva'>")
  ∧ transform
      (PyStr.q ("<html lang='en'><head><meta name='viewport' content='w'>"
                ++ "<title>Home</title><link href='style.css'></head><body>"
                ++ "<site-header></site-header>"
                ++ "<h1 id='hero-title'>Capture the Moment</h1></body></html>"))
      "index" "es" sample_metadata
      [("en", [(Some "hero-title", Some "Capture the Moment")]); ("es", [hero_row])]
      false
    = Some (PyStr.q ("<html lang='es'><head><meta name='viewport' content='w'>"
              ++ PyStr.nl ++ "    <!-- Alternate language versions for SEO -->"
              ++ PyStr.nl
              ++ "    <link rel='alternate' hreflang='en' href='index.html' />"
              ++ PyStr.nl
              ++ "    <link rel='alternate' hreflang='es' href='es/index.html' />"
              ++ PyStr.nl
              ++ "    <link rel='alternate' hreflang='x-default' href='index.html' />"
              ++ PyStr.nl
              ++ "<title>Lenko Studio</title><link href='../style.css'></head><body>"
              ++ "<site-header lang='es'></site-header>"
              ++ "<h1 id='hero-title'>Captura el Momento</h1></body></html>")).
Proof. split_and!; vm_compute; reflexivity. Qed.

End Hero.

(** ** A second run over the Store of the first *)

Lemma row_dict_get (r : Row.t) :
  row_get (row_dict r) "page" = Row.page r
  ∧ row_get (row_dict r) "id" = Row.id r
  ∧ row_get (row_dict r) "es" = Row.es r.
Proof. destruct r. split_and!; reflexivity. Qed.

Lemma fold_left_rel {A A' B : Type} (R : A → A' → Prop)
    (f : A → B → A) (f' : A' → B → A') (l : list B) :
  (∀ a a' b, R a a' → R (f a b) (f' a' b)) →
  ∀ a a', R a a' → R (fold_left f l a) (fold_left f' l a').
Proof.
  intros Hf. induction l as [|b l IH]; intros a a' Ha; simpl; [done|].
  by apply IH, Hf.
Qed.

Lemma filter_all {A : Type} (P : A → Prop) `{∀ x, Decision (P x)} (l : list A) :
  Forall P l → filter P l = l.
Proof.
  induction 1 as [|x l Hx _ IH]; [done|].
  rewrite filter_cons. destruct (decide (P x)); [by rewrite IH|done].
Qed.

Lemma Forall2_filter {A B : Type} (R : A → B → Prop) (P : A → Prop) (Q : B → Prop)
    `{∀ x, Decision (P x)} `{∀ y, Decision (Q y)} (l : list A) (l' : list B) :
  (∀ x y, R x y → P x ↔ Q y) →
  Forall2 R l l' → Forall2 R (filter P l) (filter Q l').
Proof.
  intros HPQ. induction 1 as [|x y l l' Hxy _ IH]; [constructor|].
  rewrite !filter_cons. specialize (HPQ x y Hxy).
  destruct (decide (P x)), (decide (Q y)); try tauto. by constructor.
Qed.

Lemma Forall2_elem_of_r {A B : Type} (R : A → B → Prop) (l : list A) (l' : list B) (y : B) :
  Forall2 R l l' → y ∈ l' → ∃ x, x ∈ l ∧ R x y.
Proof.
  induction 1 as [|x y' l l' Hxy _ IH]; [by intros ?%elem_of_nil|].
  intros [->|Hy]%elem_of_cons.
  - exists x. split; [by left|done].
  - destruct (IH Hy) as (x' & Hx' & HR). exists x'. split; [by right|done].
Qed.

Section Lockstep.
Context (P : PyDict.t (PyDict.t (PyDict.t content))).
Context (T : PyDict.t (PyDict.t string)).
Context (E E' : gmap string csv_row).

Lemma merge_id_rel (page : string) (st st' : merge_state)
    (item : string * PyDict.t content) :
  merge_rel T E E' st st' →
  merge_rel T E E' (merge_id T E page st item) (merge_id T E' page st' item).
Proof.
  intros [Hproc Hrows]. destruct item as [element_id content_data].
  unfold merge_id. rewrite <- Hproc.
  case_bool_decide; [done|].
  destruct (negb _ || negb _); split; simpl; try done.
  apply Forall2_app; [done|]. constructor; [|constructor].
  by eexists _, _, _, _.
Qed.

Lemma create_updated_csv_rel :
  Forall2 (same_candidate T E E')
    (create_updated_csv P T E) (create_updated_csv P T E').
Proof.
  unfold create_updated_csv.
  apply (fold_left_rel (merge_rel T E E')).
  - intros a a' [page ids] Ha. unfold merge_page. simpl.
    apply (fold_left_rel (merge_rel T E E')); [|done].
    intros b b' item Hb. by apply merge_id_rel.
  - split; [done|constructor].
Qed.

End Lockstep.

Lemma same_candidate_key T E E' r r' : same_candidate T E E' r r' → same_key r r'.
Proof. by intros (? & ? & ? & ? & -> & ->). Qed.

Lemma dedup_step_rel (st st' : dedup_state) (r r' : Row.t) :
  same_key r r' → dedup_rel st st' → dedup_rel (dedup_step st r) (dedup_step st' r').
Proof.
  intros [Hid Hen] [Hrows Hseen]. unfold dedup_step. rewrite <- Hen, <- Hid.
  assert (∀ t, option_Forall2 same_key
            (<[Row.en r := r]> (seen_text st) !! t)
            (<[Row.en r := r']> (seen_text st') !! t)) as Hins.
  { intros t. destruct (decide (Row.en r = t)) as [<-|Hne].
    - rewrite !lookup_insert_eq. by constructor.
    - rewrite !lookup_insert_ne by done. apply Hseen. }
  destruct (Hseen (Row.en r)) as [old old' [Hoid Hoen]|].
  - rewrite <- Hoid. case_bool_decide; [|done].
    split; simpl; [|done].
    apply Forall2_app; [|by repeat constructor].
    apply Forall2_filter; [|done].
    intros x y [Hxy _]. by rewrite Hxy.
  - split; simpl; [|done].
    apply Forall2_app; [done|by repeat constructor].
Qed.

Lemma deduplicate_rel (l l' : list Row.t) :
  Forall2 same_key l l' → Forall2 same_key (deduplicate l) (deduplicate l').
Proof.
  intros Hl. unfold deduplicate.
  assert (∀ st st', dedup_rel st st' →
            dedup_rel (fold_left dedup_step l st) (fold_left dedup_step l' st')) as Hfold.
  { induction Hl as [|r r' l l' Hr _ IH]; intros st st' Hst; simpl; [done|].
    by apply IH, dedup_step_rel. }
  apply Hfold. split; simpl; [constructor|].
  intros t. rewrite !lookup_empty. constructor.
Qed.

Lemma index_rows_fold (rows : list csv_row) :
  index_rows rows = fold_left index_step rows ∅.
Proof. reflexivity. Qed.

Lemma index_fold_other (l : list Row.t) (m : gmap string csv_row) (x : string) :
  (∀ r, r ∈ l → Row.id r ≠ x) →
  fold_left index_step (row_dict <$> l) m !! x = m !! x.
Proof.
  revert m. induction l as [|r l IH]; intros m Hl; simpl; [done|].
  rewrite IH by (intros r' Hr'; apply Hl; by right).
  unfold index_step. destruct (row_dict_get r) as (_ & -> & _).
  destruct (PyStr.truthy (Row.id r)); [|done].
  apply lookup_insert_ne. apply Hl. by left.
Qed.

Lemma index_fold_empty_key (rows : list csv_row) (m : gmap string csv_row) :
  fold_left index_step rows m !! "" = m !! "".
Proof.
  revert m. induction rows as [|row rows IH]; intros m; simpl; [done|].
  rewrite IH. unfold index_step.
  destruct (PyStr.truthy (row_get row "id")) eqn:Hid; [|done].
  apply lookup_insert_ne. intros Heq. rewrite Heq in Hid. done.
Qed.

Lemma index_rows_empty_key (rows : list csv_row) : index_rows rows !! "" = None.
Proof. rewrite index_rows_fold, index_fold_empty_key. apply lookup_empty. Qed.

Lemma index_fold_elem (l : list Row.t) (m : gmap string csv_row) (r : Row.t) :
  NoDup (Row.id <$> l) → r ∈ l → Row.id r ≠ "" →
  fold_left index_step (row_dict <$> l) m !! Row.id r = Some (row_dict r).
Proof.
  revert m. induction l as [|r0 l IH]; intros m Hnd Hr Hid; [by apply elem_of_nil in Hr|].
  rewrite fmap_cons, NoDup_cons in Hnd. destruct Hnd as [Hr0 Hnd].
  simpl. apply elem_of_cons in Hr as [->|Hr]; [|by apply IH].
  rewrite index_fold_other.
  - unfold index_step. destruct (row_dict_get r0) as (_ & -> & _).
    apply truthy_spec in Hid as ->. apply lookup_insert_eq.
  - intros r' Hr' Heq. apply Hr0. rewrite <- Heq. by apply list_elem_of_fmap_2.
Qed.

Lemma candidate_row_reread (T : PyDict.t (PyDict.t string))
    (E : gmap string csv_row) (page x en_content es_content : string) (m : gmap string csv_row) :
  let r := candidate_row T E page x en_content es_content in
  m !! x = Some (row_dict r) →
  candidate_row T m page x en_content es_content = r.
Proof.
  intros r Hm. unfold candidate_row at 1. rewrite Hm.
  destruct (row_dict_get r) as (-> & _ & ->).
  subst r. unfold candidate_row. simpl.
  destruct (E !! x) as [row|]; simpl.
  - destruct (PyStr.truthy (row_get row "es")) eqn:Hes;
      destruct (PyStr.truthy (row_get row "page")) eqn:Hpage;
      rewrite ?Hes, ?Hpage; try done;
      repeat match goal with
             | |- context [if PyStr.truthy ?s then ?s else ?s] =>
                 replace (if PyStr.truthy s then s else s) with s
                   by (by destruct (PyStr.truthy s))
             end; done.
  - repeat match goal with
           | |- context [if PyStr.truthy ?s then ?s else ?s] =>
               replace (if PyStr.truthy s then s else s) with s
                 by (by destruct (PyStr.truthy s))
           end; done.
Qed.

Lemma candidate_row_no_key (T : PyDict.t (PyDict.t string))
    (E E' : gmap string csv_row) (page x en_content es_content : string) :
  E !! x = None → E' !! x = None →
  candidate_row T E' page x en_content es_content
  = candidate_row T E page x en_content es_content.
Proof. intros H H'. unfold candidate_row. by rewrite H, H'. Qed.

Lemma reconcile_NoDup (P : PyDict.t (PyDict.t (PyDict.t content)))
    (T : PyDict.t (PyDict.t string)) (E : gmap string csv_row) :
  NoDup (Row.id <$> reconcile P T E).
Proof.
  unfold reconcile, deduplicate.
  destruct (create_updated_csv_inv P T E) as [Hnodup _].
  apply (NoDup_fmap_filter Row.id (λ row, Row.status row = "active")) in Hnodup.
  by destruct (deduplicate_inv _ Hnodup) as (_ & ? & _).
Qed.

Lemma active_rows_all (P : PyDict.t (PyDict.t (PyDict.t content)))
    (T : PyDict.t (PyDict.t string)) (E : gmap string csv_row) :
  active_rows (create_updated_csv P T E) = create_updated_csv P T E.
Proof.
  apply filter_all. destruct (create_updated_csv_inv P T E) as [_ H0].
  eapply Forall_impl; [exact H0|]. by intros r [[? _] _].
Qed.

Lemma reconcile_reread (P : PyDict.t (PyDict.t (PyDict.t content)))
    (T : PyDict.t (PyDict.t string)) (E : gmap string csv_row) :
  E !! "" = None →
  reconcile P T (index_rows (row_dict <$> reconcile P T E)) = reconcile P T E.
Proof.
  intros Hempty.
  set (out := reconcile P T E). set (E' := index_rows (row_dict <$> out)).
  assert (NoDup (Row.id <$> out)) as Hout by apply reconcile_NoDup.
  destruct (create_updated_csv_inv P T E) as [Hnd _].
  pose proof (create_updated_csv_rel P T E E') as Hrel.
  assert (Forall2 same_key out (reconcile P T E')) as Hkeys.
  { unfold out, reconcile. rewrite !active_rows_all. apply deduplicate_rel.
    eapply Forall2_impl; [exact Hrel|]. intros r r'. apply same_candidate_key. }
  symmetry. apply list_eq_Forall2.
  apply Forall2_same_length_lookup. split; [by eapply Forall2_length|].
  intros i r r' Hr Hr'.
  assert (same_key r r') as [Hid Hen] by (by eapply Forall2_lookup_lr).
  apply list_elem_of_lookup_2 in Hr, Hr'.
  apply reconcile_created in Hr' as Hc'.
  destruct (Forall2_elem_of_r _ _ _ r' Hrel Hc')
    as (r0 & Hr0 & page & x & en_content & es_content & Hr0eq & Hr'eq).
  assert (r0 = r) as ->.
  { apply (NoDup_fmap_eq Row.id (create_updated_csv P T E)); [done..| |].
    - by apply reconcile_created.
    - rewrite Hid, Hr0eq, Hr'eq. done. }
  rewrite Hr'eq, Hr0eq.
  assert (Row.id r = x) as Hx by (by rewrite Hr0eq).
  destruct (decide (x = "")) as [->|Hne].
  - symmetry. apply candidate_row_no_key; [done|]. apply index_rows_empty_key.
  - symmetry. apply candidate_row_reread. rewrite <- Hr0eq, <- Hx.
    unfold E'. rewrite index_rows_fold. apply index_fold_elem; [done|done|by rewrite Hx].
Qed.

(** X1. A second reconciliation over the same scanned maps, with the rows
    of the first as the prior Store, gives the rows of the first again, in
    the same order: translations and pages that were stored stay, and no row
    comes or goes. The prior Store of the first is any that
    [load_existing_csv] builds. *)
Theorem reconcile_again_same_rows
    (page_ids : PyDict.t (PyDict.t (PyDict.t content)))
    (tag_info : PyDict.t (PyDict.t string)) (prior : list csv_row) :
  let first := reconcile page_ids tag_info (index_rows prior) in
  reconcile page_ids tag_info (index_rows (row_dict <$> first)) = first.
Proof. intros first. apply reconcile_reread, index_rows_empty_key. Qed.

(** ** The Store file written and read back *)

Section Csv_facts.
Import Csv.

Lemma at_line_start (self : reader) : at_line self [] self.
Proof. by intros rest. Qed.

Lemma reads_refl (self : reader) : reads self "" self.
Proof.
  intros self0 cur Hat. exists self0, cur. split; [done|].
  intros s. by rewrite append_nil_l.
Qed.

Lemma reads_trans (a b c : reader) (t1 t2 : string) :
  reads a t1 b → reads b t2 c → reads a (t1 ++ t2)%string c.
Proof.
  intros H1 H2 self0 cur Hat.
  destruct (H1 self0 cur Hat) as (self1 & cur1 & Hat1 & Heq1).
  destruct (H2 self1 cur1 Hat1) as (self2 & cur2 & Hat2 & Heq2).
  exists self2, cur2. split; [done|].
  intros s. by rewrite append_assoc, Heq1, Heq2.
Qed.

Lemma reads_char (self self' : reader) (c : ascii) :
  c ≠ lf → parse_process_char self (Some c) = Some self' →
  reads self (String c "") self'.
Proof.
  intros Hc Hstep self0 cur Hat. exists self0, (c :: cur). split.
  - intros rest. simpl. rewrite <- app_assoc. simpl.
    rewrite Hat. simpl. by rewrite Hstep.
  - intros s. unfold resume. rewrite append_cons, append_nil_l. simpl.
    apply Ascii.eqb_neq in Hc. by rewrite Hc.
Qed.

Lemma resume_lf (self0 self self' self'' : reader) (cur : list ascii) (s : string) :
  at_line self0 cur self →
  parse_process_char self (Some lf) = Some self' →
  parse_process_char self' None = Some self'' →
  resume self0 cur (String lf s) =
    match state self'' with
    | START_RECORD => yield (rev (fields self'')) (resume parse_reset [] s)
    | _ => resume self'' [] s
    end.
Proof.
  intros Hat Hlf Hend. unfold resume. simpl lines_go.
  change (rev (lf :: cur)) with (rev cur ++ [lf]).
  simpl records_go. rewrite Hat. simpl process_line. rewrite Hlf, Hend.
  done.
Qed.

Lemma reads_lf (self self' self'' : reader) :
  parse_process_char self (Some lf) = Some self' →
  parse_process_char self' None = Some self'' →
  state self'' ≠ START_RECORD →
  reads self (String lf "") self''.
Proof.
  intros Hlf Hend Hstate self0 cur Hat. exists self'', []. split; [apply at_line_start|].
  intros s. rewrite append_cons, append_nil_l.
  rewrite (resume_lf _ _ _ _ _ _ Hat Hlf Hend).
  by destruct (state self'').
Qed.


Lemma eqb_false_sym (a b : ascii) : Ascii.eqb a b = false → b ≠ a.
Proof. intros H ->. by rewrite Ascii.eqb_refl in H. Qed.

Lemma contains_cons (c c' : ascii) (t : string) :
  PyStr.contains c (String c' t) = if Ascii.eqb c c' then true else PyStr.contains c t.
Proof. reflexivity. Qed.

Lemma needs_quotes_cons (c : ascii) (t : string) :
  needs_quotes (String c t) = false →
  (c ≠ comma ∧ c ≠ dq ∧ c ≠ cr ∧ c ≠ lf) ∧ needs_quotes t = false.
Proof.
  unfold needs_quotes. rewrite !contains_cons.
  destruct (Ascii.eqb comma c) eqn:H1; [done|].
  destruct (Ascii.eqb dq c) eqn:H2; [by rewrite orb_true_r|].
  destruct (Ascii.eqb cr c) eqn:H3; [by rewrite !orb_true_r|].
  destruct (Ascii.eqb lf c) eqn:H4; [by rewrite !orb_true_r|].
  intros ->. split; [|done].
  split_and!; by apply eqb_false_sym.
Qed.

Lemma plain_step (c : ascii) :
  c ≠ comma → c ≠ dq → c ≠ cr → c ≠ lf →
  is_newline c = false ∧ Ascii.eqb c dq = false ∧ Ascii.eqb c comma = false.
Proof.
  intros. unfold is_newline. split_and!; [apply orb_false_intro|..];
    by apply Ascii.eqb_neq.
Qed.

Lemma parse_add_char_fits (self : reader) (c : ascii) (st : parser_state) :
  (N.of_nat (length (field self)) < field_limit)%N →
  parse_add_char self c st
  = Some {| state := st; field := c :: field self; fields := fields self |}.
Proof. intros H. unfold parse_add_char. apply N.leb_gt in H. by rewrite H. Qed.

Lemma fits_cons (c : ascii) (t : string) (fl : list ascii) :
  (N.of_nat (String.length (String c t) + length fl) ≤ field_limit)%N →
  (N.of_nat (length fl) < field_limit)%N
  ∧ (N.of_nat (String.length t + length (c :: fl)) ≤ field_limit)%N.
Proof.
  cbn [String.length length]. rewrite Nat.add_succ_r. cbn [Nat.add]. lia.
Qed.

Lemma reads_in_field (f : string) (fl : list ascii) (fs : list string) :
  needs_quotes f = false →
  (N.of_nat (String.length f + length fl) ≤ field_limit)%N →
  reads {| state := IN_FIELD; field := fl; fields := fs |} f
    {| state := IN_FIELD; field := rev (list_ascii_of_string f) ++ fl; fields := fs |}.
Proof.
  revert fl. induction f as [|c t IH]; intros fl Hq Hlen; [apply reads_refl|].
  apply needs_quotes_cons in Hq as [(H1 & H2 & H3 & H4) Hq].
  destruct (plain_step c H1 H2 H3 H4) as (Hn & Hd & Hc).
  apply fits_cons in Hlen as [Hfl Hlen].
  replace (String c t) with (String c "" ++ t)%string
    by (by rewrite append_cons, append_nil_l).
  simpl list_ascii_of_string. simpl rev. rewrite <- app_assoc. simpl app.
  eapply reads_trans; [|by apply IH].
  apply reads_char; [done|].
  unfold parse_process_char. cbn [state]. rewrite Hn, Hc.
  by apply parse_add_char_fits.
Qed.

Lemma reads_plain (st : parser_state) (f : string) (fs : list string) :
  starting st → needs_quotes f = false → f ≠ "" →
  (N.of_nat (String.length f) ≤ field_limit)%N →
  reads {| state := st; field := []; fields := fs |} f
    {| state := IN_FIELD; field := rev (list_ascii_of_string f); fields := fs |}.
Proof.
  intros Hst Hq Hf Hlen. destruct f as [|c t]; [done|].
  apply needs_quotes_cons in Hq as [(H1 & H2 & H3 & H4) Hq].
  destruct (plain_step c H1 H2 H3 H4) as (Hn & Hd & Hc).
  rewrite <- (Nat.add_0_r (String.length (String c t))) in Hlen.
  apply (fits_cons c t []) in Hlen as [Hfl Hlen].
  replace (String c t) with (String c "" ++ t)%string
    by (by rewrite append_cons, append_nil_l).
  simpl list_ascii_of_string. simpl rev.
  eapply reads_trans; [|by apply reads_in_field].
  apply reads_char; [done|].
  unfold parse_process_char.
  destruct Hst as [-> | ->]; cbn [state]; rewrite Hn, Hd, Hc;
    by apply parse_add_char_fits.
Qed.

Lemma reads_quoted_body (f : string) (fl : list ascii) (fs : list string) :
  (N.of_nat (String.length f + length fl) ≤ field_limit)%N →
  reads {| state := IN_QUOTED_FIELD; field := fl; fields := fs |} (double_quotes f)
    {| state := IN_QUOTED_FIELD; field := rev (list_ascii_of_string f) ++ fl;
       fields := fs |}.
Proof.
  revert fl. induction f as [|c t IH]; intros fl Hlen; [apply reads_refl|].
  apply fits_cons in Hlen as [Hfl Hlen].
  simpl list_ascii_of_string. simpl rev. rewrite <- app_assoc. simpl app.
  simpl double_quotes. destruct (Ascii.eqb c dq) eqn:Hd.
  - apply Ascii.eqb_eq in Hd as ->.
    replace (String dq (String dq (double_quotes t)))
      with (String dq "" ++ (String dq "" ++ double_quotes t))%string
      by (by rewrite !append_cons, !append_nil_l).
    eapply reads_trans; [|eapply reads_trans; [|by apply IH]].
    + apply reads_char; [done|]. reflexivity.
    + apply reads_char; [done|].
      unfold parse_process_char. cbn [state set_state].
      rewrite Ascii.eqb_refl. by apply parse_add_char_fits.
  - replace (String c (double_quotes t))
      with (String c "" ++ double_quotes t)%string
      by (by rewrite append_cons, append_nil_l).
    eapply reads_trans; [|by apply IH].
    assert (parse_process_char {| state := IN_QUOTED_FIELD; field := fl; fields := fs |}
              (Some c)
            = Some {| state := IN_QUOTED_FIELD; field := c :: fl; fields := fs |})
      as Hstep.
    { unfold parse_process_char. cbn [state]. rewrite Hd.
      by apply parse_add_char_fits. }
    destruct (Ascii.eqb c lf) eqn:Hl.
    + apply Ascii.eqb_eq in Hl as ->.
      eapply reads_lf; [exact Hstep|reflexivity|done].
    + apply reads_char; [by apply Ascii.eqb_neq|exact Hstep].
Qed.

Lemma reads_field (st : parser_state) (f : string) (fs : list string) :
  starting st → (N.of_nat (String.length f) ≤ field_limit)%N →
  reads {| state := st; field := []; fields := fs |} (write_field f)
    (after_field st f fs).
Proof.
  intros Hst Hlen. unfold write_field, after_field.
  destruct (needs_quotes f) eqn:Hq.
  - replace (String dq (double_quotes f ++ String dq ""))
      with (String dq "" ++ (double_quotes f ++ String dq ""))%string
      by (by rewrite append_cons, append_nil_l).
    eapply reads_trans; [|eapply reads_trans; [apply reads_quoted_body|]].
    + apply reads_char; [done|]. by destruct Hst as [-> | ->].
    + cbn [length]. by rewrite Nat.add_0_r.
    + rewrite app_nil_r. apply reads_char; [done|]. reflexivity.
  - case_bool_decide as Hf; [subst; apply reads_refl|].
    by apply reads_plain.
Qed.

Lemma string_of_rev_rev (f : string) :
  string_of_list_ascii (rev (rev (list_ascii_of_string f))) = f.
Proof. by rewrite rev_involutive, string_of_list_ascii_of_string. Qed.

Lemma after_field_comma (st : parser_state) (f : string) (fs : list string) :
  starting st →
  parse_process_char (after_field st f fs) (Some comma)
  = Some {| state := START_FIELD; field := []; fields := f :: fs |}.
Proof.
  intros Hst. unfold after_field. destruct (needs_quotes f).
  - unfold parse_process_char, parse_save_field. simpl. by rewrite string_of_rev_rev.
  - case_bool_decide as Hf.
    + subst. by destruct Hst as [-> | ->].
    + unfold parse_process_char, parse_save_field. simpl. by rewrite string_of_rev_rev.
Qed.

Lemma after_field_lf (f : string) (fs : list string) :
  parse_process_char (after_field START_FIELD f fs) (Some lf)
  = Some {| state := EAT_CRNL; field := []; fields := f :: fs |}.
Proof.
  unfold after_field. destruct (needs_quotes f).
  - unfold parse_process_char, parse_save_field. simpl. by rewrite string_of_rev_rev.
  - case_bool_decide as Hf.
    + by subst.
    + unfold parse_process_char, parse_save_field. simpl. by rewrite string_of_rev_rev.
Qed.

Lemma reads_field_comma (st : parser_state) (f : string) (fs : list string) :
  starting st → (N.of_nat (String.length f) ≤ field_limit)%N →
  reads {| state := st; field := []; fields := fs |}
    (write_field f ++ String comma "")%string
    {| state := START_FIELD; field := []; fields := f :: fs |}.
Proof.
  intros Hst Hlen. eapply reads_trans; [by apply reads_field|].
  apply reads_char; [done|]. by apply after_field_comma.
Qed.

Lemma resume_last_field (self0 : reader) (cur : list ascii)
    (f : string) (fs : list string) (s : string) :
  (N.of_nat (String.length f) ≤ field_limit)%N →
  at_line self0 cur {| state := START_FIELD; field := []; fields := fs |} →
  resume self0 cur (write_field f ++ PyStr.nl ++ s)%string
  = yield (rev (f :: fs)) (resume parse_reset [] s).
Proof.
  intros Hlen Hat.
  destruct (reads_field START_FIELD f fs (or_intror eq_refl) Hlen self0 cur Hat)
    as (self1 & cur1 & Hat1 & ->).
  unfold PyStr.nl. rewrite append_cons, append_nil_l.
  by rewrite (resume_lf _ _ _ _ _ _ Hat1 (after_field_lf f fs) eq_refl).
Qed.

Lemma join_cons_cons (sep x y : string) (l : list string) :
  PyStr.join sep (x :: y :: l) = (x ++ sep ++ PyStr.join sep (y :: l))%string.
Proof. reflexivity. Qed.

Lemma nl_record_cons (a : string) (l : list string) :
  l ≠ [] →
  nl_record (a :: l) = ((write_field a ++ String comma "") ++ nl_record l)%string.
Proof.
  intros Hl. unfold nl_record. destruct l as [|y m]; [done|].
  change (map write_field (a :: y :: m))
    with (write_field a :: write_field y :: map write_field m).
  rewrite join_cons_cons. by rewrite !append_assoc.
Qed.

Lemma resume_record (l : list string) (f : string) (st : parser_state)
    (fs : list string) (self0 : reader) (cur : list ascii) (s : string) :
  Forall (λ v, (N.of_nat (String.length v) ≤ field_limit)%N) (l ++ [f]) →
  starting st → (l = [] → st = START_FIELD) →
  at_line self0 cur {| state := st; field := []; fields := fs |} →
  resume self0 cur (nl_record (l ++ [f]) ++ s)%string
  = yield (rev fs ++ l ++ [f]) (resume parse_reset [] s).
Proof.
  revert st fs self0 cur.
  induction l as [|a l IH]; intros st fs self0 cur Hlen Hst Hl Hat.
  - apply Forall_inv in Hlen.
    rewrite (Hl eq_refl) in Hat. unfold nl_record. simpl map.
    change (PyStr.join (String comma "") [write_field f]) with (write_field f).
    rewrite append_assoc. by rewrite (resume_last_field self0 cur f fs).
  - change ((a :: l) ++ [f]) with (a :: (l ++ [f])) in *.
    apply Forall_cons in Hlen as [Ha Hlen].
    rewrite nl_record_cons by (by destruct l).
    rewrite append_assoc.
    destruct (reads_field_comma st a fs Hst Ha self0 cur Hat)
      as (self1 & cur1 & Hat1 & ->).
    rewrite (IH START_FIELD (a :: fs) self1 cur1); [|done|by right|done|done].
    simpl rev. by rewrite <- app_assoc.
Qed.

(** A record of two fields or more, read from the start of a line. *)
Lemma resume_record_reset (a : string) (l : list string) (f : string) (s : string) :
  Forall (λ v, (N.of_nat (String.length v) ≤ field_limit)%N) (a :: l ++ [f]) →
  resume parse_reset [] (nl_record (a :: l ++ [f]) ++ s)%string
  = yield (a :: l ++ [f]) (resume parse_reset [] s).
Proof.
  intros Hlen.
  apply (resume_record (a :: l) f START_RECORD [] parse_reset []);
    [done|by left|done|apply at_line_start].
Qed.

(** *** What the text layer does to the written file *)

Lemma contains_app (c : ascii) (a b : string) :
  PyStr.contains c (a ++ b)%string = PyStr.contains c a || PyStr.contains c b.
Proof.
  induction a as [|c' a IH]; [by rewrite append_nil_l|].
  rewrite append_cons, !contains_cons. by destruct (Ascii.eqb c c').
Qed.

Lemma cr_free_double_quotes (f : string) :
  cr_free f → cr_free (double_quotes f).
Proof.
  unfold cr_free. induction f as [|c t IH]; [done|].
  rewrite contains_cons. destruct (Ascii.eqb cr c) eqn:Hc; [done|].
  intros Ht. simpl double_quotes. destruct (Ascii.eqb c dq) eqn:Hd.
  - apply Ascii.eqb_eq in Hd as ->. rewrite !contains_cons.
    change (Ascii.eqb cr dq) with false. cbv iota. by apply IH.
  - rewrite contains_cons, Hc. by apply IH.
Qed.

Lemma cr_free_write_field (f : string) : cr_free f → cr_free (write_field f).
Proof.
  intros Hf. unfold write_field. destruct (needs_quotes f); [|done].
  unfold cr_free. rewrite contains_cons. change (Ascii.eqb cr dq) with false.
  cbv iota. rewrite contains_app, (cr_free_double_quotes f Hf). reflexivity.
Qed.

Lemma cr_free_join (l : list string) :
  Forall cr_free l → cr_free (PyStr.join (String comma "") (map write_field l)).
Proof.
  induction 1 as [|f l Hf Hl IH]; [done|].
  destruct l as [|y m]; [by apply cr_free_write_field|].
  change (map write_field (f :: y :: m))
    with (write_field f :: write_field y :: map write_field m).
  rewrite join_cons_cons. unfold cr_free. rewrite !contains_app.
  rewrite (cr_free_write_field f Hf). rewrite IH. reflexivity.
Qed.

Lemma universal_newlines_line (a t : string) :
  cr_free a →
  universal_newlines (a ++ String cr (String lf t))%string
  = (a ++ String lf (universal_newlines t))%string.
Proof.
  unfold cr_free. induction a as [|c a IH]; intros Ha.
  - rewrite !append_nil_l. reflexivity.
  - rewrite contains_cons in Ha. destruct (Ascii.eqb cr c) eqn:Hc; [done|].
    rewrite !append_cons. simpl universal_newlines.
    rewrite Ascii.eqb_sym, Hc. by rewrite IH.
Qed.

Lemma universal_newlines_record (fields : list string) (t : string) :
  Forall cr_free fields →
  universal_newlines (write_record fields ++ t)%string
  = (nl_record fields ++ universal_newlines t)%string.
Proof.
  intros Hf. unfold write_record, nl_record, PyStr.nl.
  rewrite !append_assoc, !append_cons, !append_nil_l.
  apply universal_newlines_line. by apply cr_free_join.
Qed.


Lemma universal_newlines_rows (rows : list Row.t) :
  Forall (λ r, Forall cr_free (Row.values r)) rows →
  universal_newlines (PyStr.join "" (map (λ r, write_record (Row.values r)) rows))
  = PyStr.join "" (map (λ r, nl_record (Row.values r)) rows).
Proof.
  induction 1 as [|r rows Hr _ IH]; [done|].
  simpl map. rewrite !join_empty_cons.
  by rewrite universal_newlines_record, IH.
Qed.

Lemma resume_rows (rows : list Row.t) :
  Forall (λ r, Forall (λ v, (N.of_nat (String.length v) ≤ field_limit)%N)
                 (Row.values r)) rows →
  resume parse_reset [] (PyStr.join "" (map (λ r, nl_record (Row.values r)) rows))
  = Some (map Row.values rows).
Proof.
  induction 1 as [|r rows Hr _ IH]; [done|].
  simpl map. rewrite join_empty_cons.
  destruct r as [p a st t i e es].
  change (Row.values (Row.mk p a st t i e es)) with (p :: [a; st; t; i; e] ++ [es]) in *.
  by rewrite resume_record_reset, IH.
Qed.

Lemma filter_records (rows : list Row.t) :
  List.filter (λ row, negb (bool_decide (row = []))) (map Row.values rows)
  = map Row.values rows.
Proof.
  induction rows as [|r rows IH]; [done|]. simpl. by rewrite IH.
Qed.

Lemma fieldnames_cr_free : Forall cr_free fieldnames.
Proof. repeat constructor. Qed.

Lemma fieldnames_split :
  fieldnames = "page" :: ["address"; "status"; "tag"; "id"; "en"] ++ ["es"].
Proof. reflexivity. Qed.

Lemma read_header (s : string) :
  resume parse_reset [] (nl_record fieldnames ++ s)%string
  = yield fieldnames (resume parse_reset [] s).
Proof.
  rewrite fieldnames_split. apply resume_record_reset.
  repeat constructor; by vm_compute.
Qed.

Lemma reader_records_resume (file : string) :
  reader_records file = resume parse_reset [] (universal_newlines file).
Proof. reflexivity. Qed.

(** The records of a written Store, read back. *)
Lemma reader_records_DictWriter (rows : list Row.t) :
  Forall (λ r, Forall readable (Row.values r)) rows →
  reader_records (DictWriter rows) = Some (fieldnames :: map Row.values rows).
Proof.
  intros Hrows. unfold DictWriter. rewrite reader_records_resume.
  rewrite (universal_newlines_record fieldnames _ fieldnames_cr_free).
  rewrite (universal_newlines_rows rows).
  2: { eapply Forall_impl; [exact Hrows|]. intros r Hr.
       eapply Forall_impl; [exact Hr|]. by intros f [? _]. }
  rewrite read_header, resume_rows; [done|].
  eapply Forall_impl; [exact Hrows|]. intros r Hr.
  eapply Forall_impl; [exact Hr|]. by intros f [_ ?].
Qed.

Lemma DictReader_DictWriter (rows : list Row.t) :
  Forall (λ r, Forall readable (Row.values r)) rows →
  DictReader (DictWriter rows) = Some (row_dict <$> rows).
Proof.
  intros Hrows. unfold DictReader. rewrite reader_records_DictWriter by done.
  rewrite filter_records. f_equal. by rewrite map_map.
Qed.

Lemma DictReader_restval_DictWriter (rows : list Row.t) :
  Forall (λ r, Forall readable (Row.values r)) rows →
  DictReader_restval (DictWriter rows) = Some (row_cells <$> rows).
Proof.
  intros Hrows. unfold DictReader_restval. rewrite reader_records_DictWriter by done.
  rewrite filter_records. f_equal. by rewrite map_map.
Qed.

Lemma storable_rows_cr_free (rows : list Row.t) :
  Forall storable_row rows → Forall (λ r, Forall readable (Row.values r)) rows.
Proof.
  intros Hrows. eapply Forall_impl; [exact Hrows|].
  intros r Hr. eapply Forall_impl; [exact Hr|]. by intros f (? & _ & ?).
Qed.

End Csv_facts.

(** X2. What [write_csv] writes, [load_existing_csv] reads back intact:
    every row that was written is found under its identifier with the
    values it had, quotes, commas and line feeds inside a value included,
    provided the values hold no carriage return (and are within what the
    reader takes). *)
Theorem store_file_read_back (rows : list Row.t) (fs : site) :
  Forall storable_row (deduplicate rows) →
  load_existing_csv (write_csv rows fs)
  = Some (index_rows (row_dict <$> deduplicate rows)).
Proof.
  intros Hrows%storable_rows_cr_free. unfold load_existing_csv, write_csv.
  cbn [translations_csv]. by rewrite (DictReader_DictWriter _ Hrows).
Qed.

(** A row whose values hold a comma, quotes and a line feed. *)
Lemma store_file_read_back_witness :
  let rows :=
    [ {| Row.page := "index"; Row.address := "/index.html"; Row.status := "active";
         Row.tag := "h1"; Row.id := "hero-title"; Row.en := "Capture, the Moment";
         Row.es := (PyStr.q "Captura 'el'" ++ PyStr.nl ++ "Momento")%string |} ] in
  let fs := {| html_files := ∅; translations_csv := None |} in
  load_existing_csv (write_csv rows fs)
  = Some (index_rows (row_dict <$> deduplicate rows)).
Proof.
  intros rows fs. apply (store_file_read_back rows fs).
  repeat constructor; vm_compute; discriminate.
Defined.

(** ** Two runs, the Store of the first intact *)

Lemma sync_main_store_rows (fs : site) :
  sync_main fs
  = match store_rows fs with
    | Some rows =>
        Some {| html_files := html_files fs;
                translations_csv := Some (Csv.DictWriter rows) |}
    | None => None
    end.
Proof.
  unfold sync_main, store_rows.
  destruct (scan_html_files fs) as [scan|]; [|done].
  by destruct (load_existing_csv fs).
Qed.

Lemma scan_html_files_ext (fs fs' : site) :
  html_files fs = html_files fs' → scan_html_files fs = scan_html_files fs'.
Proof.
  intros Heq. unfold scan_html_files, scan_page, scan_file. by rewrite Heq.
Qed.

Lemma load_existing_csv_empty_key (fs : site) (E : gmap string csv_row) :
  load_existing_csv fs = Some E → E !! "" = None.
Proof.
  unfold load_existing_csv. destruct (translations_csv fs) as [file|].
  - destruct (Csv.DictReader file) as [rows|]; [|done].
    intros [= <-]. apply index_rows_empty_key.
  - intros [= <-]. apply lookup_empty.
Qed.

(** X3. Run twice with no page changed in between, the pipeline leaves
    the site as the first run left it, the Store file byte for byte,
    whenever the rows that the first run persists hold no carriage return
    (and are within what the reader takes). *)
Theorem sync_twice_same_store (fs : site) (rows : list Row.t) :
  store_rows fs = Some rows → Forall storable_row rows →
  ∃ fs1, sync_main fs = Some fs1 ∧ sync_main fs1 = Some fs1.
Proof.
  intros Hrows Hst. rewrite sync_main_store_rows, Hrows.
  eexists. split; [reflexivity|].
  rewrite sync_main_store_rows. unfold store_rows in *.
  cbn [html_files translations_csv].
  rewrite (scan_html_files_ext _ fs) by done.
  destruct (scan_html_files fs) as [scan|]; [|done].
  destruct (load_existing_csv fs) as [E|] eqn:Hload; [|done].
  injection Hrows as <-.
  unfold load_existing_csv at 1. cbn [translations_csv].
  rewrite (DictReader_DictWriter _ (storable_rows_cr_free _ Hst)).
  by rewrite (reconcile_reread _ _ _ (load_existing_csv_empty_key _ _ Hload)).
Qed.

(** One page with one heading, and no Store yet. *)
Lemma sync_twice_same_store_witness :
  let fs :=
    {| html_files :=
         {[ "index.html" := [StartTag "h1" [("id", "hero-title")];
                             Data "Capture the Moment"; EndTag "h1"] ]};
       translations_csv := None |} in
  ∃ fs1, sync_main fs = Some fs1 ∧ sync_main fs1 = Some fs1.
Proof.
  intros fs.
  apply (sync_twice_same_store fs
           [ {| Row.page := "index"; Row.address := "/index.html";
                Row.status := "active"; Row.tag := "h1"; Row.id := "hero-title";
                Row.en := "Capture the Moment"; Row.es := "" |} ]).
  - vm_compute. reflexivity.
  - repeat constructor; vm_compute; discriminate.
Defined.

(** ** The deduplication of [write_csv]: one row per source text *)

Lemma deduplicate_texts_NoDup (rows : list Row.t) :
  NoDup (Row.id <$> rows) → NoDup (Row.en <$> deduplicate rows).
Proof.
  intros Hnodup. unfold deduplicate.
  destruct (deduplicate_inv rows Hnodup) as (_ & Hids & _ & Hkept & _).
  apply NoDup_fmap_2_strong; [|by apply NoDup_fmap_1 in Hids].
  intros r r' Hr Hr' Hen.
  pose proof (Hkept r Hr) as H1. pose proof (Hkept r' Hr') as H2.
  rewrite Hen, H2 in H1. by inversion H1.
Qed.

Lemma dedup_fold_fresh (l : list Row.t) (st : dedup_state) :
  (∀ r, r ∈ l → seen_text st !! Row.en r = None) →
  NoDup (Row.en <$> l) →
  deduplicated_rows (fold_left dedup_step l st) = deduplicated_rows st ++ l.
Proof.
  revert st. induction l as [|r l IH]; intros st Hfresh Hnodup; simpl.
  - by rewrite app_nil_r.
  - rewrite fmap_cons, NoDup_cons in Hnodup. destruct Hnodup as [Hr Hnodup].
    unfold dedup_step at 2. rewrite (Hfresh r) by (by left).
    rewrite IH; [simpl; by rewrite <- app_assoc| |done].
    intros r' Hr'. simpl. rewrite lookup_insert_ne; [apply Hfresh; by right|].
    intros Heq. apply Hr. rewrite Heq. by apply list_elem_of_fmap_2.
Qed.

Lemma deduplicate_fixed (l : list Row.t) :
  NoDup (Row.en <$> l) → deduplicate l = l.
Proof.
  intros Hnodup. unfold deduplicate. rewrite dedup_fold_fresh; [done| |done].
  intros r _. apply lookup_empty.
Qed.

(** X4. In the Store that a run persists no two rows carry the same
    source text, whatever the scanned maps and the prior Store. *)
Theorem store_source_texts_distinct
    (page_ids : PyDict.t (PyDict.t (PyDict.t content)))
    (tag_info : PyDict.t (PyDict.t string))
    (existing_data : gmap string csv_row) :
  NoDup (Row.en <$> reconcile page_ids tag_info existing_data).
Proof.
  unfold reconcile. apply deduplicate_texts_NoDup.
  rewrite active_rows_all.
  by destruct (create_updated_csv_inv page_ids tag_info existing_data).
Qed.

(** X5. The rows that [write_csv] keeps are kept as they are when they are
    handed to [write_csv] again: the same rows in the same order. The rows
    carry distinct identifiers, as those of [create_updated_csv] do. *)
Theorem write_csv_keeps_its_rows (rows : list Row.t) :
  NoDup (Row.id <$> rows) →
  deduplicate (deduplicate rows) = deduplicate rows.
Proof.
  intros Hnodup. by apply deduplicate_fixed, deduplicate_texts_NoDup.
Qed.

(** Three rows, two of them for the text [Home]. *)
Lemma write_csv_keeps_its_rows_witness :
  let row i t :=
    {| Row.page := "index"; Row.address := "/index.html"; Row.status := "active";
       Row.tag := "a"; Row.id := i; Row.en := t; Row.es := "" |} in
  let rows := [row "nav_logo" "Home"; row "about-link" "About"; row "nav-logo" "Home"] in
  deduplicate rows = [row "about-link" "About"; row "nav-logo" "Home"]
  ∧ deduplicate (deduplicate rows) = deduplicate rows.
Proof.
  intros row rows. split; [reflexivity|].
  apply (write_csv_keeps_its_rows rows).
  apply (bool_decide_unpack (NoDup (Row.id <$> rows))). vm_compute. exact I.
Defined.

(** ** The Reconciler: which page decides a row *)

Section First.
Context (T : PyDict.t (PyDict.t string)) (E : gmap string csv_row).

Lemma get_cons_ne {V : Type} (k k' : string) (v : V) (d : PyDict.t V) :
  k ≠ k' → PyDict.get k ((k', v) :: d) = PyDict.get k d.
Proof. intros Hne. simpl. by apply String.eqb_neq in Hne as ->. Qed.

Lemma get_cons_eq {V : Type} (k : string) (v : V) (d : PyDict.t V) :
  PyDict.get k ((k, v) :: d) = Some v.
Proof. simpl. by rewrite String.eqb_refl. Qed.

Lemma merge_id_fresh (page : string) (st : merge_state) (x : string)
    (cd : PyDict.t content) :
  x ∉ processed_ids st →
  processed_ids (merge_id T E page st (x, cd)) = {[x]} ∪ processed_ids st
  ∧ rows (merge_id T E page st (x, cd))
    = rows st ++ (if has_text cd then [row_of T E page x cd] else []).
Proof.
  intros Hx. unfold merge_id, has_text, row_of.
  rewrite bool_decide_eq_false_2 by done.
  destruct (PyStr.truthy (scanned cd "en")); simpl;
    [destruct (PyStr.truthy (PyStr.strip (scanned cd "en"))); simpl|];
    by rewrite ?app_nil_r.
Qed.

Lemma merge_page_spec (page : string) (ids : PyDict.t (PyDict.t content))
    (st : merge_state) :
  (∀ i, i ∈ processed_ids (fold_left (merge_id T E page) ids st)
        ↔ i ∈ processed_ids st ∨ is_Some (PyDict.get i ids))
  ∧ (∀ r, r ∈ rows (fold_left (merge_id T E page) ids st) ↔
       r ∈ rows st
       ∨ (¬ (Row.id r ∈ processed_ids st)
          ∧ ∃ cd, PyDict.get (Row.id r) ids = Some cd ∧ has_text cd = true
                  ∧ r = row_of T E page (Row.id r) cd)).
Proof.
  revert st. induction ids as [|[x cd0] ids IH]; intros st; cbn [fold_left].
  - simpl. split; [intros i; split; [by left|by intros [?|[? ?]]]|].
    intros r; split; [by left|]. by intros [?|(_ & cd & ? & _)].
  - destruct (IH (merge_id T E page st (x, cd0))) as [IHp IHr]. clear IH.
    destruct (decide (x ∈ processed_ids st)) as [Hx|Hx].
    + assert (merge_id T E page st (x, cd0) = st) as Hst.
      { unfold merge_id. by rewrite bool_decide_eq_true_2. }
      rewrite Hst in *. split.
      * intros i. rewrite IHp. destruct (decide (i = x)) as [->|Hne].
        -- split; intros _; by left.
        -- by rewrite (get_cons_ne i x) by done.
      * intros r. rewrite IHr. destruct (decide (Row.id r = x)) as [Heq|Hne].
        -- rewrite Heq. split; (intros [?|[? _]]; [by left|done]).
        -- by rewrite (get_cons_ne (Row.id r) x) by done.
    + destruct (merge_id_fresh page st x cd0 Hx) as [Hp Hr].
      split.
      * intros i. rewrite IHp, Hp, elem_of_union, elem_of_singleton.
        destruct (decide (i = x)) as [->|Hne].
        -- rewrite get_cons_eq. split; intros _; [right; by eexists|by left; left].
        -- rewrite (get_cons_ne i x) by done. tauto.
      * intros r. rewrite IHr, Hp, Hr, elem_of_app, elem_of_union, elem_of_singleton.
        destruct (decide (Row.id r = x)) as [Heq|Hne].
        -- rewrite Heq, get_cons_eq. split.
           ++ intros [[?|Hin]|[Hnot _]]; [by left| |by destruct Hnot; left].
              right. split; [done|]. exists cd0.
              destruct (has_text cd0); [|by apply elem_of_nil in Hin].
              apply list_elem_of_singleton in Hin. by split_and!.
           ++ intros [?|(_ & cd & [= <-] & Htext & Hr')]; [by left; left|].
              left; right. rewrite Htext. by apply list_elem_of_singleton.
        -- rewrite (get_cons_ne (Row.id r) x) by done. split.
           ++ intros [[?|Hin]|(Hnot & H)]; [by left| |].
              ** destruct (has_text cd0); [|by apply elem_of_nil in Hin].
                 apply list_elem_of_singleton in Hin. subst r. done.
              ** right. split; [tauto|done].
           ++ intros [?|(Hnot & H)]; [by left; left|].
              right. split; [tauto|done].
Qed.

Lemma merge_fold_spec (P : PyDict.t (PyDict.t (PyDict.t content)))
    (st : merge_state) :
  (∀ i, i ∈ processed_ids (fold_left (merge_page T E) P st)
        ↔ i ∈ processed_ids st ∨ is_Some (first_listing P i))
  ∧ (∀ r, r ∈ rows (fold_left (merge_page T E) P st) ↔
       r ∈ rows st
       ∨ (¬ (Row.id r ∈ processed_ids st)
          ∧ ∃ page cd, first_listing P (Row.id r) = Some (page, cd)
                       ∧ has_text cd = true
                       ∧ r = row_of T E page (Row.id r) cd)).
Proof.
  revert st. induction P as [|[page ids] P IH]; intros st; cbn [fold_left].
  - simpl. split; [intros i; split; [by left|by intros [?|[? ?]]]|].
    intros r; split; [by left|]. by intros [?|(_ & ? & ? & ? & _)].
  - destruct (IH (merge_page T E st (page, ids))) as [IHp IHr]. clear IH.
    unfold merge_page in IHp, IHr. cbn [fst snd] in IHp, IHr.
    unfold merge_page at 2 4. cbn [fst snd].
    destruct (merge_page_spec page ids st) as [Hp Hr].
    split.
    + intros i. rewrite IHp, Hp. cbn [first_listing].
      destruct (PyDict.get i ids) as [cd|].
      * split; intros _; [right|left; right]; by eexists.
      * split; [intros [[?|[? [=]]]|?]|intros [?|?]]; tauto.
    + intros r. rewrite IHr, Hr, Hp. cbn [first_listing].
      destruct (PyDict.get (Row.id r) ids) as [cd|].
      * split.
        -- intros [[?|(Hnot & cd' & [= <-] & Htext & Hr')]|(Hnot & _)]; [by left| |].
           ++ right. split; [done|]. by exists page, cd.
           ++ destruct Hnot. right. by eexists.
        -- intros [?|(Hnot & page' & cd' & [= <- <-] & Htext & Hr')]; [by left; left|].
           left; right. split; [done|]. by exists cd.
      * split.
        -- intros [[?|(_ & cd' & [=] & _)]|(Hnot & H)]; [by left|].
           right. split; [tauto|done].
        -- intros [?|(Hnot & H)]; [by left; left|].
           right. split; [|done]. by intros [?|[? [=]]].
Qed.

Lemma created_row_first_listing (P : PyDict.t (PyDict.t (PyDict.t content)))
    (r : Row.t) :
  r ∈ create_updated_csv P T E →
  ∃ page cd, first_listing P (Row.id r) = Some (page, cd)
             ∧ has_text cd = true ∧ r = row_of T E page (Row.id r) cd.
Proof.
  unfold create_updated_csv.
  destruct (merge_fold_spec P {| rows := []; processed_ids := ∅ |}) as [_ Hr].
  rewrite Hr. simpl. by intros [?%elem_of_nil|[_ ?]].
Qed.

End First.

(** X6. The candidate rows are exactly these: one for every scanned
    identifier whose first listing, in the order of the pages and then of
    the identifiers of a page, holds an English text that is not empty nor
    blank, built on that page from the contents found there. Later listings
    of the identifier, on the same page or on another, play no part. *)
Theorem candidate_rows_from_first_listing
    (page_ids : PyDict.t (PyDict.t (PyDict.t content)))
    (tag_info : PyDict.t (PyDict.t string))
    (existing_data : gmap string csv_row) (r : Row.t) :
  r ∈ create_updated_csv page_ids tag_info existing_data ↔
  ∃ page content_data,
    first_listing page_ids (Row.id r) = Some (page, content_data)
    ∧ has_text content_data = true
    ∧ r = candidate_row tag_info existing_data page (Row.id r)
            (scanned content_data "en") (scanned content_data "es").
Proof.
  unfold create_updated_csv.
  destruct (merge_fold_spec tag_info existing_data page_ids
              {| rows := []; processed_ids := ∅ |}) as [_ Hr].
  rewrite Hr. cbn [rows processed_ids]. split.
  - by intros [?%elem_of_nil|[_ ?]].
  - intros H. right. split; [|exact H]. apply not_elem_of_empty.
Qed.

(** X7. Every persisted row is active, its address is the English address
    of its page, and its page is the one of the prior Store row of its
    identifier when that row names one, and otherwise the first page of the
    scan that lists the identifier. *)
Theorem row_page_and_address
    (page_ids : PyDict.t (PyDict.t (PyDict.t content)))
    (tag_info : PyDict.t (PyDict.t string))
    (existing_data : gmap string csv_row) (r : Row.t) :
  r ∈ reconcile page_ids tag_info existing_data →
  Row.status r = "active"
  ∧ Row.address r = get_page_address (Row.page r) "en"
  ∧ (∀ row, existing_data !! Row.id r = Some row → row_get row "page" ≠ "" →
       Row.page r = row_get row "page")
  ∧ ((∀ row, existing_data !! Row.id r = Some row → row_get row "page" = "") →
       ∃ content_data,
         first_listing page_ids (Row.id r) = Some (Row.page r, content_data)).
Proof.
  intros Hr%reconcile_created.
  apply created_row_first_listing in Hr as (page & cd & Hfirst & _ & Hr).
  rewrite Hr. unfold row_of, candidate_row. cbn [Row.status Row.address Row.page Row.id].
  split_and!; [done|done| |].
  - intros row Hrow Hpage. rewrite Hrow. by apply truthy_spec in Hpage as ->.
  - intros Hnone. exists cd.
    destruct (existing_data !! Row.id r) as [row|] eqn:Hrow; [|done].
    by rewrite (Hnone row eq_refl).
Qed.

(** The navigation link is on two pages, and the prior Store has it on a
    page of its own. *)
Lemma row_page_and_address_witness :
  let page_ids :=
    [("index", [("nav-about", [("en", Text "About")]);
                ("hero-title", [("en", Text "Capture the Moment")])]);
     ("about", [("nav-about", [("en", Text "About us")])])] in
  let existing_data : gmap string csv_row :=
    {[ "hero-title" := {[ "id" := "hero-title"; "page" := "landing" ]} ]} in
  ((λ r, (Row.id r, Row.page r, Row.address r, Row.en r))
     <$> reconcile page_ids [] existing_data)
  = [("nav-about", "index", "/index.html", "About");
     ("hero-title", "landing", "/landing.html", "Capture the Moment")]
  ∧ Forall (λ r, Row.status r = "active"
                 ∧ Row.address r = get_page_address (Row.page r) "en")
      (reconcile page_ids [] existing_data).
Proof.
  intros page_ids existing_data. split; [reflexivity|].
  apply Forall_forall. intros r Hr.
  destruct (row_page_and_address page_ids [] existing_data r Hr) as (? & ? & _).
  by split.
Defined.

(** X8. An identifier whose first listing holds no English text, or a
    blank one, has no row in the Store, even when a later page holds a text
    for it. *)
Theorem identifier_without_text_at_first_listing
    (page_ids : PyDict.t (PyDict.t (PyDict.t content)))
    (tag_info : PyDict.t (PyDict.t string))
    (existing_data : gmap string csv_row)
    (i page : string) (content_data : PyDict.t content) :
  first_listing page_ids i = Some (page, content_data) →
  has_text content_data = false →
  Forall (λ r, Row.id r ≠ i) (reconcile page_ids tag_info existing_data).
Proof.
  intros Hfirst Htext. apply Forall_forall. intros r Hr%reconcile_created Hid.
  apply created_row_first_listing in Hr as (page' & cd & Hfirst' & Htext' & _).
  rewrite Hid, Hfirst in Hfirst'. injection Hfirst' as _ <-. congruence.
Qed.

(** The identifier [intro] is an empty container on the first page and a
    paragraph with text on the second; the prior Store has a row for it. *)
Lemma identifier_without_text_at_first_listing_witness :
  let page_ids :=
    [("index", [("intro", [("en", Text "")]);
                ("hero-title", [("en", Text "Capture the Moment")])]);
     ("about", [("intro", [("en", Text "Who we are")])])] in
  let existing_data : gmap string csv_row :=
    {[ "intro" := {[ "id" := "intro"; "en" := "Who we are"; "es" := "Quienes somos" ]} ]} in
  (Row.id <$> reconcile page_ids [] existing_data) = ["hero-title"]
  ∧ Forall (λ r, Row.id r ≠ "intro") (reconcile page_ids [] existing_data).
Proof.
  intros page_ids existing_data. split; [reflexivity|].
  by apply (identifier_without_text_at_first_listing page_ids [] existing_data
              "intro" "index" [("en", Text "")]).
Defined.

(** ** The Extractor on documents with distinct identifiers *)

Section PyDict_keys.
Context {V : Type}.
Implicit Types (d : PyDict.t V) (k : string) (v : V).

Lemma get_None_keys k d : PyDict.get k d = None ↔ ¬ (k ∈ PyDict.keys d).
Proof.
  unfold PyDict.keys. induction d as [|[k' v'] d IH]; simpl.
  - split; [intros _ H; by apply elem_of_nil in H|done].
  - destruct (String.eqb_spec k k') as [->|Hne].
    + split; [done|]. intros H. destruct H. by left.
    + rewrite IH. split.
      * intros H [?|?]%elem_of_cons; [done|by apply H].
      * intros H H'. apply H. by right.
Qed.

Lemma keys_set_fresh k v d :
  PyDict.get k d = None → PyDict.keys (PyDict.set k v d) = PyDict.keys d ++ [k].
Proof.
  unfold PyDict.keys. induction d as [|[k' v'] d IH]; simpl; [done|].
  destruct (String.eqb_spec k k') as [->|Hne]; [done|].
  intros H. simpl. by rewrite IH.
Qed.

Lemma keys_set_present k v d :
  is_Some (PyDict.get k d) → PyDict.keys (PyDict.set k v d) = PyDict.keys d.
Proof.
  unfold PyDict.keys. induction d as [|[k' v'] d IH]; simpl; [by intros [? ?]|].
  destruct (String.eqb_spec k k') as [->|Hne]; [done|].
  intros H. simpl. by rewrite IH.
Qed.
End PyDict_keys.

Lemma declared_ids_snoc (seen : list event) (e : event) :
  declared_ids (seen ++ [e])
  = declared_ids seen ++ match declared_id e with Some i => [i] | None => [] end.
Proof.
  unfold declared_ids. rewrite omap_app. simpl. by destruct (declared_id e).
Qed.

Lemma capture_inv_snoc (seen : list event) (e : event) (self : IDExtractor.t) :
  declared_id e = None → capture_inv seen self → capture_inv (seen ++ [e]) self.
Proof.
  intros He [Hkeys Hcap]. split; [|done].
  by rewrite declared_ids_snoc, He, app_nil_r.
Qed.

Lemma capture_inv_fresh (seen : list event) (e : event) (self : IDExtractor.t)
    (i : string) :
  NoDup (declared_ids (seen ++ [e])) → capture_inv seen self →
  declared_id e = Some i →
  PyDict.get i (IDExtractor.elements self) = None.
Proof.
  rewrite declared_ids_snoc. intros Hnodup [Hkeys _] Hi. rewrite Hi in Hnodup.
  apply get_None_keys. rewrite Hkeys.
  apply NoDup_app in Hnodup as (_ & Hdisj & _). intros Hin.
  apply (Hdisj i Hin). by left.
Qed.

Lemma handle_capture_inv (seen : list event) (e : event) (self : IDExtractor.t) :
  NoDup (declared_ids (seen ++ [e])) →
  capture_inv seen self →
  ∃ self', IDExtractor.handle self e = Some self' ∧ capture_inv (seen ++ [e]) self'.
Proof.
  intros Hnodup Hinv.
  pose proof (capture_inv_fresh seen e self) as Hfresh.
  pose proof (capture_inv_snoc seen e self) as Hsame.
  pose proof Hinv as [Hkeys Hcap].
  destruct e as [t a|t|d|t a]; cbn [IDExtractor.handle].
  - eexists; split; [done|]. unfold IDExtractor.handle_starttag.
    cbn [declared_id] in Hfresh, Hsame.
    destruct (PyDict.get "id" (PyDict.of_pairs a)) as [j|] eqn:Hj;
      [|by apply Hsame].
    specialize (Hfresh j Hnodup Hinv eq_refl).
    split; cbn [IDExtractor.elements IDExtractor.capture_content IDExtractor.current_id].
    + rewrite keys_set_fresh, Hkeys, declared_ids_snoc by done.
      cbn [declared_id]. by rewrite Hj.
    + intros _. exists j, []. by rewrite get_set_eq.
  - unfold IDExtractor.handle_endtag.
    destruct (IDExtractor.capture_content self) eqn:Hc; cbn [andb];
      [|exists self; split; [done|]; by apply Hsame].
    destruct (Hcap eq_refl) as (cid & l & Hcid & Hget). rewrite Hcid, Hget.
    case_bool_decide; [|exists self; split; [done|]; by apply Hsame].
    eexists; split; [done|]. split;
      cbn [IDExtractor.elements IDExtractor.capture_content]; [|done].
    rewrite keys_set_present by (by eexists).
    rewrite Hkeys, declared_ids_snoc. by rewrite app_nil_r.
  - unfold IDExtractor.handle_data.
    destruct (IDExtractor.current_id self) as [cid|] eqn:Hcid;
      [|exists self; split; [done|]; by apply Hsame].
    destruct (IDExtractor.capture_content self) eqn:Hc; cbn [andb];
      [|exists self; split; [done|]; by apply Hsame].
    destruct (Hcap eq_refl) as (cid' & l & [= <-] & Hget).
    destruct (PyStr.truthy cid); [|exists self; split; [done|]; by apply Hsame].
    rewrite Hget. eexists; split; [done|]. split;
      cbn [IDExtractor.elements IDExtractor.capture_content IDExtractor.current_id].
    + rewrite keys_set_present by (by eexists).
      rewrite Hkeys, declared_ids_snoc. by rewrite app_nil_r.
    + intros _. exists cid, (l ++ [d]). by rewrite get_set_eq.
  - eexists; split; [done|]. unfold IDExtractor.handle_startendtag.
    cbn [declared_id] in Hfresh, Hsame.
    destruct (PyDict.get "id" (PyDict.of_pairs a)) as [j|] eqn:Hj;
      [|by apply Hsame].
    specialize (Hfresh j Hnodup Hinv eq_refl).
    split; cbn [IDExtractor.elements IDExtractor.capture_content IDExtractor.current_id].
    + rewrite keys_set_fresh, Hkeys, declared_ids_snoc by done.
      cbn [declared_id]. by rewrite Hj.
    + intros Hc. destruct (Hcap Hc) as (cid & l & Hcid & Hget).
      exists cid, l. split; [done|]. rewrite get_set_ne; [done|].
      intros ->. by rewrite Hfresh in Hget.
Qed.

Lemma feed_capture_inv (rest seen : list event) (self : IDExtractor.t) :
  NoDup (declared_ids (seen ++ rest)) →
  capture_inv seen self →
  ∃ self', IDExtractor.feed self rest = Some self'
           ∧ capture_inv (seen ++ rest) self'.
Proof.
  revert seen self. induction rest as [|e rest IH]; intros seen self Hnodup Hinv.
  - exists self. by rewrite app_nil_r.
  - replace (seen ++ e :: rest) with ((seen ++ [e]) ++ rest) in *
      by (by rewrite <- app_assoc).
    destruct (handle_capture_inv seen e self) as (self1 & Hh & Hinv1); [|done|].
    { unfold declared_ids in *. rewrite omap_app in Hnodup.
      by apply NoDup_app in Hnodup as [? _]. }
    destruct (IH (seen ++ [e]) self1 Hnodup Hinv1) as (self' & Hfeed & Hinv').
    exists self'. split; [|done]. simpl. by rewrite Hh.
Qed.

(** X9. A document whose identifiers are pairwise distinct, as HTML asks,
    is always parsed, and the identifiers recorded are exactly those that
    its tags declare, in the order of the document: none is missed, none is
    made up. *)
Theorem distinct_identifiers_all_recorded (doc : list event) :
  NoDup (declared_ids doc) →
  ∃ elements, extract_ids_from_html doc = Some elements
              ∧ PyDict.keys elements = declared_ids doc.
Proof.
  intros Hnodup.
  destruct (feed_capture_inv doc [] IDExtractor.init) as (self' & Hfeed & Hkeys & _);
    [done|by split|].
  exists (IDExtractor.elements self'). unfold extract_ids_from_html.
  by rewrite Hfeed.
Qed.

(** A heading and a self-closing image; and a paragraph in which a
    self-closing tag repeats the identifier being captured, where the text
    that follows makes the parser raise. *)
Lemma distinct_identifiers_all_recorded_witness :
  let doc := [StartTag "h1" [("id", "hero-title")]; Data "Capture the Moment";
              EndTag "h1"; StartEndTag "img" [("id", "logo"); ("src", "logo.png")]] in
  (∃ elements, extract_ids_from_html doc = Some elements
               ∧ PyDict.keys elements = ["hero-title"; "logo"])
  ∧ extract_ids_from_html
      [StartTag "p" [("id", "intro")]; StartEndTag "br" [("id", "intro")];
       Data "Welcome"; EndTag "p"] = None.
Proof.
  intros doc. split; [|reflexivity].
  apply (distinct_identifiers_all_recorded doc).
  apply (bool_decide_unpack (NoDup (declared_ids doc))). vm_compute. exact I.
Defined.

(** ** Where the texts of the Store come from *)

Lemma record_elements_content (Ken Kes : string → content → Prop) (lang : string)
    (extractor : IDExtractor.t)
    (acc : PyDict.t (PyDict.t content) * PyDict.t string) :
  (lang = "en" → ∀ i c, (i, c) ∈ IDExtractor.elements extractor → Ken i c) →
  (lang = "es" → ∀ i c, (i, c) ∈ IDExtractor.elements extractor → Kes i c) →
  lang = "en" ∨ lang = "es" →
  content_inv Ken Kes (fst acc) →
  content_inv Ken Kes (fst (record_elements lang extractor acc)).
Proof.
  intros Hen Hes Hlang. unfold record_elements.
  apply (fold_left_inv _ (λ acc, content_inv Ken Kes (fst acc))).
  intros [ids tgs] [element_id content] Hitem Hids. simpl in *.
  intros i cd [[= -> ->]|Hin]%elem_of_set; [|by apply (Hids i cd)].
  assert (∀ l c, PyDict.get l (default [] (PyDict.get element_id ids)) = Some c →
            (l = "en" → Ken element_id c) ∧ (l = "es" → Kes element_id c)) as Hold.
  { intros l c Hc.
    destruct (PyDict.get element_id ids) as [cd0|] eqn:Hcd0; simpl in Hc; [|done].
    apply get_Some_elem in Hcd0. destruct (Hids element_id cd0 Hcd0) as [H1 H2].
    split; intros ->; [by apply H1|by apply H2]. }
  split; intros c Hc.
  - destruct Hlang as [->| ->].
    + rewrite get_set_eq in Hc. injection Hc as <-. by apply Hen.
    + rewrite get_set_ne in Hc by done. by apply (Hold "en" c).
  - destruct Hlang as [->| ->].
    + rewrite get_set_ne in Hc by done. by apply (Hold "es" c).
    + rewrite get_set_eq in Hc. injection Hc as <-. by apply Hes.
Qed.

Lemma scan_file_recorded (fs : site) (path lang : string)
    (acc acc' : PyDict.t (PyDict.t content) * PyDict.t string) :
  scan_file fs path lang acc = Some acc' →
  acc' = acc
  ∨ ∃ extractor, acc' = record_elements lang extractor acc
       ∧ ∀ i c, (i, c) ∈ IDExtractor.elements extractor → recorded fs path i c.
Proof.
  unfold scan_file.
  destruct (html_files fs !! path) as [doc|] eqn:Hdoc; [|intros [= <-]; by left].
  destruct (IDExtractor.feed IDExtractor.init doc) as [extractor|] eqn:Hfeed; [|done].
  intros [= <-]. right. exists extractor. split; [done|].
  intros i c Hin. exists doc, (IDExtractor.elements extractor).
  split_and!; [done| |done]. unfold extract_ids_from_html. by rewrite Hfeed.
Qed.

Lemma scan_html_files_content (fs : site) (scan : scan_state) :
  scan_html_files fs = Some scan → scan_content_inv fs scan.
Proof.
  unfold scan_html_files.
  assert (∀ o, (∀ st, o = Some st → scan_content_inv fs st) →
            ∀ st, fold_left (scan_page fs) pages o = Some st →
                  scan_content_inv fs st) as H.
  { intros o Ho.
    apply (fold_left_inv (scan_page fs)
             (λ o, ∀ st, o = Some st → scan_content_inv fs st)); [|done].
    clear. intros o page Hpage Ho st' Hst'. unfold scan_page in Hst'.
    destruct o as [st|]; [|done]. specialize (Ho st eq_refl).
    destruct (scan_file fs (page ++ ".html") "en" ([], [])) as [acc|] eqn:Hen; [|done].
    destruct (scan_file fs ("es/" ++ page ++ ".html") "es" acc) as [[ids tgs]|] eqn:Hes;
      [|done].
    inversion Hst'; subst st'. intros page' ids'. simpl.
    intros [[= -> ->]|Hin]%elem_of_set; [|by apply Ho].
    split; [done|].
    assert (content_inv (recorded fs (page ++ ".html")%string)
              (recorded fs ("es/" ++ page ++ ".html")%string) (fst acc)) as Hacc.
    { apply scan_file_recorded in Hen
        as [->|(extractor & -> & Hrec)].
      - intros i cd Hin. by apply elem_of_nil in Hin.
      - apply record_elements_content; [by intros _|done|by left|].
        intros i cd Hin. by apply elem_of_nil in Hin. }
    apply scan_file_recorded in Hes
      as [Heq|(extractor & Heq & Hrec)].
    - by rewrite <- Heq in Hacc.
    - change ids with (fst (ids, tgs)). rewrite Heq.
      apply record_elements_content; [done|by intros _|by right|done]. }
  apply H. intros st [= <-] page ids Hin. simpl in Hin. by apply elem_of_nil in Hin.
Qed.

Lemma first_listing_elem (P : PyDict.t (PyDict.t (PyDict.t content)))
    (i page : string) (cd : PyDict.t content) :
  first_listing P i = Some (page, cd) →
  ∃ ids, (page, ids) ∈ P ∧ (i, cd) ∈ ids.
Proof.
  induction P as [|[page' ids'] P IH]; simpl; [done|].
  destruct (PyDict.get i ids') as [cd'|] eqn:Hget.
  - intros [= <- <-]. exists ids'. split; [by left|by apply get_Some_elem].
  - intros (ids & ? & ?)%IH. exists ids. split; [by right|done].
Qed.

Lemma scanned_content (cd : PyDict.t content) (lang : string) :
  scanned cd lang = "" ∨ ∃ c, PyDict.get lang cd = Some c ∧ scanned cd lang = content_str c.
Proof.
  unfold scanned. destruct (PyDict.get lang cd) as [c|]; [right; by exists c|by left].
Qed.

(** A persisted row, the page that decided it and the contents it was
    built from. *)
Lemma reconciled_row_source (fs : site) (scan : scan_state)
    (E : gmap string csv_row) (r : Row.t) :
  scan_html_files fs = Some scan →
  r ∈ reconcile (page_ids scan) (tag_info scan) E →
  ∃ page cd,
    page ∈ pages
    ∧ content_inv (recorded fs (page ++ ".html")%string)
        (recorded fs ("es/" ++ page ++ ".html")%string) [(Row.id r, cd)]
    ∧ has_text cd = true
    ∧ r = row_of (tag_info scan) E page (Row.id r) cd.
Proof.
  intros Hscan Hr%reconcile_created.
  apply created_row_first_listing in Hr as (page & cd & Hfirst & Htext & Hr).
  apply first_listing_elem in Hfirst as (ids & Hpage & Hid).
  destruct (scan_html_files_content fs scan Hscan page ids Hpage) as [Hp Hinv].
  exists page, cd. split_and!; [done| |done|done].
  intros i cd' Hin. apply list_elem_of_singleton in Hin. injection Hin as -> ->.
  by apply Hinv.
Qed.

Lemma set_keys_NoDup {V : Type} (k : string) (v : V) (d : PyDict.t V) :
  NoDup (PyDict.keys d) → NoDup (PyDict.keys (PyDict.set k v d)).
Proof.
  intros Hd. destruct (PyDict.get k d) as [v'|] eqn:Hget.
  - rewrite keys_set_present; [done|by eexists].
  - rewrite keys_set_fresh by done. apply NoDup_app.
    split_and!; [done| |apply NoDup_singleton].
    intros x Hx ->%list_elem_of_singleton. by apply get_None_keys in Hget.
Qed.

Lemma handle_keys_NoDup (self self' : IDExtractor.t) (e : event) :
  IDExtractor.handle self e = Some self' →
  NoDup (PyDict.keys (IDExtractor.elements self)) →
  NoDup (PyDict.keys (IDExtractor.elements self')).
Proof.
  intros Hh Hd. destruct e as [t a|t|d|t a]; simpl in Hh.
  - injection Hh as <-. unfold IDExtractor.handle_starttag.
    destruct (PyDict.get "id" (PyDict.of_pairs a)); [|done]. by apply set_keys_NoDup.
  - unfold IDExtractor.handle_endtag in Hh.
    destruct (IDExtractor.capture_content self && _); [|by injection Hh as <-].
    destruct (IDExtractor.current_id self) as [c|]; [|done].
    destruct (PyDict.get c (IDExtractor.elements self)); [|done].
    injection Hh as <-. by apply set_keys_NoDup.
  - unfold IDExtractor.handle_data in Hh.
    destruct (IDExtractor.current_id self) as [c|]; [|by injection Hh as <-].
    destruct (IDExtractor.capture_content self && _); [|by injection Hh as <-].
    destruct (PyDict.get c (IDExtractor.elements self)) as [[l|]|]; [|done|done].
    injection Hh as <-. by apply set_keys_NoDup.
  - injection Hh as <-. unfold IDExtractor.handle_startendtag.
    destruct (PyDict.get "id" (PyDict.of_pairs a)); [|done]. by apply set_keys_NoDup.
Qed.

Lemma feed_keys_NoDup (doc : list event) (self self' : IDExtractor.t) :
  IDExtractor.feed self doc = Some self' →
  NoDup (PyDict.keys (IDExtractor.elements self)) →
  NoDup (PyDict.keys (IDExtractor.elements self')).
Proof.
  revert self. induction doc as [|e doc IH]; intros self; simpl.
  - by intros [= <-].
  - destruct (IDExtractor.handle self e) as [self1|] eqn:Hh; [|done].
    intros Hfeed Hd. apply (IH self1 Hfeed). by apply (handle_keys_NoDup self _ e).
Qed.

(** What [record_elements] leaves under an identifier: the content of the
    language set in what was there, for an identifier of the extractor. *)
Lemma record_elements_get (lang : string) (extractor : IDExtractor.t)
    (acc : PyDict.t (PyDict.t content) * PyDict.t string) (i : string) :
  NoDup (PyDict.keys (IDExtractor.elements extractor)) →
  PyDict.get i (fst (record_elements lang extractor acc))
  = match PyDict.get i (IDExtractor.elements extractor) with
    | Some c => Some (PyDict.set lang c (default [] (PyDict.get i (fst acc))))
    | None => PyDict.get i (fst acc)
    end.
Proof.
  unfold record_elements. generalize (IDExtractor.elements extractor) as els.
  intros els. revert acc.
  induction els as [|[k c] els IH]; intros [ids tgs] Hnodup; [done|].
  cbn [fold_left]. unfold PyDict.keys in Hnodup. cbn [map fst] in Hnodup.
  apply NoDup_cons in Hnodup as [Hk Hnodup].
  rewrite IH by done. cbn [fst PyDict.get].
  destruct (String.eqb_spec i k) as [->|Hne].
  - apply get_None_keys in Hk. rewrite Hk. by rewrite get_set_eq.
  - by rewrite get_set_ne.
Qed.

(** The contents found on a page for an identifier are those that the
    Extractor records in the two files of the page. *)
Lemma scan_page_exact (fs : site) (page : string)
    (acc : PyDict.t (PyDict.t content) * PyDict.t string)
    (ids : PyDict.t (PyDict.t content)) (tgs : PyDict.t string) :
  scan_file fs (page ++ ".html") "en" ([], []) = Some acc →
  scan_file fs ("es/" ++ page ++ ".html") "es" acc = Some (ids, tgs) →
  ∀ i cd, PyDict.get i ids = Some cd →
    PyDict.get "en" cd = recorded_at fs (page ++ ".html") i
    ∧ PyDict.get "es" cd = recorded_at fs ("es/" ++ page ++ ".html") i.
Proof.
  intros Hen Hes i cd.
  assert (PyDict.get i (fst acc)
          = (λ c, [("en", c)]) <$> recorded_at fs (page ++ ".html") i) as Hacc.
  { unfold scan_file, recorded_at, extract_ids_from_html in *.
    destruct (html_files fs !! (page ++ ".html")%string) as [doc|];
      [|by injection Hen as <-].
    destruct (IDExtractor.feed IDExtractor.init doc) as [ext|] eqn:Hfeed; [|done].
    injection Hen as <-. rewrite record_elements_get.
    - by destruct (PyDict.get i (IDExtractor.elements ext)).
    - apply (feed_keys_NoDup doc IDExtractor.init ext Hfeed). apply NoDup_nil_2. }
  assert (PyDict.get i ids
          = match recorded_at fs ("es/" ++ page ++ ".html") i with
            | Some c => Some (PyDict.set "es" c (default [] (PyDict.get i (fst acc))))
            | None => PyDict.get i (fst acc)
            end) as ->.
  { unfold scan_file, recorded_at, extract_ids_from_html in *.
    destruct (html_files fs !! ("es/" ++ page ++ ".html")%string) as [doc|];
      [|by injection Hes as ->].
    destruct (IDExtractor.feed IDExtractor.init doc) as [ext|] eqn:Hfeed; [|done].
    injection Hes as Hes. apply (f_equal fst) in Hes. cbn [fst] in Hes.
    rewrite <- Hes. apply record_elements_get.
    apply (feed_keys_NoDup doc IDExtractor.init ext Hfeed). apply NoDup_nil_2. }
  rewrite Hacc.
  destruct (recorded_at fs ("es/" ++ page ++ ".html") i) as [c|];
    destruct (recorded_at fs (page ++ ".html") i) as [c'|]; simpl;
    intros [= <-]; done.
Qed.

Lemma scan_html_files_exact (fs : site) (scan : scan_state)
    (page : string) (ids : PyDict.t (PyDict.t content)) :
  scan_html_files fs = Some scan → (page, ids) ∈ page_ids scan →
  page ∈ pages
  ∧ ∀ i cd, PyDict.get i ids = Some cd →
      PyDict.get "en" cd = recorded_at fs (page ++ ".html") i
      ∧ PyDict.get "es" cd = recorded_at fs ("es/" ++ page ++ ".html") i.
Proof.
  unfold scan_html_files. intros Hscan. revert page ids.
  revert scan Hscan.
  apply (fold_left_inv (scan_page fs)
           (λ o, ∀ st, o = Some st → ∀ page ids, (page, ids) ∈ page_ids st →
              page ∈ pages
              ∧ ∀ i cd, PyDict.get i ids = Some cd →
                  PyDict.get "en" cd = recorded_at fs (page ++ ".html") i
                  ∧ PyDict.get "es" cd = recorded_at fs ("es/" ++ page ++ ".html") i)).
  - intros o page Hpage Ho st' Hst'. unfold scan_page in Hst'.
    destruct o as [st|]; [|done]. specialize (Ho st eq_refl).
    destruct (scan_file fs (page ++ ".html") "en" ([], [])) as [acc|] eqn:Hen; [|done].
    destruct (scan_file fs ("es/" ++ page ++ ".html") "es" acc) as [[ids tgs]|] eqn:Hes;
      [|done].
    injection Hst' as <-. intros page' ids'. simpl.
    intros [[= -> ->]|Hin]%elem_of_set; [|by apply Ho].
    split; [done|]. by apply (scan_page_exact fs page acc ids tgs).
  - intros st [= <-] page ids Hin. simpl in Hin. by apply elem_of_nil in Hin.
Qed.

Lemma first_listing_get (P : PyDict.t (PyDict.t (PyDict.t content)))
    (i page : string) (cd : PyDict.t content) :
  first_listing P i = Some (page, cd) →
  ∃ ids, (page, ids) ∈ P ∧ PyDict.get i ids = Some cd.
Proof.
  induction P as [|[page' ids'] P IH]; simpl; [done|].
  destruct (PyDict.get i ids') as [cd'|] eqn:Hget.
  - intros [= <- <-]. exists ids'. split; [by left|done].
  - intros (ids & ? & ?)%IH. exists ids. split; [by right|done].
Qed.

(** X10. Every text of the Store comes from the pages and from the prior
    Store, in this order: the source text of a row is the content that the
    Extractor records for its identifier in the English file of one of the
    pages; its translation is the one of the prior Store row of the
    identifier when that row holds a non-empty one, and otherwise the
    content that the Extractor records for the identifier in the Spanish
    file of the same page, empty when there is none. A content left as a
    list of chunks is joined by single spaces. *)
Theorem store_texts_from_pages (fs : site) (rows : list Row.t) :
  store_rows fs = Some rows →
  ∃ existing_data,
    load_existing_csv fs = Some existing_data
    ∧ Forall (λ r, ∃ page,
        page ∈ pages
        ∧ Row.en r = page_text fs (page ++ ".html") (Row.id r)
        ∧ Row.es r =
            match existing_data !! Row.id r with
            | Some row =>
                if PyStr.truthy (row_get row "es") then row_get row "es"
                else page_text fs ("es/" ++ page ++ ".html") (Row.id r)
            | None => page_text fs ("es/" ++ page ++ ".html") (Row.id r)
            end) rows.
Proof.
  unfold store_rows.
  destruct (scan_html_files fs) as [scan|] eqn:Hscan; [|done].
  destruct (load_existing_csv fs) as [E|]; [|done].
  intros [= <-]. exists E. split; [done|].
  apply Forall_forall. intros r Hr%reconcile_created.
  apply created_row_first_listing in Hr as (page & cd & Hfirst & _ & Hrow).
  apply first_listing_get in Hfirst as (ids & Hpage & Hid).
  destruct (scan_html_files_exact fs scan page ids Hscan Hpage) as [Hp Hexact].
  destruct (Hexact _ _ Hid) as [Hen Hes].
  assert (∀ lang path, PyDict.get lang cd = recorded_at fs path (Row.id r) →
            scanned cd lang = page_text fs path (Row.id r)) as Htext.
  { intros lang path Heq. unfold scanned, page_text. by rewrite Heq. }
  exists page. split; [done|].
  pose proof (f_equal Row.en Hrow) as Hr_en.
  pose proof (f_equal Row.es Hrow) as Hr_es.
  unfold row_of, candidate_row in Hr_en, Hr_es. cbn [Row.en Row.es] in Hr_en, Hr_es.
  rewrite (Htext "en" _ Hen) in Hr_en. rewrite (Htext "es" _ Hes) in Hr_es.
  split; [exact Hr_en|]. rewrite Hr_es.
  by destruct (E !! Row.id r).
Qed.

(** The English and the Spanish file of two pages, and a prior Store that
    holds a translation for the heading and none for the paragraph. *)
Lemma store_texts_from_pages_witness :
  let prior :=
    [ {| Row.page := "index"; Row.address := "/index.html"; Row.status := "active";
         Row.tag := "h1"; Row.id := "hero-title"; Row.en := "Capture the Moment";
         Row.es := "Captura el Momento" |};
      {| Row.page := "about"; Row.address := "/about.html"; Row.status := "active";
         Row.tag := "p"; Row.id := "lead"; Row.en := "Who we are";
         Row.es := "" |} ] in
  let fs :=
    {| html_files :=
         {[ "index.html" := [StartTag "h1" [("id", "hero-title")];
                             Data "Capture the Moment"; EndTag "h1"];
            "es/index.html" := [StartTag "h1" [("id", "hero-title")];
                                Data "Captura el Instante"; EndTag "h1"];
            "about.html" := [StartTag "p" [("id", "lead")];
                             Data "Who we are"; EndTag "p"];
            "es/about.html" := [StartTag "p" [("id", "lead")];
                                Data "Quienes somos"; EndTag "p"] ]};
       translations_csv := Some (Csv.DictWriter prior) |} in
  let rows :=
    [ {| Row.page := "index"; Row.address := "/index.html"; Row.status := "active";
         Row.tag := "h1"; Row.id := "hero-title"; Row.en := "Capture the Moment";
         Row.es := "Captura el Momento" |};
      {| Row.page := "about"; Row.address := "/about.html"; Row.status := "active";
         Row.tag := "p"; Row.id := "lead"; Row.en := "Who we are";
         Row.es := "Quienes somos" |} ] in
  store_rows fs = Some rows
  ∧ ∃ existing_data,
      load_existing_csv fs = Some existing_data
      ∧ Forall (λ r, ∃ page,
          page ∈ pages
          ∧ Row.en r = page_text fs (page ++ ".html") (Row.id r)
          ∧ Row.es r =
              match existing_data !! Row.id r with
              | Some row =>
                  if PyStr.truthy (row_get row "es") then row_get row "es"
                  else page_text fs ("es/" ++ page ++ ".html") (Row.id r)
              | None => page_text fs ("es/" ++ page ++ ".html") (Row.id r)
              end) rows.
Proof.
  intros prior fs rows.
  assert (store_rows fs = Some rows) as Hrows by (vm_compute; reflexivity).
  split; [exact Hrows|]. exact (store_texts_from_pages fs rows Hrows).
Defined.

(** X11. When none of the English files of the pages exists, the run
    empties the Store: it writes the header and no row, whatever the prior
    Store and the Spanish files hold. *)
Theorem no_english_page_empties_store (fs fs' : site) :
  Forall (λ page, html_files fs !! (page ++ ".html")%string = None) pages →
  sync_main fs = Some fs' →
  translations_csv fs' = Some (Csv.DictWriter []).
Proof.
  intros Hnone. rewrite sync_main_store_rows. unfold store_rows.
  destruct (scan_html_files fs) as [scan|] eqn:Hscan; [|done].
  destruct (load_existing_csv fs) as [E|]; [|done].
  intros [= <-]. cbn [translations_csv]. do 2 f_equal.
  destruct (reconcile (page_ids scan) (tag_info scan) E) as [|r rows] eqn:Hrec; [done|].
  exfalso.
  destruct (reconciled_row_source fs scan E r Hscan)
    as (page & cd & Hpage & Hinv & Htext & _); [rewrite Hrec; by left|].
  rewrite Forall_forall in Hnone. specialize (Hnone page Hpage).
  destruct (scanned_content cd "en") as [Hempty|(c & Hc & _)].
  - unfold has_text in Htext. by rewrite Hempty in Htext.
  - destruct (Hinv (Row.id r) cd) as [Hen _]; [by left|].
    destruct (Hen c Hc) as (doc & _ & Hdoc & _). congruence.
Qed.

(** Only the Spanish file of a page is there, and the prior Store holds a
    row with its translation. *)
Lemma no_english_page_empties_store_witness :
  let prior :=
    [ {| Row.page := "index"; Row.address := "/index.html"; Row.status := "active";
         Row.tag := "h1"; Row.id := "hero-title"; Row.en := "Capture the Moment";
         Row.es := "Captura el Momento" |} ] in
  let fs :=
    {| html_files :=
         {[ "es/index.html" := [StartTag "h1" [("id", "hero-title")];
                                Data "Captura el Momento"; EndTag "h1"] ]};
       translations_csv := Some (Csv.DictWriter prior) |} in
  ∃ fs', sync_main fs = Some fs'
         ∧ translations_csv fs' = Some (Csv.DictWriter []).
Proof.
  intros prior fs.
  destruct (sync_main fs) as [fs'|] eqn:Hmain;
    [|vm_compute in Hmain; discriminate Hmain].
  exists fs'. split; [reflexivity|].
  refine (no_english_page_empties_store fs fs' _ Hmain).
  repeat constructor.
Defined.

(** ** The Generator: when a run returns and what it writes *)

Section Templates.

Lemma plain_cons (c : ascii) (s : string) :
  plain (String c s) = negb (Ascii.eqb Re.backslash c) && plain s.
Proof. unfold plain. rewrite contains_cons. by destruct (Ascii.eqb Re.backslash c). Qed.

Lemma plain_app (a b : string) : plain (a ++ b)%string = plain a && plain b.
Proof. unfold plain. rewrite contains_app. by rewrite negb_orb. Qed.

Lemma plain_q (s : string) : plain (PyStr.q s) = plain s.
Proof.
  induction s as [|c s IH]; [done|]. cbn [PyStr.q]. rewrite !plain_cons, IH.
  destruct (Ascii.eqb_spec c "'") as [->|Hne]; [reflexivity|done].
Qed.

Lemma parse_template_plain_app (n : nat) (a : string) (b : list ascii) :
  plain a = true →
  Re.parse_template n (list_ascii_of_string a ++ b)
  = ps ← Re.parse_template n b; Some (literal (list_ascii_of_string a) ++ ps).
Proof.
  induction a as [|c a IH]; intros Ha.
  - simpl. by destruct (Re.parse_template n b).
  - rewrite plain_cons in Ha. apply andb_prop in Ha as [Hc Ha].
    cbn [list_ascii_of_string app Re.parse_template].
    rewrite Ascii.eqb_sym, Hc. rewrite (IH Ha). unfold Re.addlit.
    by destruct (Re.parse_template n b).
Qed.

Lemma parse_template_plain (n : nat) (a : string) :
  plain a = true →
  Re.parse_template n (list_ascii_of_string a)
  = Some (literal (list_ascii_of_string a)).
Proof.
  intros Ha. rewrite <- (app_nil_r (list_ascii_of_string a)) at 1.
  rewrite parse_template_plain_app by done. simpl. by rewrite app_nil_r.
Qed.

Lemma parse_template_group (n : nat) (d : ascii) (i : nat) (rest : list ascii) :
  (d = "1"%char ∧ i = 1) ∨ (d = "2"%char ∧ i = 2) →
  match rest with c :: _ => Re.digit c = None | [] => True end →
  Re.parse_template n (Re.backslash :: d :: rest)
  = Re.addgroup n i (Re.parse_template n rest).
Proof.
  intros Hd Hrest.
  assert (Re.parse_template n (Re.backslash :: d :: rest)
          = match rest with
            | c2 :: s3 =>
                match Re.digit c2 with
                | Some d2 =>
                    match s3 with
                    | c3 :: s4 =>
                        match Re.octdigit d, Re.octdigit c2, Re.octdigit c3 with
                        | Some v1, Some v2, Some v3 =>
                            let v := v1 * 64 + v2 * 8 + v3 in
                            if Nat.ltb 255 v then None
                            else Re.addlit (ascii_of_nat v) (Re.parse_template n s4)
                        | _, _, _ =>
                            Re.addgroup n (i * 10 + d2) (Re.parse_template n s3)
                        end
                    | [] => Re.addgroup n (i * 10 + d2) (Re.parse_template n s3)
                    end
                | None => Re.addgroup n i (Re.parse_template n rest)
                end
            | [] => Re.addgroup n i (Re.parse_template n rest)
            end) as ->.
  { destruct Hd as [[-> ->]|[-> ->]]; by destruct rest. }
  destruct rest as [|c2 s3]; [done|]. by rewrite Hrest.
Qed.

Lemma leading_digit_head (t : string) (rest : list ascii) :
  leading_digit t = false →
  match rest with c :: _ => Re.digit c = None | [] => True end →
  match list_ascii_of_string t ++ rest with
  | c :: _ => Re.digit c = None
  | [] => True
  end.
Proof.
  destruct t as [|c t]; [done|]. cbn [leading_digit list_ascii_of_string app].
  intros Hc _. apply bool_decide_eq_false in Hc.
  destruct (Re.digit c); [|done]. destruct Hc. by eexists.
Qed.

Lemma sub_returns (ic : bool) (r : Re.regex) (n : nat) (template s : string) :
  is_Some (Re.parse_template n (list_ascii_of_string template)) →
  is_Some (Re.sub ic r n template s).
Proof.
  intros [ps Hps]. unfold Re.sub, Re.sub_with. rewrite Hps.
  destruct (sub_go_total ic r (Re.expand ps)
              (S (length (list_ascii_of_string s))) (list_ascii_of_string s))
    as [out ->]. by eexists.
Qed.


(** Templates that parse, by their shape. *)

Lemma template_nil (n : nat) : is_Some (Re.parse_template n (list_ascii_of_string "")).
Proof. by eexists. Qed.

Lemma template_plain (n : nat) (a b : string) :
  plain a = true →
  is_Some (Re.parse_template n (list_ascii_of_string b)) →
  is_Some (Re.parse_template n (list_ascii_of_string (a ++ b))).
Proof.
  intros Ha [ps Hps]. rewrite list_ascii_of_string_app.
  rewrite parse_template_plain_app, Hps by done. by eexists.
Qed.

Lemma template_group (n : nat) (d : ascii) (i : nat) (b : string) :
  (d = "1"%char ∧ i = 1) ∨ (d = "2"%char ∧ i = 2) → (i ≤ n)%nat →
  leading_digit b = false →
  is_Some (Re.parse_template n (list_ascii_of_string b)) →
  is_Some (Re.parse_template n
             (list_ascii_of_string (String Re.backslash (String d b)))).
Proof.
  intros Hd Hi Hb [ps Hps]. cbn [list_ascii_of_string].
  rewrite (parse_template_group n d i) by
    (try done; rewrite <- (app_nil_r (list_ascii_of_string b));
     by apply leading_digit_head).
  rewrite Hps. unfold Re.addgroup.
  apply Nat.ltb_ge in Hi. rewrite Hi. by eexists.
Qed.

Lemma leading_digit_app (a b : string) :
  leading_digit a = false → leading_digit b = false →
  leading_digit (a ++ b) = false.
Proof. destruct a as [|c a]; [by rewrite append_nil_l|]. by rewrite append_cons. Qed.

Lemma substitute_returns (en_text html element_id target_text : string) :
  plain element_id = true → plain target_text = true →
  leading_digit target_text = false →
  is_Some (Generate.substitute en_text html element_id target_text).
Proof.
  intros Hid Htarget Hdigit. unfold Generate.substitute.
  destruct (Re.search false (Generate.id_pattern element_id en_text)
              (list_ascii_of_string html)).
  - apply sub_returns.
    apply template_plain; [by rewrite plain_q|].
    apply template_plain; [done|].
    apply template_plain; [by rewrite plain_q|].
    rewrite append_cons, append_cons, append_nil_l.
    apply (template_group 1 _ 1); [by left|done|reflexivity|].
    apply template_plain; [done|].
    apply template_plain; [done|].
    rewrite <- (append_nil_r "<"). apply template_plain; [done|apply template_nil].
  - assert (is_Some (Re.sub false (Generate.text_pattern en_text) 2
              (String Re.backslash "1" ++ target_text ++ String Re.backslash "2")
              html)) as [html' ->].
    { apply sub_returns. rewrite append_cons, append_cons, append_nil_l.
      apply (template_group 2 _ 1); [by left|lia| |].
      - by apply leading_digit_app.
      - apply template_plain; [done|].
        apply (template_group 2 _ 2 ""); [by right|done|done|apply template_nil]. }
    cbn [mbind option_bind].
    apply sub_returns. rewrite append_cons, append_cons, append_nil_l.
    apply (template_group 1 _ 1); [by left|done|reflexivity|].
    apply template_plain; [by rewrite plain_q|].
    apply template_plain; [done|].
    rewrite <- (append_nil_r (PyStr.q "'")).
    apply template_plain; [by rewrite plain_q|apply template_nil].
Qed.

Lemma translate_entry_returns (en_text : Generate.cell) (html : string)
    (item : Generate.cell * Generate.cell) :
  substitutable item →
  is_Some (Generate.translate_entry en_text html (fst item) (snd item)).
Proof.
  intros ((element_id & -> & Hid) & Htarget & Hdigit). unfold Generate.translate_entry.
  destruct en_text as [en_text|]; [|by eexists].
  destruct (negb (PyStr.truthy en_text) || bool_decide (Some en_text = snd item));
    [by eexists|].
  by apply substitute_returns.
Qed.

Lemma translate_fold_returns (tr_en : Generate.table)
    (csv_translations : PyDict.t Generate.table)
    (translations : Generate.table) (html : string) :
  PyDict.get "en" csv_translations = Some tr_en →
  Forall substitutable translations →
  is_Some (fold_left
             (λ (html : option string) (item : Generate.cell * Generate.cell),
                html ← html;
                tr_en ← PyDict.get "en" csv_translations;
                Generate.translate_entry (Generate.table_get (fst item) tr_en) html
                  (fst item) (snd item))
             translations (Some html)).
Proof.
  intros Hen Hall.
  set (step := λ (html : option string) (item : Generate.cell * Generate.cell),
                 html ← html;
                 tr_en ← PyDict.get "en" csv_translations;
                 Generate.translate_entry (Generate.table_get (fst item) tr_en) html
                   (fst item) (snd item)).
  revert html.
  induction Hall as [|item l Hitem _ IH]; intros html; [by eexists|].
  cbn [fold_left].
  destruct (translate_entry_returns (Generate.table_get (fst item) tr_en) html
              item Hitem) as [html' Hstep].
  assert (step (Some html) item = Some html') as ->; [|apply IH].
  unfold step. simpl. rewrite Hen. simpl. exact Hstep.
Qed.

(** X12. The substitution step returns, whatever the document, when the
    identifiers and the texts of the target language hold no backslash
    and no text begins with a digit. *)
Theorem translate_content_returns (html lang : string)
    (csv_translations : PyDict.t Generate.table) (tr_en : Generate.table) :
  PyDict.get "en" csv_translations = Some tr_en →
  Forall substitutable (default [] (PyDict.get lang csv_translations)) →
  is_Some (Generate.translate_content html lang csv_translations).
Proof.
  intros Hen Hall. unfold Generate.translate_content.
  destruct (String.eqb lang "en"); [by eexists|].
  by apply (translate_fold_returns tr_en).
Qed.

(** One entry, a paragraph with the identifier and one without. *)
Lemma translate_content_returns_witness :
  is_Some (Generate.translate_content
             (PyStr.q "<p id='intro'>Welcome</p><p>Welcome</p>") "es"
             [("en", [(Some "intro", Some "Welcome")]);
              ("es", [(Some "intro", Some "Bienvenidos")])]).
Proof.
  apply (translate_content_returns _ "es" _ [(Some "intro", Some "Welcome")]);
    [reflexivity|].
  apply Forall_singleton. split; [by exists "intro"|by split].
Defined.

(** X13. A translation that begins with a digit, unless with two octal
    digits, makes the fallback substitution raise: the template puts the
    text right after the reference to group 1, and the digits are read as
    part of the group number. *)
Theorem digit_leading_translation_raises (en_text html element_id target_text : string) :
  leading_digit target_text = true → octal_pair target_text = false →
  PyStr.truthy en_text = true → en_text ≠ target_text →
  Re.search false (Generate.id_pattern element_id en_text)
    (list_ascii_of_string html) = false →
  Generate.translate_entry (Some en_text) html (Some element_id) (Some target_text)
  = None.
Proof.
  intros Hdigit Hpair Hen Hne Hsearch. unfold Generate.translate_entry.
  rewrite Hen. rewrite bool_decide_eq_false_2 by congruence.
  cbn [negb orb]. change (Generate.format (Some target_text)) with target_text.
  unfold Generate.substitute. rewrite Hsearch.
  assert (Re.sub false (Generate.text_pattern en_text) 2
            (String Re.backslash "1" ++ target_text ++ String Re.backslash "2") html
          = None) as ->; [|done].
  unfold Re.sub.
  assert (Re.parse_template 2
            (list_ascii_of_string
               (String Re.backslash "1" ++ target_text ++ String Re.backslash "2"))
          = None) as ->; [|done].
  destruct target_text as [|d rest]; [done|].
  cbn [leading_digit] in Hdigit. apply bool_decide_eq_true in Hdigit as [d2 Hd2].
  rewrite !append_cons, append_nil_l. cbn [list_ascii_of_string].
  rewrite list_ascii_of_string_app.
  assert (∀ s3, match s3 with
                | c3 :: _ => Re.octdigit d = None ∨ Re.octdigit c3 = None
                | [] => True
                end →
            Re.parse_template 2 (Re.backslash :: "1"%char :: d :: s3) = None) as Hparse.
  { intros s3 Hs3. cbn [Re.parse_template]. rewrite Hd2.
    destruct s3 as [|c3 s4]; [by destruct (Re.parse_template 2 [])|].
    change (Re.octdigit "1") with (Some 1).
    destruct Hs3 as [-> | Hc3].
    - by destruct (Re.parse_template 2 (c3 :: s4)).
    - destruct (Re.octdigit d); rewrite Hc3; by destruct (Re.parse_template 2 (c3 :: s4)). }
  apply Hparse. destruct rest as [|c rest]; [by right|].
  cbn [list_ascii_of_string app]. cbn [octal_pair] in Hpair.
  apply andb_false_iff in Hpair as [H|H]; apply bool_decide_eq_false in H.
  - left. destruct (Re.octdigit d); [|done]. destruct H. by eexists.
  - right. destruct (Re.octdigit c); [|done]. destruct H. by eexists.
Qed.

(** A pack of three sessions, in a paragraph without identifier. *)
Lemma digit_leading_translation_raises_witness :
  Generate.translate_entry (Some "3 sessions") "<p>3 sessions</p>" (Some "pack")
    (Some "3 sesiones") = None
  ∧ Generate.translate_content "<p>3 sessions</p>" "es"
      [("en", [(Some "pack", Some "3 sessions")]);
       ("es", [(Some "pack", Some "3 sesiones")])] = None.
Proof.
  split; [|vm_compute; reflexivity].
  apply digit_leading_translation_raises; [reflexivity..|discriminate|reflexivity].
Defined.


End Templates.
Section Transform.
Import Generate.

Lemma sub_go_returns (ic : bool) (r : Re.regex)
    (repl : Re.groups → option (list ascii)) (fuel : nat) (s : list ascii) :
  (∀ g, is_Some (repl g)) → is_Some (Re.sub_go fuel ic r repl s).
Proof.
  intros Hrepl. revert s. induction fuel as [|fuel IH]; intros s; simpl; [by eexists|].
  destruct (Re.match_here ic r s) as [[rest g]|].
  - destruct (Hrepl ((0, take (length s - length rest) s) :: g)) as [new ->].
    destruct (Nat.ltb (length rest) (length s)).
    + destruct (IH rest) as [out ->]. by eexists.
    + destruct s as [|c s]; [by eexists|]. destruct (IH s) as [out ->]. by eexists.
  - destruct s as [|c s]; [by eexists|]. destruct (IH s) as [out ->]. by eexists.
Qed.

Lemma sub_with_returns (ic : bool) (r : Re.regex)
    (repl : Re.groups → option (list ascii)) (s : string) :
  (∀ g, is_Some (repl g)) → is_Some (Re.sub_with ic r repl s).
Proof.
  intros Hrepl. unfold Re.sub_with.
  destruct (sub_go_returns ic r repl (S (length (list_ascii_of_string s)))
              (list_ascii_of_string s) Hrepl) as [out ->]. by eexists.
Qed.

Lemma template_plain_end (n : nat) (a : string) :
  plain a = true → is_Some (Re.parse_template n (list_ascii_of_string a)).
Proof. intros Ha. rewrite parse_template_plain by done. by eexists. Qed.

Lemma set_lang_returns (lang : string) (g : Re.groups) :
  plain lang = true → is_Some (set_lang lang g).
Proof.
  intros Hlang. unfold set_lang.
  destruct (negb (PyStr.substring_in "lang=" _)); [by eexists|].
  match goal with
  | |- context [Re.sub ?ic ?r ?n ?t ?s] =>
      destruct (sub_returns ic r n t s) as [out ->]; [|by eexists]
  end.
  apply template_plain_end. by rewrite !plain_app, !plain_q, Hlang.
Qed.

Lemma update_component_lang_attributes_returns (html lang page_name : string) :
  plain lang = true →
  is_Some (update_component_lang_attributes html lang page_name).
Proof.
  intros Hlang. unfold update_component_lang_attributes.
  destruct (sub_with_returns false (component_pattern "<site-header")
              (set_lang lang) html) as [html1 ->];
    [intros g; by apply set_lang_returns|].
  simpl. apply sub_with_returns. intros g. by apply set_lang_returns.
Qed.

Lemma update_asset_paths_returns (html : string) (is_default : bool) :
  is_Some (update_asset_paths html is_default).
Proof.
  unfold update_asset_paths. destruct is_default; [by eexists|].
  repeat match goal with
  | |- context [mbind _ (Re.sub ?ic ?r ?n ?t ?s)] =>
      destruct (sub_returns ic r n t s) as [? ->];
        [vm_compute; by eexists|]; simpl
  end.
  apply sub_returns. vm_compute. by eexists.
Qed.

Lemma add_hreflang_tags_returns (html page_name : string) (is_default : bool) :
  plain page_name = true →
  is_Some (add_hreflang_tags html page_name is_default).
Proof.
  intros Hpage. unfold add_hreflang_tags. cbv zeta.
  match goal with
  | |- context [mbind _ (Re.sub ?ic ?r ?n ?t ?s)] =>
      destruct (sub_returns ic r n t s) as [? ->]; [by eexists|]
  end.
  rewrite bind_Some. apply sub_returns.
  rewrite append_cons, append_cons, append_nil_l.
  apply (template_group 1 _ 1); [by left|done|reflexivity|].
  apply template_plain_end. rewrite plain_q.
  by rewrite !plain_app, Hpage.
Qed.

Lemma translate_html_attributes_returns (html lang : string) (t : json)
    (page_name title description : string) :
  plain lang = true →
  page_title t page_name = Some title → plain title = true →
  page_description t page_name = Some description → plain description = true →
  is_Some (translate_html_attributes html lang t page_name).
Proof.
  intros Hlang Htitle Hpt Hdesc Hpd. unfold translate_html_attributes.
  match goal with
  | |- context [mbind _ (Re.sub ?ic ?r ?n ?t ?s)] =>
      destruct (sub_returns ic r n t s) as [? ->]
  end.
  { apply template_plain_end. by rewrite !plain_app, !plain_q, Hlang. }
  rewrite bind_Some, Htitle, bind_Some.
  match goal with
  | |- context [mbind _ (Re.sub ?ic ?r ?n ?t ?s)] =>
      destruct (sub_returns ic r n t s) as [? ->]
  end.
  { apply template_plain_end. by rewrite !plain_app, Hpt. }
  rewrite bind_Some, Hdesc, bind_Some.
  apply sub_returns. apply template_plain_end.
  by rewrite !plain_app, !plain_q, Hpd.
Qed.

End Transform.
Section Frame.
Import Generate.

Lemma output_file_source (lang page_name q : string) :
  lang ∈ languages → page_name ∈ pages → q ∈ pages →
  output_file lang page_name = (q ++ ".html")%string → page_name = q.
Proof.
  assert (Forall (λ lang, Forall (λ page_name, Forall (λ q,
            output_file lang page_name = (q ++ ".html")%string → page_name = q)
            pages) pages) languages) as Hall.
  { repeat constructor; vm_compute; congruence. }
  intros Hlang Hpage Hq.
  rewrite Forall_forall in Hall. specialize (Hall lang Hlang).
  rewrite Forall_forall in Hall. specialize (Hall page_name Hpage).
  rewrite Forall_forall in Hall. by apply Hall.
Qed.

Lemma run_inv_start (fs : site) : run_inv fs {| files := fs; written := [] |}.
Proof. split_and!; simpl; try done. Qed.

Lemma generate_one_frame (fs : site) (lang : string) (translations : json)
    (csv_translations : PyDict.t Generate.table) (o : outcome)
    (page_name : string) :
  lang ∈ languages → page_name ∈ pages →
  run_inv fs (progress_of o) →
  run_inv fs (progress_of
    (generate_one lang translations csv_translations
       (String.eqb lang default_lang) o page_name)).
Proof.
  intros Hlang Hpage Hinv. unfold generate_one.
  destruct o as [p|p]; [|done]. cbn [progress_of] in Hinv.
  destruct (documents (files p) !! (page_name ++ ".html")%string) as [html|] eqn:Hdoc;
    [|done].
  destruct (transform html page_name lang translations csv_translations
              (String.eqb lang default_lang)) as [html'|]; [|done].
  fold (output_file lang page_name).
  destruct Hinv as (Hcsv & Hmeta & Hwritten & Hother & Hpages).
  cbn [progress_of]. unfold write_file.
  split_and!; cbn [files written documents translations_csv metadata].
  - done.
  - done.
  - apply Forall_app. split; [done|]. apply Forall_singleton.
    exists lang, page_name. split_and!; [done|done| |done].
    apply Hpages; [done|]. by rewrite Hdoc.
  - intros path Hpath. rewrite lookup_insert_ne.
    + apply Hother. intros Hin. apply Hpath. apply elem_of_app. by left.
    + intros <-. apply Hpath. apply elem_of_app. right. by apply list_elem_of_singleton.
  - intros q Hq. rewrite <- (Hpages q Hq).
    destruct (decide (output_file lang page_name = (q ++ ".html")%string)) as [Heq|Hne].
    + rewrite Heq, lookup_insert_eq.
      apply (output_file_source lang page_name q Hlang Hpage Hq) in Heq as <-.
      rewrite Hdoc. split; intros _; by eexists.
    + by rewrite lookup_insert_ne.
Qed.

Lemma generate_lang_frame (fs : site)
    (csv_translations : PyDict.t Generate.table) (o : outcome) (lang : string) :
  lang ∈ languages →
  run_inv fs (progress_of o) →
  run_inv fs (progress_of (generate_lang csv_translations o lang)).
Proof.
  intros Hlang Hinv. unfold generate_lang. destruct o as [p|p]; [|done].
  destruct (load_translations (files p) lang) as [translations|]; [|done].
  apply (fold_left_inv _ (λ o, run_inv fs (progress_of o))); [|done].
  intros o page_name Hpage Ho. by apply generate_one_frame.
Qed.

(** X14. Whether it returns or raises, a run leaves the Store and the
    metadata tables as they were and writes only outputs of pages whose
    English file exists, [page.html] and [es/page.html]; every other
    document is left as it was. *)
Theorem generator_writes_only_page_outputs (fs : site) :
  let p := progress_of (main fs) in
  translations_csv (files p) = translations_csv fs
  ∧ metadata (files p) = metadata fs
  ∧ Forall (page_output fs) (written p)
  ∧ (∀ path, ¬ (path ∈ written p) →
       documents (files p) !! path = documents fs !! path).
Proof.
  intros p.
  assert (run_inv fs p) as (Hcsv & Hmeta & Hwritten & Hother & _); [|done].
  unfold p, main. destruct (load_translations_csv fs) as [csv_translations|];
    [|apply run_inv_start].
  apply (fold_left_inv _ (λ o, run_inv fs (progress_of o)));
    [|apply run_inv_start].
  intros o lang Hlang Ho. by apply generate_lang_frame.
Qed.

End Frame.
Section Returns.
Import Generate.

Lemma pages_plain (page_name : string) : page_name ∈ pages → plain page_name = true.
Proof.
  assert (Forall (λ q, plain q = true) pages) as Hall by (by repeat constructor).
  rewrite Forall_forall in Hall. apply Hall.
Qed.

Lemma languages_plain (lang : string) : lang ∈ languages → plain lang = true.
Proof.
  assert (Forall (λ q, plain q = true) languages) as Hall by (by repeat constructor).
  rewrite Forall_forall in Hall. apply Hall.
Qed.

Lemma translate_content_returns_in (html lang : string)
    (csv_translations : PyDict.t Generate.table) (tr_en : Generate.table) :
  PyDict.get "en" csv_translations = Some tr_en →
  lang = "en" ∨ Forall substitutable (default [] (PyDict.get lang csv_translations)) →
  is_Some (translate_content html lang csv_translations).
Proof.
  intros Hen Hall. unfold translate_content.
  destruct (String.eqb_spec lang "en") as [->|Hne]; [by eexists|].
  destruct Hall as [?|Hall]; [done|]. by apply (translate_fold_returns tr_en).
Qed.

Lemma transform_returns (html page_name lang : string) (t : json)
    (csv_translations : PyDict.t Generate.table) (tr_en : Generate.table)
    (is_default : bool) :
  page_name ∈ pages → lang ∈ languages → usable_metadata t →
  PyDict.get "en" csv_translations = Some tr_en →
  lang = "en" ∨ Forall substitutable (default [] (PyDict.get lang csv_translations)) →
  is_Some (transform html page_name lang t csv_translations is_default).
Proof.
  intros Hpage Hlang Ht Hen Hall. unfold transform.
  destruct (Ht page_name Hpage) as (title & description & Htitle & Hpt & Hdesc & Hpd).
  destruct (translate_html_attributes_returns html lang t page_name title description)
    as [html1 ->]; [by apply languages_plain|done..|].
  rewrite bind_Some.
  destruct (add_hreflang_tags_returns html1 page_name is_default) as [html2 ->];
    [by apply pages_plain|].
  rewrite bind_Some.
  destruct (update_asset_paths_returns html2 is_default) as [html3 ->].
  rewrite bind_Some.
  destruct (update_component_lang_attributes_returns html3 lang page_name)
    as [html4 ->]; [by apply languages_plain|].
  rewrite bind_Some. by apply (translate_content_returns_in _ _ _ tr_en).
Qed.

Lemma generate_pages_returns (fs : site) (lang : string) (t : json)
    (csv_translations : PyDict.t Generate.table) (tr_en : Generate.table)
    (l : list string) (p : progress) :
  lang ∈ languages → Forall (λ q, q ∈ pages) l → usable_metadata t →
  PyDict.get "en" csv_translations = Some tr_en →
  lang = "en" ∨ Forall substitutable (default [] (PyDict.get lang csv_translations)) →
  run_inv fs p →
  ∃ p', fold_left (generate_one lang t csv_translations
                     (String.eqb lang default_lang)) l (Returned p) = Returned p'
        ∧ run_inv fs p'
        ∧ written p' = written p ++
            (output_file lang <$>
               filter (λ q, is_Some (documents fs !! (q ++ ".html")%string)) l).
Proof.
  intros Hlang Hl Ht Hen Hall. revert p.
  induction Hl as [|q l Hq _ IH]; intros p Hinv.
  - exists p. split_and!; [done|done|]. by rewrite app_nil_r.
  - cbn [fold_left].
    pose proof (generate_one_frame fs lang t csv_translations (Returned p) q
                  Hlang Hq Hinv) as Hinv1.
    destruct Hinv as (_ & _ & _ & _ & Hpages).
    rewrite filter_cons.
    unfold generate_one in *.
    destruct (documents (files p) !! (q ++ ".html")%string) as [html|] eqn:Hdoc.
    + destruct (transform_returns html q lang t csv_translations tr_en
                  (String.eqb lang default_lang)) as [html' Hhtml]; [done..|].
      rewrite Hhtml in *. fold (output_file lang q) in *.
      destruct (IH _ Hinv1) as (p' & Hfold & Hinv' & Hwritten).
      exists p'. split_and!; [done|done|].
      rewrite Hwritten. unfold write_file. cbn [progress_of written].
      destruct (decide (is_Some (documents fs !! (q ++ ".html")%string))) as [_|Hno].
      * by rewrite fmap_cons, <- app_assoc.
      * destruct Hno. apply Hpages; [done|]. by rewrite Hdoc.
    + destruct (IH _ Hinv1) as (p' & Hfold & Hinv' & Hwritten).
      exists p'. split_and!; [done|done|].
      rewrite Hwritten.
      destruct (decide (is_Some (documents fs !! (q ++ ".html")%string))) as [Hyes|_];
        [|done].
      apply Hpages in Hyes; [|done]. rewrite Hdoc in Hyes. by destruct Hyes.
Qed.

End Returns.

Section Main.
Import Generate.

Lemma load_translations_csv_en (fs : site) (csv_translations : PyDict.t Generate.table) :
  load_translations_csv fs = Some csv_translations →
  is_Some (PyDict.get "en" csv_translations).
Proof.
  unfold load_translations_csv. destruct (translations_csv fs) as [file|]; [|done].
  destruct (Csv.DictReader_restval file) as [rows|]; [|done].
  destruct (fold_left load_row rows (Some ([], []))) as [[tr_en tr_es]|]; [|done].
  intros [= <-]. by eexists.
Qed.

(** X15. With the Store readable, the two metadata tables complete and
    free of backslashes, and Spanish entries that the substitution can take,
    the run returns, and it has written, in this order, [page.html] for
    every page that has an English file and then [es/page.html] for the
    same pages; a page without English file is passed over. *)
Theorem generator_returns (fs : site)
    (csv_translations : PyDict.t Generate.table) (t_en t_es : json) :
  load_translations_csv fs = Some csv_translations →
  metadata fs !! "en" = Some t_en → usable_metadata t_en →
  metadata fs !! "es" = Some t_es → usable_metadata t_es →
  Forall substitutable (default [] (PyDict.get "es" csv_translations)) →
  ∃ p, main fs = Returned p
       ∧ written p = ((λ page_name, page_name ++ ".html")%string <$> sources fs)
                     ++ ((λ page_name, "es/" ++ page_name ++ ".html")%string
                           <$> sources fs).
Proof.
  intros Hload Hen Hten Hes Htes Hsub. unfold main. rewrite Hload.
  destruct (load_translations_csv_en fs csv_translations Hload) as [tr_en Htr].
  cbn [languages fold_left].
  destruct (generate_pages_returns fs "en" t_en csv_translations tr_en pages
              {| files := fs; written := [] |})
    as (p1 & Hfold1 & Hinv1 & Hwritten1);
    [by left|by apply Forall_forall|done|done|by left|apply run_inv_start|].
  unfold generate_lang at 2. unfold load_translations. cbn [files].
  rewrite Hen, Hfold1.
  destruct (generate_pages_returns fs "es" t_es csv_translations tr_en pages p1)
    as (p2 & Hfold2 & Hinv2 & Hwritten2);
    [by right; left|by apply Forall_forall|done|done|by right|done|].
  unfold generate_lang. unfold load_translations.
  destruct Hinv1 as (_ & Hmeta & _). rewrite Hmeta, Hes, Hfold2.
  exists p2. split; [done|]. rewrite Hwritten2, Hwritten1. done.
Qed.

Lemma sample_metadata_usable : usable_metadata sample_metadata.
Proof.
  assert (Forall (λ page_name, ∃ title description,
            page_title sample_metadata page_name = Some title ∧ plain title = true
            ∧ page_description sample_metadata page_name = Some description
            ∧ plain description = true) pages) as Hall.
  { repeat (apply Forall_cons; split;
              [eexists _, _; split_and!; vm_compute; reflexivity|]).
    apply Forall_nil_2. }
  rewrite Forall_forall in Hall. exact Hall.
Qed.

(** Two of the five pages have an English file. *)
Lemma generator_returns_witness :
  let fs :=
    {| documents := {[ "index.html" := "<title>Home</title>";
                       "about.html" := "<title>About us</title>" ]};
       translations_csv :=
         Some (Csv.DictWriter
                 [ {| Row.page := "index"; Row.address := "/index.html";
                      Row.status := "active"; Row.tag := "h1";
                      Row.id := "hero-title"; Row.en := "Capture the Moment";
                      Row.es := "Captura el Momento" |} ]);
       metadata := {[ "en" := sample_metadata; "es" := sample_metadata ]} |} in
  ∃ p, main fs = Returned p
       ∧ written p = ["index.html"; "about.html"; "es/index.html"; "es/about.html"].
Proof.
  intros fs.
  destruct (generator_returns fs
              [("en", [(Some "hero-title", Some "Capture the Moment")]);
               ("es", [(Some "hero-title", Some "Captura el Momento")])]
              sample_metadata sample_metadata) as (p & Hmain & Hwritten).
  - vm_compute. reflexivity.
  - reflexivity.
  - apply sample_metadata_usable.
  - reflexivity.
  - apply sample_metadata_usable.
  - apply Forall_singleton. split; [by exists "hero-title"|by split].
  - exists p. split; [exact Hmain|]. rewrite Hwritten. vm_compute. reflexivity.
Defined.


End Main.
(** ** The Generator: a run without its Store or a metadata table *)

Section Run.
Import Generate.

Lemma generate_one_inv (fs : site) (translations : json)
    (csv_translations : PyDict.t Generate.table) (o : outcome)
    (page_name : string) :
  page_name ∈ pages →
  metadata (files (progress_of o)) = metadata fs
  ∧ Forall default_document (written (progress_of o)) →
  metadata (files (progress_of
     (generate_one "en" translations csv_translations true o page_name)))
  = metadata fs
  ∧ Forall default_document (written (progress_of
     (generate_one "en" translations csv_translations true o page_name))).
Proof.
  intros Hpage [Hmeta Hwritten]. unfold generate_one.
  destruct o as [p|p]; simpl in *; [|done].
  destruct (documents (files p) !! (page_name ++ ".html")%string) as [html|];
    simpl; [|done].
  destruct (transform html page_name "en" translations csv_translations true);
    simpl; [|done].
  split; [done|]. apply Forall_app. split; [done|].
  apply Forall_singleton. by exists page_name.
Qed.

(** The run as its two passes. *)
Lemma main_passes (fs : site) :
  main fs =
  match load_translations_csv fs with
  | Some csv_translations =>
      generate_lang csv_translations
        (match metadata fs !! "en" with
         | Some t_en =>
             fold_left (generate_one "en" t_en csv_translations true)
               pages (Returned {| files := fs; written := [] |})
         | None => Raised {| files := fs; written := [] |}
         end) "es"
  | None => Raised {| files := fs; written := [] |}
  end.
Proof.
  unfold main. destruct (load_translations_csv fs); [|done].
  simpl. unfold load_translations. simpl. by destruct (metadata fs !! "en").
Qed.

(** C10, as the code has it. When the Store file or the metadata table of
    a language is absent, the run raises. With the Store file or the English
    table absent nothing has been written and the files are as they were.
    With the Spanish table alone absent the run raises at the latest when
    it comes to that language: what has been written by then are
    default-language documents only, and when the Store is read and the
    English table holds every title and description, without backslash,
    they are the documents of all the pages that have an English file. *)
Theorem generate_aborts_on_missing_input (fs : site) :
  translations_csv fs = None ∨ metadata fs !! "en" = None
  ∨ metadata fs !! "es" = None →
  ∃ p, main fs = Raised p
       ∧ (translations_csv fs = None ∨ metadata fs !! "en" = None →
            written p = [] ∧ files p = fs)
       ∧ Forall default_document (written p)
       ∧ (∀ csv_translations t_en,
            load_translations_csv fs = Some csv_translations →
            metadata fs !! "en" = Some t_en → usable_metadata t_en →
            written p = (λ page_name, page_name ++ ".html")%string <$> sources fs).
Proof.
  intros Hmissing.
  set (p0 := {| files := fs; written := [] |}).
  rewrite main_passes. fold p0.
  destruct (load_translations_csv fs) as [csv_translations|] eqn:Hload.
  2: { exists p0. split_and!; [done|done|apply Forall_nil_2|done]. }
  assert (translations_csv fs ≠ None) as Hcsv.
  { unfold load_translations_csv in Hload. by destruct (translations_csv fs). }
  destruct (metadata fs !! "en") as [t_en|] eqn:Hen.
  2: { exists p0. split_and!; [done|done|apply Forall_nil_2|done]. }
  assert (metadata fs !! "es" = None) as Hes
    by (destruct Hmissing as [?|[?|?]]; congruence).
  set (o := fold_left (generate_one "en" t_en csv_translations true)
              pages (Returned p0)).
  assert (metadata (files (progress_of o)) = metadata fs
          ∧ Forall default_document (written (progress_of o))) as [Hmeta Hwritten].
  { subst o.
    apply (fold_left_inv _
             (λ o, metadata (files (progress_of o)) = metadata fs
                   ∧ Forall default_document (written (progress_of o)))).
    - intros a b Hb Ha. by apply generate_one_inv.
    - split; [done|apply Forall_nil_2]. }
  exists (progress_of o).
  assert (generate_lang csv_translations o "es" = Raised (progress_of o)) as Hraise.
  { unfold generate_lang, load_translations.
    destruct o as [p|p]; simpl in *; [|done]. by rewrite Hmeta, Hes. }
  split_and!; [done|intros [?|?]; congruence|done|].
  intros csv' t_en' [= <-] [= <-] Hten.
  destruct (load_translations_csv_en fs csv_translations Hload) as [tr_en Htr].
  destruct (generate_pages_returns fs "en" t_en csv_translations tr_en pages p0)
    as (p1 & Hfold1 & _ & Hwritten1);
    [by left|by apply Forall_forall|done|done|by left|apply run_inv_start|].
  change (String.eqb "en" default_lang) with true in Hfold1.
  subst o. rewrite Hfold1. cbn [progress_of]. by rewrite Hwritten1.
Qed.

(** No Store file: nothing is written. No Spanish table: the English
    documents are written. *)
Lemma generate_aborts_on_missing_input_witness :
  let fs := {| documents := {[ "index.html" := "<title>Home</title>" ]};
               translations_csv := None;
               metadata := {[ "en" := sample_metadata; "es" := sample_metadata ]} |} in
  let fs' := {| documents := {[ "index.html" := "<title>Home</title>" ]};
                translations_csv := Some "page,address,status,tag,id,en,es";
                metadata := {[ "en" := sample_metadata ]} |} in
  (∃ p, main fs = Raised p ∧ written p = [] ∧ files p = fs)
  ∧ (∃ p, main fs' = Raised p ∧ written p = ["index.html"]).
Proof.
  intros fs fs'. split.
  - destruct (generate_aborts_on_missing_input fs) as (p & Hmain & Hnothing & _).
    + by left.
    + exists p. split; [done|]. apply Hnothing. by left.
  - destruct (generate_aborts_on_missing_input fs') as (p & Hmain & _ & _ & Hen).
    + right; right. reflexivity.
    + exists p. split; [done|].
      rewrite (Hen [("en", []); ("es", [])] sample_metadata);
        [vm_compute; reflexivity|vm_compute; reflexivity|reflexivity|].
      apply sample_metadata_usable.
Defined.

(** C10, as stated, fails when the Spanish table alone is absent: the run
    raises, and [index.html] has been written by then. *)
Lemma generate_writes_english_before_abort :
  let fs := {| documents := {[ "index.html" := "<title>Home</title>" ]};
               translations_csv := Some "page,address,status,tag,id,en,es";
               metadata := {[ "en" := sample_metadata ]} |} in
  ∃ p, main fs = Raised p
       ∧ metadata fs !! "es" = None
       ∧ written p = ["index.html"]
       ∧ documents (files p) !! "index.html" = Some "<title>Lenko Studio</title>".
Proof.
  eexists. split; [vm_compute; reflexivity|].
  split_and!; vm_compute; reflexivity.
Qed.

End Run.

Section Load.

Lemma table_set_fresh (k v : Generate.cell) (d : Generate.table) :
  ¬ (k ∈ d.*1) → Generate.table_set k v d = d ++ [(k, v)].
Proof.
  induction d as [|[k' v'] d IH]; simpl; [done|].
  intros Hk. case_bool_decide as Heq.
  - destruct Hk. subst. by left.
  - rewrite IH; [done|]. intros Hin. apply Hk. by right.
Qed.

Lemma row_cells_lookup (r : Row.t) :
  row_cells r !! "status" = Some (Some (Row.status r))
  ∧ row_cells r !! "id" = Some (Some (Row.id r))
  ∧ row_cells r !! "en" = Some (Some (Row.en r))
  ∧ row_cells r !! "es" = Some (Some (Row.es r)).
Proof. destruct r. split_and!; reflexivity. Qed.

Lemma load_row_step (r : Row.t) (tr_en tr_es : Generate.table) :
  Row.status r ≠ "deleted" →
  Generate.load_row (Some (tr_en, tr_es)) (row_cells r)
  = Some (Generate.table_set (Some (Row.id r)) (Some (Row.en r)) tr_en,
          Generate.table_set (Some (Row.id r)) (Some (Row.es r)) tr_es).
Proof.
  intros Hr. unfold Generate.load_row.
  destruct (row_cells_lookup r) as (H1 & H2 & H3 & H4). rewrite H1, H2, H3, H4.
  simpl. rewrite bool_decide_eq_false_2; [done|congruence].
Qed.

Lemma load_row_fold (rows : list Row.t) (tr_en tr_es : Generate.table) :
  NoDup (tr_en.*1 ++ (Some <$> (Row.id <$> rows))) →
  tr_es.*1 = tr_en.*1 →
  Forall (λ r, Row.status r ≠ "deleted") rows →
  fold_left Generate.load_row (row_cells <$> rows) (Some (tr_en, tr_es))
  = Some (tr_en ++ ((λ r, (Some (Row.id r), Some (Row.en r))) <$> rows),
          tr_es ++ ((λ r, (Some (Row.id r), Some (Row.es r))) <$> rows)).
Proof.
  revert tr_en tr_es. induction rows as [|r rows IH]; intros tr_en tr_es Hnodup Hkeys Hall.
  - simpl. by rewrite !app_nil_r.
  - apply Forall_cons in Hall as [Hr Hall].
    rewrite fmap_cons. cbn [fold_left]. rewrite load_row_step by done.
    assert (¬ (Some (Row.id r) ∈ tr_en.*1)) as Hfresh.
    { apply NoDup_app in Hnodup as (_ & Hdisj & _). intros Hin.
      apply (Hdisj _ Hin). rewrite !fmap_cons. by left. }
    rewrite !table_set_fresh by (by rewrite ?Hkeys).
    rewrite IH; [by rewrite !fmap_cons, <- !app_assoc| | |done].
    + rewrite fmap_app. simpl. rewrite !fmap_cons in Hnodup. by rewrite <- app_assoc.
    + by rewrite !fmap_app, Hkeys.
Qed.

Lemma load_translations_csv_written (gfs : Generate.site) (rows : list Row.t) :
  NoDup (Row.id <$> rows) → Forall storable_row rows →
  Forall (λ r, Row.status r ≠ "deleted") rows →
  Generate.translations_csv gfs = Some (Csv.DictWriter rows) →
  Generate.load_translations_csv gfs = Some (translations_of rows).
Proof.
  intros Hnodup Hst Hall Hcsv. unfold Generate.load_translations_csv.
  rewrite Hcsv, (DictReader_restval_DictWriter _ (storable_rows_cr_free _ Hst)).
  rewrite load_row_fold; [done| |done|done].
  simpl. apply NoDup_fmap; [|done]. by intros x y [= ->].
Qed.

(** X16. What the Reconciler persists the Generator loads: from the Store
    file that a run of [sync_translations.py] writes,
    [load_translations_csv] builds the two maps that hold, for every row
    and in the order of the rows, its source text and its translation under
    its identifier, provided the rows hold no carriage return (and are
    within what the reader takes). *)
Theorem generator_loads_persisted_rows (fs fs1 : site) (rows : list Row.t)
    (gfs : Generate.site) :
  store_rows fs = Some rows → Forall storable_row rows →
  sync_main fs = Some fs1 →
  Generate.translations_csv gfs = translations_csv fs1 →
  Generate.load_translations_csv gfs = Some (translations_of rows).
Proof.
  intros Hrows Hst Hmain Hcsv.
  rewrite sync_main_store_rows, Hrows in Hmain. injection Hmain as <-.
  cbn [translations_csv] in Hcsv.
  unfold store_rows in Hrows.
  destruct (scan_html_files fs) as [scan|]; [|done].
  destruct (load_existing_csv fs) as [E|]; [|done].
  injection Hrows as <-.
  apply load_translations_csv_written; [apply reconcile_NoDup|done| |done].
  apply Forall_forall. intros r Hr%reconcile_created.
  destruct (create_updated_csv_inv (page_ids scan) (tag_info scan) E) as [_ Hall].
  rewrite Forall_forall in Hall. destruct (Hall r Hr) as [(Hactive & _) _].
  by rewrite Hactive.
Qed.

(** One page in the two languages synchronised, and the Store it leaves
    loaded. *)
Lemma generator_loads_persisted_rows_witness :
  let fs :=
    {| html_files :=
         {[ "index.html" := [StartTag "h1" [("id", "hero-title")];
                             Data "Capture the Moment"; EndTag "h1"];
            "es/index.html" := [StartTag "h1" [("id", "hero-title")];
                                Data "Captura el Momento"; EndTag "h1"] ]};
       translations_csv := None |} in
  let rows :=
    [ {| Row.page := "index"; Row.address := "/index.html"; Row.status := "active";
         Row.tag := "h1"; Row.id := "hero-title"; Row.en := "Capture the Moment";
         Row.es := "Captura el Momento" |} ] in
  let gfs :=
    {| Generate.documents := ∅;
       Generate.translations_csv := Some (Csv.DictWriter rows);
       Generate.metadata := ∅ |} in
  Generate.load_translations_csv gfs
  = Some [("en", [(Some "hero-title", Some "Capture the Moment")]);
          ("es", [(Some "hero-title", Some "Captura el Momento")])].
Proof.
  intros fs rows gfs.
  apply (generator_loads_persisted_rows fs
           {| html_files := html_files fs;
              translations_csv := Some (Csv.DictWriter rows) |} rows gfs).
  - vm_compute. reflexivity.
  - repeat constructor; vm_compute; discriminate.
  - vm_compute. reflexivity.
  - reflexivity.
Defined.


End Load.

